(** Question generation, difficulty calibration, grading and analytics of the
    lecture QA system: a shallow embedding of

      - services/qa_generator.py (reply parsing, generation, allocation),
      - services/difficulty_adjuster.py (target distribution, balance score),
      - api/routers/questions.py (answer evaluation, rolling correct rate,
        submission of an answer),
      - api/routers/analytics.py (learning trend),
      - models/student_response.py (performance metrics),

    with the properties of the specification proved about it, and further
    properties of the same code.

    Conventions of the model.
      - A [str] is a list of code points below 256, one [ascii] each. On these
        [str.lower] maps one code point to one; beyond them it may lengthen a text,
        and no property below rests on the length of a text put in lower case.
      - A [float] is the rational it denotes; every arithmetic operation rounds its
        exact result to binary64, to nearest with ties to even. The exponent range
        is not bounded: overflow, subnormals, infinities and NaN are left out.
      - An [int] is an integer of [Z].
      - A call that may raise returns a [result]; only instances of [Exception]
        are modelled.
      - The chat model, the JSON decoder and the validation of the question class
        are parameters of the generation section; the chat model threads a state,
        so that two calls may answer differently. *)

From Stdlib Require Import ZArith QArith Qpower Qround Qabs Qminmax Qfield Lia Lqa List Bool Permutation Sorted Ascii String DecimalString.
Import ListNotations.
From Stdlib Require DecimalZ DecimalPos.

(** * Double-precision arithmetic *)
Module Float64.
Local Open Scope Q_scope.

Definition float := Q.

Definition pow2 (e : Z) : Q := Qpower 2 e.

(** The exponent of a positive rational: the [e] with [2^e <= x < 2^(e+1)]. *)
Definition ilog2 (x : Q) : Z :=
  let l := (Z.log2 (Qnum x) - Z.log2 (Zpos (Qden x)))%Z in
  if Qle_bool (pow2 l) x then l else (l - 1)%Z.

(** The nearest integer, the even one of two that are equally near. *)
Definition rne (y : Q) : Z :=
  let f := Qfloor y in
  match Qcompare (y - inject_Z f) (1 # 2) with
  | Lt => f
  | Gt => (f + 1)%Z
  | Eq => if Z.even f then f else (f + 1)%Z
  end.

(** A positive rational rounded to 53 significant bits. *)
Definition round_pos (x : Q) : Q :=
  let e := (ilog2 x - 52)%Z in
  inject_Z (rne (x / pow2 e)) * pow2 e.

(** The double nearest to [x], as a reduced fraction. *)
Definition rnd (x : Q) : float :=
  match Qcompare x 0 with
  | Eq => 0
  | Gt => Qred (round_pos x)
  | Lt => Qred (- round_pos (- x))
  end.

Definition fadd (a b : float) : float := rnd (a + b).

Definition fsub (a b : float) : float := rnd (a - b).

Definition fmul (a b : float) : float := rnd (a * b).

Definition fdiv (a b : float) : float := rnd (a / b).

(** [float(n)], as an [int] becomes when it meets a [float] in an operation. *)
Definition float_of_int (n : Z) : float := rnd (inject_Z n).

(** [int(x)]: truncation toward zero. *)
Definition int_of_float (x : float) : Z := Z.quot (Qnum x) (Zpos (Qden x)).

(** [abs(x)] *)
Definition fabs (x : float) : float := Qabs x.

(** The relative error of one rounding: 2^-53. *)
Definition u53 : Q := 1 # 9007199254740992.

End Float64.

(** * Python text *)
Module PyStr.
Local Open Scope Z_scope.

(** A [str] whose code points all lie below 256: one [ascii] per code point. *)
Definition text := list ascii.

Definition text_of_string (s : string) : text := list_ascii_of_string s.
Coercion text_of_string : string >-> text.

Definition len {A} (l : list A) : Z := Z.of_nat (List.length l).

Definition code (c : ascii) : Z := Z.of_N (N_of_ascii c).

(** [str.isspace] on one code point below 256. *)
Definition is_space (c : ascii) : bool :=
  let n := code c in
  ((9 <=? n) && (n <=? 13)) || ((28 <=? n) && (n <=? 32)) || (n =? 133) || (n =? 160).

(** [str.lower] on one code point below 256: A-Z and the Latin-1 capitals
    (all of 0xC0-0xDE but the multiplication sign 0xD7) move up by 32. *)
Definition lower_char (c : ascii) : ascii :=
  let n := code c in
  if ((65 <=? n) && (n <=? 90)) || ((192 <=? n) && (n <=? 222) && negb (n =? 215))
  then ascii_of_N (Z.to_N (n + 32)) else c.

Definition lower (s : text) : text := map lower_char s.

Fixpoint lstrip (s : text) : text :=
  match s with
  | c :: s' => if is_space c then lstrip s' else s
  | [] => []
  end.

Definition rstrip (s : text) : text := rev (lstrip (rev s)).

Definition strip (s : text) : text := rstrip (lstrip s).

Fixpoint text_eqb (a b : text) : bool :=
  match a, b with
  | [], [] => true
  | x :: a', y :: b' => Ascii.eqb x y && text_eqb a' b'
  | _, _ => false
  end.

(** [s.startswith(p)] *)
Fixpoint startswith (s p : text) : bool :=
  match p, s with
  | [], _ => true
  | x :: p', y :: s' => Ascii.eqb x y && startswith s' p'
  | _ :: _, [] => false
  end.

(** [s.endswith(p)] *)
Definition endswith (s p : text) : bool := startswith (rev s) (rev p).

(** Lowest index, counted from [i], at which [sub] starts in [s]; -1 when it does not occur. *)
Fixpoint find_from (sub s : text) (i : Z) : Z :=
  if startswith s sub then i
  else match s with
       | [] => -1
       | _ :: s' => find_from sub s' (i + 1)
       end.

(** [s[a:b]] for indices [0 <= a], [0 <= b]. *)
Definition slice (s : text) (a b : Z) : text :=
  firstn (Z.to_nat (b - a)) (skipn (Z.to_nat a) s).

(** [s[a:]] for [0 <= a]. *)
Definition slice_from (s : text) (a : Z) : text := skipn (Z.to_nat a) s.

(** [s.find(sub, start)] for [0 <= start]. *)
Definition find (s sub : text) (start : Z) : Z :=
  if len s <? start then -1 else find_from sub (slice_from s start) start.

(** [sub in s] *)
Fixpoint contains (sub s : text) : bool :=
  startswith s sub ||
  match s with
  | [] => false
  | _ :: s' => contains sub s'
  end.

End PyStr.

(** * Exceptions *)
Module Py.

Inductive exn :=
| JSONDecodeError
| TypeError
| OtherException (name : string).

(** Outcome of a call that may raise (an instance of [Exception]). *)
Inductive result (A : Type) :=
| Ok (a : A)
| Raise (e : exn).
Arguments Ok {A} a.
Arguments Raise {A} e.

(** A decoded JSON document, as [json.loads] hands it back. *)
#[local] Set Warnings "-register-all".
Inductive json :=
| JNull
| JBool (b : bool)
| JNum (q : Q)
| JStr (s : PyStr.text)
| JArr (l : list json)
| JObj (kv : list (PyStr.text * json)).

End Py.

(** * services/qa_generator.py *)
Module QAGen.
Import PyStr Float64 Py.
Local Open Scope Z_scope.

Inductive QuestionType := MULTIPLE_CHOICE | SINGLE_CHOICE | ESSAY | SHORT_ANSWER.

Inductive DifficultyLevel := EASY | MEDIUM | HARD.

Record GeneratedQuestion := {
  question : text;
  question_type : QuestionType;
  difficulty : DifficultyLevel;
  choices : option (list text);
  correct_answer : text;
  explanation : text;
  keywords : list text
}.

Record QASet := {
  slide_number : Z;
  slide_title : text;
  questions : list GeneratedQuestion
}.

(** The dictionary the extractor produces for one slide. *)
Record SlideContent := {
  sc_slide_number : Z;
  sc_title : text;
  sc_content : text;
  sc_bullet_points : list text;
  sc_full_text : text
}.

(** A dictionary keyed by the three difficulty levels, in the order easy, medium, hard. *)
Record per_level (A : Type) := { easy : A; medium : A; hard : A }.
Arguments easy {A} p.
Arguments medium {A} p.
Arguments hard {A} p.

Definition get {A} (d : per_level A) (k : DifficultyLevel) : A :=
  match k with EASY => easy d | MEDIUM => medium d | HARD => hard d end.

Definition set {A} (d : per_level A) (k : DifficultyLevel) (v : A) : per_level A :=
  match k with
  | EASY => {| easy := v; medium := medium d; hard := hard d |}
  | MEDIUM => {| easy := easy d; medium := v; hard := hard d |}
  | HARD => {| easy := easy d; medium := medium d; hard := v |}
  end.

Definition fence_json : text := "```json"%string.
Definition fence : text := "```"%string.
Definition open_brace : text := "{"%string.
Definition close_brace : text := "}"%string.

(** The loop of pattern 3: [i] is the index of the head of [s] in the reply. *)
Fixpoint brace_scan (s : text) (i : Z) (brace_count : Z) : option Z :=
  match s with
  | [] => None
  | char :: s' =>
      if Ascii.eqb char "{" then brace_scan s' (i + 1) (brace_count + 1)
      else if Ascii.eqb char "}" then
        if brace_count - 1 =? 0 then Some i
        else brace_scan s' (i + 1) (brace_count - 1)
      else brace_scan s' (i + 1) brace_count
  end.

Definition _extract_json_from_response (response_content : text) : option text :=
  let pattern4 :=
    let content := strip response_content in
    if startswith content open_brace && endswith content close_brace
    then Some content else None in
  let pattern3 :=
    let start_brace := find response_content open_brace 0 in
    if negb (start_brace =? -1) then
      match brace_scan (slice_from response_content start_brace) start_brace 0 with
      | Some i => Some (slice response_content start_brace (i + 1))
      | None => pattern4
      end
    else pattern4 in
  let pattern2 :=
    if contains fence response_content then
      let start := find response_content fence 0 + 3 in
      let end_ := find response_content fence start in
      if negb (end_ =? -1) then
        let potential_json := strip (slice response_content start end_) in
        if startswith potential_json open_brace && endswith potential_json close_brace
        then Some potential_json
        else pattern3
      else pattern3
    else pattern3 in
  if contains fence_json response_content then
    let start := find response_content fence_json 0 + 7 in
    let end_ := find response_content fence start in
    if negb (end_ =? -1) then Some (strip (slice response_content start end_))
    else pattern2
  else pattern2.

(** ** The ladder as the specification words it *)

(** Text before and after the first occurrence of [sub]. *)
Fixpoint split_first (sub s : text) : option (text * text) :=
  if startswith s sub then Some ([], skipn (List.length sub) s)
  else match s with
       | [] => None
       | c :: s' =>
           match split_first sub s' with
           | Some (before, after) => Some (c :: before, after)
           | None => None
           end
       end.

(** Interior of the first fence opened by [opener] and closed by the next fence marker. *)
Definition fence_interior (opener s : text) : option text :=
  match split_first opener s with
  | Some (_, rest) =>
      match split_first fence rest with
      | Some (interior, _) => Some interior
      | None => None
      end
  | None => None
  end.

Definition object_shaped (t : text) : bool :=
  startswith t open_brace && endswith t close_brace.

Definition spec_tagged_fence (s : text) : option text :=
  option_map strip (fence_interior fence_json s).

Definition spec_generic_fence (s : text) : option text :=
  match fence_interior fence s with
  | Some interior => if object_shaped (strip interior) then Some (strip interior) else None
  | None => None
  end.

(** Shortest prefix of [s] that closes the brace opened just before it;
    [extra] is the number of further braces opened and not yet closed. *)
Fixpoint close_span (s : text) (extra : nat) : option text :=
  match s with
  | [] => None
  | c :: s' =>
      if Ascii.eqb c "{" then option_map (cons c) (close_span s' (S extra))
      else if Ascii.eqb c "}" then
        match extra with
        | O => Some [c]
        | S e => option_map (cons c) (close_span s' e)
        end
      else option_map (cons c) (close_span s' extra)
  end.

Definition spec_balanced_span (s : text) : option text :=
  match split_first open_brace s with
  | Some (_, rest) => option_map (app open_brace) (close_span rest 0)
  | None => None
  end.

Definition spec_whole_reply (s : text) : option text :=
  if object_shaped (strip s) then Some (strip s) else None.

Fixpoint first_match (strategies : list (text -> option text)) (s : text) : option text :=
  match strategies with
  | [] => None
  | f :: rest =>
      match f s with
      | Some r => Some r
      | None => first_match rest s
      end
  end.

Definition spec_ladder : list (text -> option text) :=
  [spec_tagged_fence; spec_generic_fence; spec_balanced_span; spec_whole_reply].

(** Opening braces minus closing braces. *)
Fixpoint depth (s : text) : Z :=
  match s with
  | [] => 0
  | c :: s' =>
      (if Ascii.eqb c "{" then 1 else if Ascii.eqb c "}" then -1 else 0) + depth s'
  end.

(** ** Content gate *)

Definition _has_sufficient_content (slide_content : SlideContent) : bool :=
  let full_text := sc_full_text slide_content in
  let content := sc_content slide_content in
  let bullet_points := sc_bullet_points slide_content in
  let min_text_length := 50 in
  (min_text_length <=? len full_text) || (min_text_length <=? len content)
  || (2 <=? len bullet_points).

(** ** Parsing and validation of one reply *)

Definition required_fields : list text :=
  [ text_of_string "question"; text_of_string "question_type";
    text_of_string "difficulty"; text_of_string "correct_answer";
    text_of_string "explanation" ].

Definition kw_field : text := "keywords"%string.

Definition has_key (kv : list (text * json)) (k : text) : bool :=
  existsb (fun p => text_eqb (fst p) k) kv.

(** [field in data] *)
Definition py_in (field : text) (data : json) : result bool :=
  match data with
  | JObj kv => Ok (has_key kv field)
  | JArr l => Ok (existsb (fun v => match v with JStr s => text_eqb s field | _ => false end) l)
  | JStr s => Ok (contains field s)
  | _ => Raise TypeError
  end.

(** [d[k] = v] on a dictionary *)
Fixpoint dict_set (kv : list (text * json)) (k : text) (v : json) : list (text * json) :=
  match kv with
  | [] => [(k, v)]
  | (k', v') :: rest => if text_eqb k' k then (k, v) :: rest else (k', v') :: dict_set rest k v
  end.

(** [d[k]], [None] when the key is absent *)
Fixpoint dict_get (kv : list (text * json)) (k : text) : option json :=
  match kv with
  | [] => None
  | (k', v') :: rest => if text_eqb k' k then Some v' else dict_get rest k
  end.

(** [data["keywords"] = []] *)
Definition set_default_keywords (data : json) : result json :=
  match data with
  | JObj kv => Ok (JObj (dict_set kv kw_field (JArr [])))
  | _ => Raise TypeError
  end.

(** The loop over the required fields: [Ok false] is the early [return None]. *)
Fixpoint check_required (fields : list text) (data : json) : result bool :=
  match fields with
  | [] => Ok true
  | field :: rest =>
      match py_in field data with
      | Raise e => Raise e
      | Ok false => Ok false
      | Ok true => check_required rest data
      end
  end.

(** [if x:] on a decoded document *)
Definition truthy (data : json) : bool :=
  match data with
  | JNull => false
  | JBool b => b
  | JNum q => negb (Qeq_bool q 0)
  | JStr s => negb (len s =? 0)
  | JArr l => negb (len l =? 0)
  | JObj kv => negb (len kv =? 0)
  end.

(** ** Allocation across slides *)

(** One turn of the loop over the three levels; the state is the slide's
    distribution, the shared remaining counts and the slide's count still to place. *)
Definition distribute_step (difficulty : DifficultyLevel)
    (st : per_level Z * per_level Z * Z) : per_level Z * per_level Z * Z :=
  let '(distribution, remaining_difficulty_counts, questions_count) := st in
  let available := get remaining_difficulty_counts difficulty in
  if (0 <? available) && (0 <? questions_count) then
    let allocated := Z.min 1 (Z.min available questions_count) in
    (set distribution difficulty allocated,
     set remaining_difficulty_counts difficulty (available - allocated),
     questions_count - allocated)
  else st.

(** Returns the slide's distribution together with the updated shared counts. *)
Definition _distribute_difficulty_for_slide (questions_count : Z)
    (remaining_difficulty_counts : per_level Z) : per_level Z * per_level Z :=
  let distribution := {| easy := 0; medium := 0; hard := 0 |} in
  let st := (distribution, remaining_difficulty_counts, questions_count) in
  let st := distribute_step EASY st in
  let st := distribute_step MEDIUM st in
  let st := distribute_step HARD st in
  (fst (fst st), snd (fst st)).

Definition default_ratio : per_level float :=
  {| easy := rnd (4 # 10); medium := rnd (4 # 10); hard := rnd (2 # 10) |}.

Definition initial_counts (total_questions : Z) (difficulty_ratio : per_level float)
    : per_level Z :=
  let easy_count := int_of_float (fmul (float_of_int total_questions) (easy difficulty_ratio)) in
  let medium_count := int_of_float (fmul (float_of_int total_questions) (medium difficulty_ratio)) in
  let hard_count := total_questions - easy_count - medium_count in
  {| easy := easy_count; medium := medium_count; hard := hard_count |}.

(** ** The allocation on its own *)

(** What [comprehensive_loop] hands to the generator, slide by slide, and the
    shared counts it leaves after each slide. *)
Record allocation := {
  al_slide : SlideContent;
  al_slide_questions : Z;
  al_before : per_level Z;
  al_dist : per_level Z;
  al_after : per_level Z
}.

Fixpoint allocation_plan (valid_slides : list SlideContent) (i : Z)
    (questions_per_slide remaining_questions : Z) (difficulty_counts : per_level Z)
    : list allocation :=
  match valid_slides with
  | [] => []
  | slide_content :: rest =>
      let slide_questions :=
        if i <? remaining_questions then questions_per_slide + 1 else questions_per_slide in
      let '(slide_difficulty_dist, difficulty_counts') :=
        _distribute_difficulty_for_slide slide_questions difficulty_counts in
      {| al_slide := slide_content; al_slide_questions := slide_questions;
         al_before := difficulty_counts;
         al_dist := slide_difficulty_dist; al_after := difficulty_counts' |}
      :: allocation_plan rest (i + 1) questions_per_slide remaining_questions difficulty_counts'
  end.

Definition comprehensive_plan (slides_content : list SlideContent) (total_questions : Z)
    (difficulty_ratio : option (per_level float)) : list allocation :=
  let difficulty_ratio :=
    match difficulty_ratio with None => default_ratio | Some r => r end in
  let valid_slides := filter _has_sufficient_content slides_content in
  allocation_plan valid_slides 0 (total_questions / len valid_slides)
    (total_questions mod len valid_slides) (initial_counts total_questions difficulty_ratio).

(** The units of work a distribution asks for, in the order they are made. *)
Definition units_of (d : per_level Z) : list DifficultyLevel :=
  repeat EASY (Z.to_nat (easy d)) ++ repeat MEDIUM (Z.to_nat (medium d))
  ++ repeat HARD (Z.to_nat (hard d)).

Definition level_eqb (a b : DifficultyLevel) : bool :=
  match a, b with
  | EASY, EASY | MEDIUM, MEDIUM | HARD, HARD => true
  | _, _ => false
  end.

(** Every unit of work of a plan, slide after slide. *)
Definition plan_units (plan : list allocation) : list DifficultyLevel :=
  flat_map (fun a => units_of (al_dist a)) plan.

(** Number of generation attempts of one level that a plan asks for. *)
Definition attempts (plan : list allocation) (k : DifficultyLevel) : Z :=
  len (filter (level_eqb k) (plan_units plan)).

Fixpoint successes {A} (l : list (option A)) : list A :=
  match l with
  | [] => []
  | Some a :: rest => a :: successes rest
  | None :: rest => successes rest
  end.

(** One slide's draw as the specification words it: level by level, the least of
    1, what the pool still holds and what the slide still needs. *)
Definition spec_draw (a : allocation) : Prop :=
  let need0 := al_slide_questions a in
  let e := Z.min 1 (Z.min (easy (al_before a)) need0) in
  let m := Z.min 1 (Z.min (medium (al_before a)) (need0 - e)) in
  let h := Z.min 1 (Z.min (hard (al_before a)) (need0 - e - m)) in
  al_dist a = {| easy := e; medium := m; hard := h |} /\
  al_after a = {| easy := easy (al_before a) - e; medium := medium (al_before a) - m;
                  hard := hard (al_before a) - h |}.

Definition pool_nonneg (c : per_level Z) : Prop :=
  0 <= easy c /\ 0 <= medium c /\ 0 <= hard c.

(** The pool is shared: each slide starts from what the slide before left. *)
Fixpoint chained (c : per_level Z) (plan : list allocation) : Prop :=
  match plan with
  | [] => True
  | a :: rest => al_before a = c /\ chained (al_after a) rest
  end.

(** ** Sample replies and slides *)

Definition dq : text := [ascii_of_nat 34].

Definition quoted (s : string) : text := dq ++ text_of_string s ++ dq.

(** An object whose explanation holds a pair of braces. *)
Definition nested_payload : text :=
  text_of_string "{" ++ quoted "explanation" ++ text_of_string ": "
  ++ quoted "use {x} notation" ++ text_of_string ", "
  ++ quoted "question" ++ text_of_string ": " ++ quoted "q" ++ text_of_string "}".

Definition nested_reply : text :=
  text_of_string "Here is the question: " ++ nested_payload ++ text_of_string " Good luck.".

Definition sample_slide (n : Z) (content : string) : SlideContent :=
  {| sc_slide_number := n; sc_title := text_of_string "Slide";
     sc_content := text_of_string content; sc_bullet_points := [];
     sc_full_text := text_of_string content |}.

Definition fifty_chars : string := "The mitochondria is the powerhouse of the cell ...".

(** Three slides that pass the gate and, in second place, one that does not. *)
Definition four_slides : list SlideContent :=
  [sample_slide 1 fifty_chars; sample_slide 2 "too short";
   sample_slide 3 fifty_chars; sample_slide 4 fifty_chars].

Section Generation.

(** [json.loads]; decoding may raise. *)
Variable json_loads : text -> result json.

(** The chat model: [World] stands for whatever makes two calls answer
    differently; a call hands back the reply text or raises. *)
Variable World : Type.
Variable Prompt : Type.
Variable llm_invoke : World -> Prompt -> result text * World.

(** Rendering of the two prompt messages through the template library. *)
Variable _create_question_prompt : SlideContent -> DifficultyLevel -> result Prompt.

(** Construction of a [GeneratedQuestion] from the dictionary's entries as keyword
    arguments: field validation by the model class. *)
Variable build_question : list (text * json) -> result GeneratedQuestion.

Definition _parse_response_try (response_content : text) : result (option json) :=
  match _extract_json_from_response response_content with
  | None => Ok None
  | Some json_content =>
      if len json_content =? 0 then Ok None
      else
        match json_loads json_content with
        | Raise e => Raise e
        | Ok data =>
            match check_required required_fields data with
            | Raise e => Raise e
            | Ok false => Ok None
            | Ok true =>
                match py_in kw_field data with
                | Raise e => Raise e
                | Ok true => Ok (Some data)
                | Ok false =>
                    match set_default_keywords data with
                    | Raise e => Raise e
                    | Ok data' => Ok (Some data')
                    end
                end
            end
        end
  end.

(** Both [except] clauses return [None]. *)
Definition _parse_response (response_content : text) : option json :=
  match _parse_response_try response_content with
  | Ok r => r
  | Raise _ => None
  end.

Definition _generate_single_question_try (w : World) (slide_content : SlideContent)
    (difficulty : DifficultyLevel) : result (option GeneratedQuestion) * World :=
  match _create_question_prompt slide_content difficulty with
  | Raise e => (Raise e, w)
  | Ok prompt =>
      match llm_invoke w prompt with
      | (Raise e, w') => (Raise e, w')
      | (Ok content, w') =>
          match _parse_response content with
          | Some question_data =>
              if truthy question_data then
                match question_data with
                | JObj kv =>
                    match build_question kv with
                    | Ok q => (Ok (Some q), w')
                    | Raise e => (Raise e, w')
                    end
                | _ => (Raise TypeError, w')
                end
              else (Ok None, w')
          | None => (Ok None, w')
          end
      end
  end.

(** What the caller gets: the [except Exception] clause turns a raise into [None]. *)
Definition _generate_single_question (w : World) (slide_content : SlideContent)
    (difficulty : DifficultyLevel) : result (option GeneratedQuestion) * World :=
  match _generate_single_question_try w slide_content difficulty with
  | (Ok r, w') => (Ok r, w')
  | (Raise _, w') => (Ok None, w')
  end.

(** [for _ in range(count)] with the list [questions] being appended to. *)
Fixpoint generate_count (count : nat) (w : World) (slide_content : SlideContent)
    (difficulty : DifficultyLevel) (questions : list GeneratedQuestion)
    : result (list GeneratedQuestion) * World :=
  match count with
  | O => (Ok questions, w)
  | S count' =>
      match _generate_single_question w slide_content difficulty with
      | (Raise e, w') => (Raise e, w')
      | (Ok question, w') =>
          generate_count count' w' slide_content difficulty
            (match question with Some q => questions ++ [q] | None => questions end)
      end
  end.

(** [for difficulty, count in difficulty_distribution.items()] *)
Fixpoint generate_items (items : list (DifficultyLevel * Z)) (w : World)
    (slide_content : SlideContent) (questions : list GeneratedQuestion)
    : result (list GeneratedQuestion) * World :=
  match items with
  | [] => (Ok questions, w)
  | (difficulty, count) :: rest =>
      match generate_count (Z.to_nat count) w slide_content difficulty questions with
      | (Raise e, w') => (Raise e, w')
      | (Ok questions', w') => generate_items rest w' slide_content questions'
      end
  end.

Definition items (d : per_level Z) : list (DifficultyLevel * Z) :=
  [(EASY, easy d); (MEDIUM, medium d); (HARD, hard d)].

Definition default_slide_distribution : per_level Z :=
  {| easy := 1; medium := 1; hard := 0 |}.

Definition generate_questions_for_slide (w : World) (slide_content : SlideContent)
    (num_questions : Z) (difficulty_distribution : option (per_level Z))
    : result QASet * World :=
  let difficulty_distribution :=
    match difficulty_distribution with
    | None => default_slide_distribution
    | Some d => d
    end in
  match generate_items (items difficulty_distribution) w slide_content [] with
  | (Raise e, w') => (Raise e, w')
  | (Ok questions, w') =>
      (Ok {| slide_number := sc_slide_number slide_content;
             slide_title := sc_title slide_content;
             questions := questions |}, w')
  end.

(** [for i, slide_content in enumerate(valid_slides)] *)
Fixpoint comprehensive_loop (valid_slides : list SlideContent) (i : Z)
    (questions_per_slide remaining_questions : Z) (difficulty_counts : per_level Z)
    (w : World) (qa_sets : list QASet) : result (list QASet) * World :=
  match valid_slides with
  | [] => (Ok qa_sets, w)
  | slide_content :: rest =>
      let slide_questions :=
        if i <? remaining_questions then questions_per_slide + 1 else questions_per_slide in
      let '(slide_difficulty_dist, difficulty_counts') :=
        _distribute_difficulty_for_slide slide_questions difficulty_counts in
      match generate_questions_for_slide w slide_content slide_questions
              (Some slide_difficulty_dist) with
      | (Raise e, w') => (Raise e, w')
      | (Ok qa_set, w') =>
          comprehensive_loop rest (i + 1) questions_per_slide remaining_questions
            difficulty_counts' w' (qa_sets ++ [qa_set])
      end
  end.

Definition generate_comprehensive_qa (w : World) (slides_content : list SlideContent)
    (total_questions : Z) (difficulty_ratio : option (per_level float))
    : result (list QASet) * World :=
  let difficulty_ratio :=
    match difficulty_ratio with None => default_ratio | Some r => r end in
  let difficulty_counts := initial_counts total_questions difficulty_ratio in
  let valid_slides := filter _has_sufficient_content slides_content in
  if len valid_slides =? 0 then (Ok [], w)
  else
    let questions_per_slide := total_questions / len valid_slides in
    let remaining_questions := total_questions mod len valid_slides in
    comprehensive_loop valid_slides 0 questions_per_slide remaining_questions
      difficulty_counts w [].

(** ** The batch as the specification words it *)

(** One unit of work: a failure of any kind is an empty result. *)
Definition attempt (w : World) (slide_content : SlideContent) (difficulty : DifficultyLevel)
    : option GeneratedQuestion * World :=
  match _generate_single_question_try w slide_content difficulty with
  | (Ok r, w') => (r, w')
  | (Raise _, w') => (None, w')
  end.

(** The outcome of every unit of a list, made one after the other. *)
Fixpoint run_attempts (units : list DifficultyLevel) (w : World) (slide_content : SlideContent)
    : list (option GeneratedQuestion) * World :=
  match units with
  | [] => ([], w)
  | d :: rest =>
      let '(r, w') := attempt w slide_content d in
      let '(rs, w'') := run_attempts rest w' slide_content in
      (r :: rs, w'')
  end.

(** Slide after slide of a plan, each with its own distribution. *)
Fixpoint run_plan (plan : list allocation) (w : World) (qa_sets : list QASet)
    : result (list QASet) * World :=
  match plan with
  | [] => (Ok qa_sets, w)
  | a :: rest =>
      match generate_questions_for_slide w (al_slide a) (al_slide_questions a)
              (Some (al_dist a)) with
      | (Raise e, w') => (Raise e, w')
      | (Ok qa_set, w') => run_plan rest w' (qa_sets ++ [qa_set])
      end
  end.

End Generation.

(** ** A scripted model for examples *)

(** The model answers the calls with the entries of a script, in order. *)
Definition script := list (result text).

Definition scripted_invoke (w : script) (_ : unit) : result text * script :=
  match w with
  | [] => (Raise (OtherException "connection closed"), [])
  | r :: w' => (r, w')
  end.

Definition unit_prompt (_ : SlideContent) (_ : DifficultyLevel) : result unit := Ok tt.

Definition complete_payload : text :=
  text_of_string "{" ++ quoted "question" ++ text_of_string ": " ++ quoted "What is a cell?"
  ++ text_of_string ", " ++ quoted "question_type" ++ text_of_string ": " ++ quoted "short_answer"
  ++ text_of_string ", " ++ quoted "difficulty" ++ text_of_string ": " ++ quoted "easy"
  ++ text_of_string ", " ++ quoted "correct_answer" ++ text_of_string ": " ++ quoted "A unit of life"
  ++ text_of_string ", " ++ quoted "explanation" ++ text_of_string ": " ++ quoted "See slide 1"
  ++ text_of_string "}".

Definition complete_reply : text := fence_json ++ complete_payload ++ fence.

Definition complete_object : list (text * json) :=
  [ (text_of_string "question", JStr (text_of_string "What is a cell?"));
    (text_of_string "question_type", JStr (text_of_string "short_answer"));
    (text_of_string "difficulty", JStr (text_of_string "easy"));
    (text_of_string "correct_answer", JStr (text_of_string "A unit of life"));
    (text_of_string "explanation", JStr (text_of_string "See slide 1")) ].

(** A decoder that knows the two sample documents and rejects everything else. *)
Definition sample_loads (j : text) : result json :=
  if text_eqb j nested_payload then
    Ok (JObj [ (text_of_string "explanation", JStr (text_of_string "use {x} notation"));
               (text_of_string "question", JStr (text_of_string "q")) ])
  else if text_eqb j complete_payload then Ok (JObj complete_object)
  else Raise JSONDecodeError.

(** A validator that wants text in three fields and a list of keywords. *)
Definition sample_build (kv : list (text * json)) : result GeneratedQuestion :=
  match dict_get kv (text_of_string "question"),
        dict_get kv (text_of_string "correct_answer"),
        dict_get kv (text_of_string "explanation"),
        dict_get kv kw_field with
  | Some (JStr q), Some (JStr a), Some (JStr e), Some (JArr []) =>
      Ok {| question := q; question_type := SHORT_ANSWER; difficulty := EASY;
            choices := None; correct_answer := a; explanation := e; keywords := [] |}
  | _, _, _, _ => Raise (OtherException "ValidationError")
  end.

Definition sample_question : GeneratedQuestion :=
  {| question := text_of_string "What is a cell?"; question_type := SHORT_ANSWER;
     difficulty := EASY; choices := None;
     correct_answer := text_of_string "A unit of life";
     explanation := text_of_string "See slide 1"; keywords := [] |}.

(** A failing call, a reply that lacks required fields, then a complete reply. *)
Definition sample_script : script :=
  [Raise (OtherException "timeout"); Ok nested_reply; Ok complete_reply].

End QAGen.

(** * services/difficulty_adjuster.py *)
Module Adjuster.
Import PyStr Float64 QAGen.
Local Open Scope Z_scope.

Definition default_target_distribution : per_level float :=
  {| easy := rnd (4 # 10); medium := rnd (4 # 10); hard := rnd (2 # 10) |}.

Definition calculate_difficulty_distribution (total_questions : Z)
    (target_distribution : option (per_level float)) : per_level Z :=
  let target_distribution :=
    match target_distribution with
    | None => default_target_distribution
    | Some t => t
    end in
  let remaining_questions := total_questions in
  let easy_count :=
    int_of_float (fmul (float_of_int total_questions) (easy target_distribution)) in
  let remaining_questions := remaining_questions - easy_count in
  let medium_count :=
    int_of_float (fmul (float_of_int total_questions) (medium target_distribution)) in
  let remaining_questions := remaining_questions - medium_count in
  {| easy := easy_count; medium := medium_count; hard := remaining_questions |}.

(** The same rule with the two products taken as they are written, floor and all. *)
Definition spec_target_distribution (total : Z) (ratios : per_level float) : per_level Z :=
  let easy_count := Qfloor (fmul (float_of_int total) (easy ratios)) in
  let medium_count := Qfloor (fmul (float_of_int total) (medium ratios)) in
  {| easy := easy_count; medium := medium_count; hard := total - easy_count - medium_count |}.

(** The three ratios added up from left to right. *)
Definition ratio_sum (r : per_level float) : float :=
  fadd (fadd (easy r) (medium r)) (hard r).

Definition ideal_ratios : per_level float :=
  {| easy := rnd (4 # 10); medium := rnd (4 # 10); hard := rnd (2 # 10) |}.

Definition levels : list DifficultyLevel := [EASY; MEDIUM; HARD].

(** [sum(xs)]: the accumulator starts at the integer 0 and the terms are added in order. *)
Definition fsum (xs : list float) : float :=
  fold_left (fun acc x => fadd acc x) xs 0%Q.

(** [max(0, x)] *)
Definition max0 (x : float) : float := if Qle_bool x 0 then 0%Q else x.

(** [ratios] is a dictionary: a level it lacks reads as 0. *)
Definition _calculate_balance_score (ratios : DifficultyLevel -> option float) : float :=
  let differences :=
    map (fun level =>
           fabs (fsub (match ratios level with Some r => r | None => 0%Q end)
                      (get ideal_ratios level)))
        levels in
  let avg_difference := fdiv (fsum differences) (float_of_int (len differences)) in
  max0 (fsub (float_of_int 1) (fmul avg_difference (float_of_int 2))).

(** The score as the specification words it: one minus twice the mean of the three
    absolute deviations from the ideal ratios, and never below zero. *)
Definition observed (ratios : DifficultyLevel -> option float) (level : DifficultyLevel)
    : float :=
  match ratios level with Some r => r | None => 0%Q end.

Definition deviation (ratios : DifficultyLevel -> option float) (level : DifficultyLevel)
    : float :=
  fabs (fsub (observed ratios level) (get ideal_ratios level)).

Definition spec_mean_deviation (ratios : DifficultyLevel -> option float) : float :=
  fdiv (fadd (fadd (deviation ratios EASY) (deviation ratios MEDIUM)) (deviation ratios HARD))
       (float_of_int 3).

Definition spec_balance_score (ratios : DifficultyLevel -> option float) : float :=
  max0 (fsub (float_of_int 1) (fmul (float_of_int 2) (spec_mean_deviation ratios))).

(** What [validate_difficulty_balance] finds on an element of its argument. *)
Inductive any_question :=
| NoDifficulty
| Difficulty (d : DifficultyLevel)
| ForeignDifficulty.

Record balance_report := {
  br_total_questions : Z;
  br_difficulty_counts : per_level Z;
  br_difficulty_ratios : per_level float;
  br_balance_score : float;
  br_is_balanced : bool
}.

Definition count_step (difficulty_counts : per_level Z) (question : any_question)
    : per_level Z :=
  match question with
  | NoDifficulty => set difficulty_counts MEDIUM (get difficulty_counts MEDIUM + 1)
  | Difficulty d => set difficulty_counts d (get difficulty_counts d + 1)
  | ForeignDifficulty => difficulty_counts
  end.

(** [a / b] on two integers: the exact quotient, rounded once. *)
Definition int_truediv (a b : Z) : float := rnd (inject_Z a / inject_Z b).

Definition validate_difficulty_balance (generated_questions : list any_question)
    : balance_report :=
  let difficulty_counts := {| easy := 0; medium := 0; hard := 0 |} in
  let total_questions := len generated_questions in
  let difficulty_counts := fold_left count_step generated_questions difficulty_counts in
  let ratio count :=
    if 0 <? total_questions then int_truediv count total_questions else 0%Q in
  let difficulty_ratios :=
    {| easy := ratio (easy difficulty_counts);
       medium := ratio (medium difficulty_counts);
       hard := ratio (hard difficulty_counts) |} in
  let balance_score := _calculate_balance_score (fun level => Some (get difficulty_ratios level)) in
  {| br_total_questions := total_questions;
     br_difficulty_counts := difficulty_counts;
     br_difficulty_ratios := difficulty_ratios;
     br_balance_score := balance_score;
     br_is_balanced := Qle_bool (rnd (7 # 10)) balance_score |}.

End Adjuster.

(** * api/routers/questions.py *)
Module Questions.
Import PyStr Float64 QAGen Adjuster.
Local Open Scope Z_scope.

(** The columns of a stored question that grading and statistics read. *)
Record Question := {
  q_id : Z;
  q_question_type : QuestionType;
  q_correct_answer : text;
  q_keywords : option (list text);
  q_usage_count : Z;
  q_correct_rate : option Z
}.

Record StudentResponse := {
  r_question_id : Z;
  r_student_id : text;
  r_response_text : text;
  r_is_correct : option bool;
  r_score : option float;
  r_response_time : option Z;
  r_submitted_at : Z
}.

(** [if question.keywords:] on the nullable list column *)
Definition keywords_truthy (q : Question) : bool :=
  match q_keywords q with
  | Some (_ :: _) => true
  | _ => false
  end.

Definition get_keywords_list (q : Question) : list text :=
  match q_keywords q with
  | Some l => l
  | None => []
  end.

(** [sum(1 for kw in keywords if kw in student_answer)] *)
Definition count_matches (keywords : list text) (student_answer : text) : Z :=
  len (filter (fun kw => contains kw student_answer) keywords).

(** [max(1, x)] *)
Definition max1 (x : float) : float := if Qle_bool x 1 then 1%Q else x.

Definition _evaluate_answer (question : Question) (response_text : text) : bool :=
  match q_question_type question with
  | MULTIPLE_CHOICE | SINGLE_CHOICE =>
      text_eqb (lower (strip response_text)) (lower (strip (q_correct_answer question)))
  | SHORT_ANSWER =>
      let correct_answer := lower (strip (q_correct_answer question)) in
      let student_answer := lower (strip response_text) in
      if keywords_truthy question then
        let keywords := map lower (get_keywords_list question) in
        let matches := count_matches keywords student_answer in
        Qle_bool (fmul (float_of_int (len keywords)) (rnd (5 # 10))) (inject_Z matches)
      else
        contains correct_answer student_answer || contains student_answer correct_answer
  | ESSAY =>
      if keywords_truthy question then
        let keywords := map lower (get_keywords_list question) in
        let student_answer := lower (strip response_text) in
        let matches := count_matches keywords student_answer in
        Qle_bool (max1 (fmul (float_of_int (len keywords)) (rnd (3 # 10)))) (inject_Z matches)
      else
        50 <=? len (strip response_text)
  end.

(** ** The policy as the specification words it *)

Definition normalized (s : text) : text := lower (strip s).

(** Keywords that occur in the response, letter case apart. *)
Definition spec_hits (keywords : list text) (response : text) : Z :=
  len (filter (fun kw => contains (lower kw) (normalized response)) keywords).

Definition spec_evaluate (question : Question) (response : text) : bool :=
  let keywords := match q_keywords question with Some l => l | None => [] end in
  let hits := spec_hits keywords response in
  let correct := normalized (q_correct_answer question) in
  match q_question_type question with
  | MULTIPLE_CHOICE | SINGLE_CHOICE => text_eqb (normalized response) correct
  | SHORT_ANSWER =>
      match keywords with
      | _ :: _ => Qle_bool (inject_Z (len keywords) * (5 # 10)) (inject_Z hits)
      | [] => contains correct (normalized response) || contains (normalized response) correct
      end
  | ESSAY =>
      match keywords with
      | _ :: _ => Qle_bool (Qmax 1 (inject_Z (len keywords) * (3 # 10))) (inject_Z hits)
      | [] => 50 <=? len (strip response)
      end
  end.

(** ** Sample questions *)

Definition sample_q (t : QuestionType) (answer : string) (kws : option (list string))
    : Question :=
  {| q_id := 1; q_question_type := t; q_correct_answer := text_of_string answer;
     q_keywords := option_map (map text_of_string) kws;
     q_usage_count := 0; q_correct_rate := None |}.

Definition sample_row (qid : Z) (verdict : option bool) : StudentResponse :=
  {| r_question_id := qid; r_student_id := text_of_string "s1";
     r_response_text := text_of_string "answer"; r_is_correct := verdict;
     r_score := None; r_response_time := None; r_submitted_at := 0 |}.

(** The score [submit_answer] stores next to the verdict. *)
Definition score_of (is_correct : bool) : float := if is_correct then 100%Q else 0%Q.

Definition is_true (b : option bool) : bool :=
  match b with Some true => true | _ => false end.

Definition is_known (b : option bool) : bool :=
  match b with Some _ => true | None => false end.

(** [rows] is what the session's query on the response table sees;
    the function filters it down to the question's rows of known correctness. *)
Definition _update_correct_rate (question : Question) (rows : list StudentResponse)
    : Question :=
  let responses :=
    filter (fun r => (r_question_id r =? q_id question) && is_known (r_is_correct r)) rows in
  match responses with
  | [] => question
  | _ :: _ =>
      let correct_count := len (filter (fun r => is_true (r_is_correct r)) responses) in
      let total_count := len responses in
      let correct_rate :=
        int_of_float (fmul (int_truediv correct_count total_count) (float_of_int 100)) in
      {| q_id := q_id question;
         q_question_type := q_question_type question;
         q_correct_answer := q_correct_answer question;
         q_keywords := q_keywords question;
         q_usage_count := q_usage_count question;
         q_correct_rate := Some correct_rate |}
  end.

(** [round(x)] on a non-negative rational: to the nearest integer, ties to even. *)
Definition py_round (x : Q) : Z := rne x.

End Questions.

(** * api/routers/analytics.py *)
Module Analytics.
Import PyStr Float64 QAGen Adjuster Questions.
Local Open Scope Z_scope.

Inductive trend := Stable | Improving | Declining.

Inductive trend_report :=
| InsufficientData
| Trends (performance_trend : trend) (recent_correct_rates : list float).

(** [sorted(l, key=submitted_at)]: stable, ascending. *)
Fixpoint insert_by_time (x : StudentResponse) (l : list StudentResponse)
    : list StudentResponse :=
  match l with
  | [] => [x]
  | y :: l' =>
      if r_submitted_at x <=? r_submitted_at y then x :: l
      else y :: insert_by_time x l'
  end.

Definition sorted_by_time (l : list StudentResponse) : list StudentResponse :=
  fold_right insert_by_time [] l.

(** [for i in range(0, len(recent_responses), 5)]: [steps] bounds the number of turns. *)
Fixpoint batch_loop (steps : nat) (recent_responses : list StudentResponse) (i : Z)
    (correct_rates : list float) : list float :=
  match steps with
  | O => correct_rates
  | S steps' =>
      if i <? len recent_responses then
        let batch := firstn 5 (skipn (Z.to_nat i) recent_responses) in
        let correct_rates :=
          if 3 <=? len batch then
            let correct_count := len (filter (fun r => is_true (r_is_correct r)) batch) in
            let rate := fmul (int_truediv correct_count (len batch)) (float_of_int 100) in
            correct_rates ++ [rate]
          else correct_rates in
        batch_loop steps' recent_responses (i + 5) correct_rates
      else correct_rates
  end.

(** The block under "Trend determination". *)
Definition trend_of_rates (correct_rates : list float) : trend :=
  if 2 <=? len correct_rates then
    let last := List.last correct_rates 0%Q in
    let first := hd 0%Q correct_rates in
    if negb (Qle_bool last (fadd first (float_of_int 10))) then Improving
    else if negb (Qle_bool (fsub first (float_of_int 10)) last) then Declining
    else Stable
  else Stable.

(** The report, but for its average response time, which no property below reads. *)
Definition _analyze_learning_trends (responses : list StudentResponse) : trend_report :=
  if len responses <? 5 then InsufficientData
  else
    let recent_responses := sorted_by_time (firstn 20 responses) in
    let correct_rates :=
      batch_loop (List.length recent_responses) recent_responses 0 [] in
    Trends (trend_of_rates correct_rates) correct_rates.

(** ** The trend as the specification words it *)

(** Consecutive groups of five; a shorter last group stays only with three members or more. *)
Fixpoint spec_groups (fuel : nat) (l : list StudentResponse) : list (list StudentResponse) :=
  match fuel with
  | O => []
  | S fuel' =>
      match l with
      | [] => []
      | _ :: _ =>
          let g := firstn 5 l in
          if 5 <=? len g then g :: spec_groups fuel' (skipn 5 l)
          else if 3 <=? len g then [g] else []
      end
  end.

Definition count_correct (g : list StudentResponse) : Z :=
  len (filter (fun r => is_true (r_is_correct r)) g).

(** Share of correct answers, as an exact percentage. *)
Definition exact_rate (c n : Z) : Q := (100 * inject_Z c / inject_Z n)%Q.

Definition spec_rate (g : list StudentResponse) : Q := exact_rate (count_correct g) (len g).

Definition Qlt_bool (a b : Q) : bool := negb (Qle_bool b a).

Definition spec_trend (rates : list Q) : trend :=
  match rates with
  | first :: _ :: _ =>
      let last := List.last rates 0%Q in
      if Qlt_bool (first + 10) last then Improving
      else if Qlt_bool last (first - 10) then Declining
      else Stable
  | _ => Stable
  end.

(** The same share as the loop computes it, in double arithmetic. *)
Definition double_rate (c n : Z) : float := fmul (int_truediv c n) (float_of_int 100).

Definition float_rate (g : list StudentResponse) : float :=
  double_rate (count_correct g) (len g).

(** Do the double and the exact percentages of two groups compare alike, for both tests? *)
Definition agree (c1 n1 c2 n2 : Z) : bool :=
  Bool.eqb (negb (Qle_bool (double_rate c2 n2) (fadd (double_rate c1 n1) (float_of_int 10))))
           (Qlt_bool (exact_rate c1 n1 + 10) (exact_rate c2 n2))
  && Bool.eqb (negb (Qle_bool (fsub (double_rate c1 n1) (float_of_int 10)) (double_rate c2 n2)))
              (Qlt_bool (exact_rate c2 n2) (exact_rate c1 n1 - 10)).

(** Every count of correct answers in a group of three, four or five. *)
Definition group_shapes : list (Z * Z) :=
  [ (0, 3); (1, 3); (2, 3); (3, 3);
    (0, 4); (1, 4); (2, 4); (3, 4); (4, 4);
    (0, 5); (1, 5); (2, 5); (3, 5); (4, 5); (5, 5) ].

Definition all_agree : bool :=
  forallb (fun p => forallb (fun q => agree (fst p) (snd p) (fst q) (snd q)) group_shapes)
          group_shapes.

Definition older_first (a b : StudentResponse) : Prop :=
  r_submitted_at a <= r_submitted_at b.

Definition newer_first (a b : StudentResponse) : Prop :=
  r_submitted_at b <= r_submitted_at a.

(** ** Sample responses *)

Definition answered (time : Z) (verdict : bool) : StudentResponse :=
  {| r_question_id := 1; r_student_id := text_of_string "s1";
     r_response_text := text_of_string "answer"; r_is_correct := Some verdict;
     r_score := None; r_response_time := None; r_submitted_at := time |}.

(** Twenty responses, newest first as the query returns them: the five oldest
    (times 1 to 5) hold two correct answers, the five newest (16 to 20) four. *)
Definition rising_responses : list StudentResponse :=
  [ answered 20 true; answered 19 true; answered 18 true; answered 17 true; answered 16 false;
    answered 15 true; answered 14 true; answered 13 true; answered 12 false; answered 11 false;
    answered 10 true; answered 9 true; answered 8 true; answered 7 false; answered 6 false;
    answered 5 true; answered 4 true; answered 3 false; answered 2 false; answered 1 false ].

(** The same responses with the verdicts of old and new exchanged. *)
Definition falling_responses : list StudentResponse :=
  [ answered 20 true; answered 19 true; answered 18 false; answered 17 false; answered 16 false;
    answered 15 true; answered 14 true; answered 13 true; answered 12 false; answered 11 false;
    answered 10 true; answered 9 true; answered 8 true; answered 7 false; answered 6 false;
    answered 5 true; answered 4 true; answered 3 true; answered 2 true; answered 1 false ].

End Analytics.

(** * services/qa_generator.py: one set per slide *)
Module QAGenBatch.
Import PyStr Float64 Py QAGen.
Local Open Scope Z_scope.

Section Generation.

Variable json_loads : text -> result json.
Variable World : Type.
Variable Prompt : Type.
Variable llm_invoke : World -> Prompt -> result text * World.
Variable _create_question_prompt : SlideContent -> DifficultyLevel -> result Prompt.
Variable build_question : list (text * json) -> result GeneratedQuestion.

(** [for slide_content in slides_content] with the list [qa_sets] being appended to. *)
Fixpoint multiple_slides_loop (slides_content : list SlideContent) (questions_per_slide : Z)
    (w : World) (qa_sets : list QASet) : result (list QASet) * World :=
  match slides_content with
  | [] => (Ok qa_sets, w)
  | slide_content :: rest =>
      if _has_sufficient_content slide_content then
        match generate_questions_for_slide json_loads World Prompt llm_invoke
                _create_question_prompt build_question w slide_content
                questions_per_slide None with
        | (Raise e, w') => (Raise e, w')
        | (Ok qa_set, w') =>
            multiple_slides_loop rest questions_per_slide w' (qa_sets ++ [qa_set])
        end
      else multiple_slides_loop rest questions_per_slide w qa_sets
  end.

Definition generate_questions_for_multiple_slides (w : World)
    (slides_content : list SlideContent) (questions_per_slide : Z)
    : result (list QASet) * World :=
  multiple_slides_loop slides_content questions_per_slide w [].

(** The batch told slide by slide: an eligible slide gets one easy and then one
    medium attempt, and its set keeps the attempts that gave a question. *)
Fixpoint spec_batch (slides_content : list SlideContent) (w : World) : list QASet * World :=
  match slides_content with
  | [] => ([], w)
  | slide_content :: rest =>
      if _has_sufficient_content slide_content then
        let '(outcomes, w') :=
          run_attempts json_loads World Prompt llm_invoke _create_question_prompt
            build_question [EASY; MEDIUM] w slide_content in
        let '(sets, w'') := spec_batch rest w' in
        ({| slide_number := sc_slide_number slide_content;
            slide_title := sc_title slide_content;
            questions := successes outcomes |} :: sets, w'')
      else spec_batch rest w
  end.

End Generation.

(** Sum of a list of integers. *)
Definition total (l : list Z) : Z := fold_right Z.add 0 l.

(** Number of levels whose pool is not empty. *)
Definition stocked (c : per_level Z) : Z :=
  (if 0 <? easy c then 1 else 0) + (if 0 <? medium c then 1 else 0)
  + (if 0 <? hard c then 1 else 0).

(** The pool a plan leaves behind. *)
Definition final_pool (c : per_level Z) (plan : list allocation) : per_level Z :=
  List.last (map al_after plan) c.

End QAGenBatch.

(** * services/qa_generator.py: terms of the extraction properties *)
Module Replies.
Import PyStr QAGen.
Local Open Scope Z_scope.

(** [c in s] for one character. *)
Definition has_char (c : ascii) (s : text) : bool := existsb (Ascii.eqb c) s.

(** Does the brace count, [opened] before [s], come to zero at the last character
    of [s] and not before? *)
Fixpoint closes_at_end (s : text) (opened : Z) : bool :=
  match s with
  | [] => false
  | c :: s' =>
      let opened' :=
        opened + (if Ascii.eqb c "{" then 1 else if Ascii.eqb c "}" then -1 else 0) in
      if opened' =? 0 then match s' with [] => true | _ :: _ => false end
      else closes_at_end s' opened'
  end.

(** A text that opens with a brace which its last character closes. *)
Definition balanced_object (r : text) : bool :=
  match r with
  | c :: p => Ascii.eqb c "{" && closes_at_end p 1
  | [] => false
  end.

End Replies.

(** * services/difficulty_adjuster.py: suggestions and counts *)
Module AdjusterAdvice.
Import PyStr Float64 Py QAGen Adjuster.
Local Open Scope Z_scope.

(** [level.value] *)
Definition value (level : DifficultyLevel) : text :=
  match level with
  | EASY => text_of_string "easy"
  | MEDIUM => text_of_string "medium"
  | HARD => text_of_string "hard"
  end.

(** [str(n)] on an integer: its decimal digits, after a minus sign when negative. *)
Definition str_of_int (n : Z) : text := text_of_string (NilZero.string_of_int (Z.to_int n)).

(** [d.get(level, 0)] *)
Definition get0 (d : DifficultyLevel -> option Z) (level : DifficultyLevel) : Z :=
  match d level with Some n => n | None => 0 end.

(** One turn of the loop over the levels. *)
Definition suggest_step (current_distribution target_distribution : DifficultyLevel -> option Z)
    (suggestions : list text) (level : DifficultyLevel) : list text :=
  let current := get0 current_distribution level in
  let target := get0 target_distribution level in
  if current <? target then
    suggestions ++ [text_of_string "Add " ++ str_of_int (target - current)
                    ++ text_of_string " more '" ++ value level
                    ++ text_of_string "' questions"]
  else if target <? current then
    suggestions ++ [text_of_string "Reduce " ++ str_of_int (current - target)
                    ++ text_of_string " '" ++ value level
                    ++ text_of_string "' questions"]
  else suggestions.

Definition suggest_difficulty_adjustments
    (current_distribution target_distribution : DifficultyLevel -> option Z) : list text :=
  fold_left (suggest_step current_distribution target_distribution) levels [].

(** ** What a suggestion says *)

Inductive move :=
| Add (level : DifficultyLevel) (n : Z)
| Reduce (level : DifficultyLevel) (n : Z).

Definition render (m : move) : text :=
  match m with
  | Add level n =>
      text_of_string "Add " ++ str_of_int n ++ text_of_string " more '" ++ value level
      ++ text_of_string "' questions"
  | Reduce level n =>
      text_of_string "Reduce " ++ str_of_int n ++ text_of_string " '" ++ value level
      ++ text_of_string "' questions"
  end.

Definition amount (m : move) : Z :=
  match m with Add _ n | Reduce _ n => n end.

Definition level_of (m : move) : DifficultyLevel :=
  match m with Add level _ | Reduce level _ => level end.

(** The moves that lead from [current] to [target], level by level. *)
Definition spec_moves (current target : DifficultyLevel -> Z) : list move :=
  flat_map (fun level =>
              if current level <? target level then [Add level (target level - current level)]
              else if target level <? current level
                   then [Reduce level (current level - target level)]
                   else [])
           levels.

(** A distribution after a suggestion has been followed. *)
Definition follow (d : DifficultyLevel -> Z) (m : move) : DifficultyLevel -> Z :=
  fun level =>
    if level_eqb level (level_of m) then
      match m with
      | Add _ n => d level + n
      | Reduce _ n => d level - n
      end
    else d level.

(** The number a suggestion prints, read back. *)
Definition int_of_str (s : text) : option Z :=
  option_map Z.of_int (NilZero.int_of_string (string_of_list_ascii s)).

(** ** Counting a question set *)

Definition counts_as (level : DifficultyLevel) (q : any_question) : bool :=
  match q, level with
  | Difficulty d, _ => level_eqb d level
  | NoDifficulty, MEDIUM => true
  | _, _ => false
  end.

Definition is_foreign (q : any_question) : bool :=
  match q with ForeignDifficulty => true | _ => false end.

(** The default split of a total, in integers. *)
Definition spec_default_split (total_questions : Z) : per_level Z :=
  {| easy := 2 * total_questions / 5; medium := 2 * total_questions / 5;
     hard := total_questions - 2 * (2 * total_questions / 5) |}.

End AdjusterAdvice.

(** * api/routers/questions.py: terms of the grading and rate properties *)
Module Grading.
Import PyStr Float64 Py QAGen Adjuster Questions.
Local Open Scope Z_scope.

(** A text of white space only, the empty text included. *)
Definition blank (s : text) : bool := forallb is_space s.

(** The rows the query of [_update_correct_rate] keeps. *)
Definition relevant (question : Question) (r : StudentResponse) : bool :=
  (r_question_id r =? q_id question) && is_known (r_is_correct r).

(** The percentage stored for [c] correct rows of [t]. *)
Definition tally_rate (c t : Z) : Z :=
  int_of_float (fmul (int_truediv c t) (float_of_int 100)).

(** Keywords that occur in the normalized response, letter case apart. *)
Definition hits (question : Question) (response : text) : Z :=
  len (filter (fun kw => contains (lower kw) (normalized response))
         (get_keywords_list question)).

End Grading.

(** * api/routers/questions.py: the submission endpoint *)
Module Submission.
Import PyStr Float64 Py QAGen Adjuster Questions.
Local Open Scope Z_scope.

(** The two tables the endpoint reads and writes, with the columns that grading
    and the statistics read. *)
Record Db := { db_questions : list Question; db_responses : list StudentResponse }.

(** The outcome of a request: the status of the [HTTPException] raised, or the
    fields [is_correct] and [score] of the reply. *)
Inductive outcome :=
| Http (status : Z)
| Recorded (is_correct : bool) (score : float).

(** [db.query(Question).filter(Question.id == question_id).first()] *)
Definition first_question (db : Db) (question_id : Z) : option Question :=
  List.find (fun q => q_id q =? question_id) (db_questions db).

(** The question's row as the commit writes it back. *)
Definition store_question (question : Question) (rows : list Question) : list Question :=
  map (fun q => if q_id q =? q_id question then question else q) rows.

(** [commit_succeeds] tells whether [db.commit()] returns or raises, and [now] is
    the server's clock, the default of [submitted_at]. The session is made with
    [autoflush=False]: the response added to it is written by the commit, after
    the query of [_update_correct_rate] has run. *)
Definition submit_answer (db : Db) (commit_succeeds : bool) (now : Z) (question_id : Z)
    (student_id response_text : text) (response_time : option Z) : outcome * Db :=
  match first_question db question_id with
  | None => (Http 404, db)
  | Some question =>
      let is_correct := _evaluate_answer question response_text in
      let score := if is_correct then 100%Q else 0%Q in
      let student_response :=
        {| r_question_id := question_id; r_student_id := student_id;
           r_response_text := response_text; r_is_correct := Some is_correct;
           r_score := Some score; r_response_time := response_time;
           r_submitted_at := now |} in
      let question :=
        {| q_id := q_id question;
           q_question_type := q_question_type question;
           q_correct_answer := q_correct_answer question;
           q_keywords := q_keywords question;
           q_usage_count := q_usage_count question + 1;
           q_correct_rate := q_correct_rate question |} in
      let question := _update_correct_rate question (db_responses db) in
      if commit_succeeds then
        (Recorded is_correct score,
         {| db_questions := store_question question (db_questions db);
            db_responses := db_responses db ++ [student_response] |})
      else (Http 500, db)
  end.

(** A table with the sample question alone and no response. *)
Definition fresh_db : Db :=
  {| db_questions := [sample_q SINGLE_CHOICE "paris" None]; db_responses := [] |}.

End Submission.

(** * models/student_response.py *)
Module Responses.
Import PyStr Float64 Py QAGen Adjuster.
Local Open Scope Z_scope.

(** The columns of the related question that the metrics read. *)
Record QuestionRow := { estimated_time : option Z }.

(** The columns of a response that the metrics read, and its [question] relationship. *)
Record ResponseRow := {
  is_correct : option bool;
  response_time : option Z;
  confidence_level : option Z;
  question : option QuestionRow
}.

Record metrics := {
  accuracy : float;
  response_efficiency : option float;
  confidence_accuracy_ratio : option float
}.

Definition ZeroDivisionError : exn := OtherException "ZeroDivisionError".

(** [a / b] on two floats *)
Definition float_truediv (a b : float) : result float :=
  if Qeq_bool b 0 then Raise ZeroDivisionError else Ok (fdiv a b).

(** [a / b] on two integers *)
Definition int_div (a b : Z) : result float :=
  if b =? 0 then Raise ZeroDivisionError else Ok (int_truediv a b).

(** [if x:] on a nullable integer column *)
Definition int_truthy (x : option Z) : bool :=
  match x with
  | Some n => negb (n =? 0)
  | None => false
  end.

(** [if x:] on a nullable boolean column *)
Definition bool_truthy (x : option bool) : bool :=
  match x with Some true => true | _ => false end.

Definition calculate_performance_metrics (self : ResponseRow) : result metrics :=
  let accuracy0 := if bool_truthy (is_correct self) then 1%Q else 0%Q in
  let efficiency : result (option float) :=
    match response_time self with
    | Some rt =>
        if negb (rt =? 0) then
          match question self with
          | Some q =>
              match estimated_time q with
              | Some et =>
                  if negb (et =? 0) then
                    match int_div et rt with
                    | Ok x => Ok (Some x)
                    | Raise e => Raise e
                    end
                  else Ok None
              | None => Ok None
              end
          | None => Ok None
          end
        else Ok None
    | None => Ok None
    end in
  match efficiency with
  | Raise e => Raise e
  | Ok response_efficiency0 =>
      let ratio : result (option float) :=
        match confidence_level self with
        | Some cl =>
            if negb (cl =? 0) then
              match is_correct self with
              | Some _ =>
                  let accuracy_score := if bool_truthy (is_correct self) then 1%Q else 0%Q in
                  match float_truediv (float_of_int cl) 5%Q with
                  | Raise e => Raise e
                  | Ok denominator =>
                      match float_truediv accuracy_score denominator with
                      | Raise e => Raise e
                      | Ok x => Ok (Some x)
                      end
                  end
              | None => Ok None
              end
            else Ok None
        | None => Ok None
        end in
      match ratio with
      | Raise e => Raise e
      | Ok confidence_accuracy_ratio0 =>
          Ok {| accuracy := accuracy0; response_efficiency := response_efficiency0;
                confidence_accuracy_ratio := confidence_accuracy_ratio0 |}
      end
  end.

(** An integer column holds a signed 64-bit number or nothing. *)
Definition int_column (x : option Z) : bool :=
  match x with
  | Some n => (- 2 ^ 63 <=? n) && (n <? 2 ^ 63)
  | None => true
  end.

Definition columns_in_range (self : ResponseRow) : bool :=
  int_column (response_time self) && int_column (confidence_level self)
  && match question self with
     | Some q => int_column (estimated_time q)
     | None => true
     end.

(** A correct response in 30 seconds, of 60 estimated, given with confidence 4. *)
Definition sample_response : ResponseRow :=
  {| is_correct := Some true; response_time := Some 30; confidence_level := Some 4;
     question := Some {| estimated_time := Some 60 |} |}.

(** ** The metrics in closed form *)

(** Estimated over actual time, when both are given and not zero. *)
Definition spec_efficiency (self : ResponseRow) : option float :=
  match response_time self, question self with
  | Some rt, Some q =>
      match estimated_time q with
      | Some et => if (rt =? 0) || (et =? 0) then None else Some (int_truediv et rt)
      | None => None
      end
  | _, _ => None
  end.

(** Accuracy over the confidence as a fraction of 5, when the confidence is given
    and not zero and the correctness is known. *)
Definition spec_ratio (self : ResponseRow) : option float :=
  match confidence_level self, is_correct self with
  | Some cl, Some v =>
      if cl =? 0 then None
      else Some (if v then fdiv 1%Q (fdiv (float_of_int cl) 5%Q) else 0%Q)
  | _, _ => None
  end.

End Responses.
Module Float64Facts.
Import Float64.
Local Open Scope Q_scope.

Lemma pow2_pos e : 0 < pow2 e.
Proof. unfold pow2. apply Qpower_0_lt. reflexivity. Qed.

Lemma pow2_add a b : pow2 (a + b) == pow2 a * pow2 b.
Proof. unfold pow2. apply Qpower_plus. discriminate. Qed.

Lemma pow2_le a b : (a <= b)%Z -> pow2 a <= pow2 b.
Proof. intros H. unfold pow2. apply Qpower_le_compat_l; [exact H | discriminate]. Qed.

Lemma pow2_lt a b : (a < b)%Z -> pow2 a < pow2 b.
Proof. intros H. unfold pow2. apply Qpower_lt_compat_l; [exact H | reflexivity]. Qed.

Lemma pow2_lt_inv a b : pow2 a < pow2 b -> (a < b)%Z.
Proof. intros H. unfold pow2 in H. apply Qpower_lt_compat_l_inv in H; [exact H | reflexivity]. Qed.

Lemma pow2_Z e : (0 <= e)%Z -> pow2 e == inject_Z (2 ^ e).
Proof. intros H. unfold pow2. now rewrite Zpower_Qpower. Qed.

Lemma pow2_succ a : pow2 (a + 1) == 2 * pow2 a.
Proof. rewrite pow2_add. change (pow2 1) with 2. ring. Qed.

Lemma pow2_pred a : pow2 (a - 1) == pow2 a / 2.
Proof.
  assert (H : pow2 a == pow2 ((a - 1) + 1)) by (now replace (a - 1 + 1)%Z with a by ring).
  rewrite H, pow2_succ. field.
Qed.

Lemma ilog2_spec x : 0 < x -> pow2 (ilog2 x) <= x /\ x < pow2 (ilog2 x + 1).
Proof.
  intros Hx. destruct x as [n d].
  assert (Hn : (0 < n)%Z) by (unfold Qlt in Hx; simpl in Hx; lia).
  unfold ilog2. cbn [Qnum Qden].
  set (a := Z.log2 n). set (b := Z.log2 (Zpos d)).
  destruct (Z.log2_spec n Hn) as [Ha1 Ha2]. fold a in Ha1, Ha2.
  destruct (Z.log2_spec (Zpos d) eq_refl) as [Hb1 Hb2]. fold b in Hb1, Hb2.
  assert (Ha0 : (0 <= a)%Z) by apply Z.log2_nonneg.
  assert (Hb0 : (0 <= b)%Z) by apply Z.log2_nonneg.
  assert (Hd : 0 < inject_Z (Zpos d)) by reflexivity.
  assert (Hx' : n # d == inject_Z n / inject_Z (Zpos d)) by apply Qmake_Qdiv.
  assert (Pa1 : pow2 a <= inject_Z n) by (rewrite pow2_Z by lia; now rewrite <- Zle_Qle).
  assert (Pa2 : inject_Z n < pow2 (a + 1)) by (rewrite pow2_Z by lia; now rewrite <- Zlt_Qlt).
  assert (Pb1 : pow2 b <= inject_Z (Zpos d)) by (rewrite pow2_Z by lia; now rewrite <- Zle_Qle).
  assert (Pb2 : inject_Z (Zpos d) < pow2 (b + 1)) by (rewrite pow2_Z by lia; now rewrite <- Zlt_Qlt).
  assert (Up : n # d < pow2 (a - b + 1)).
  { rewrite Hx'. apply Qlt_shift_div_r; [exact Hd|].
    apply Qlt_le_trans with (pow2 (a + 1)); [exact Pa2|].
    replace (a + 1)%Z with ((a - b + 1) + b)%Z by ring. rewrite pow2_add.
    apply Qmult_le_l; [apply pow2_pos | exact Pb1]. }
  assert (Lo : pow2 (a - b - 1) < n # d).
  { rewrite Hx'. apply Qlt_shift_div_l; [exact Hd|].
    apply Qlt_le_trans with (pow2 a); [|exact Pa1].
    replace a with ((a - b - 1) + (b + 1))%Z at 2 by ring. rewrite pow2_add.
    apply Qmult_lt_l; [apply pow2_pos | exact Pb2]. }
  destruct (Qle_bool (pow2 (a - b)) (n # d)) eqn:E.
  - apply Qle_bool_iff in E. split; assumption.
  - assert (E' : n # d < pow2 (a - b)).
    { apply Qnot_le_lt. intros C. apply Qle_bool_iff in C. congruence. }
    split.
    + apply Qlt_le_weak. exact Lo.
    + now replace (a - b - 1 + 1)%Z with (a - b)%Z by ring.
Qed.

Lemma ilog2_unique x e : pow2 e <= x -> x < pow2 (e + 1) -> ilog2 x = e.
Proof.
  intros H1 H2.
  assert (Hx : 0 < x) by (eapply Qlt_le_trans; [apply (pow2_pos e) | exact H1]).
  destruct (ilog2_spec x Hx) as [L1 L2].
  assert (A : (ilog2 x < e + 1)%Z) by (apply pow2_lt_inv; eapply Qle_lt_trans; eassumption).
  assert (B : (e < ilog2 x + 1)%Z) by (apply pow2_lt_inv; eapply Qle_lt_trans; eassumption).
  lia.
Qed.

Lemma ilog2_comp x y : 0 < x -> x == y -> ilog2 x = ilog2 y.
Proof.
  intros Hx E. symmetry. destruct (ilog2_spec x Hx) as [L1 L2].
  apply ilog2_unique; rewrite <- E; assumption.
Qed.

Lemma rne_comp x y : x == y -> rne x = rne y.
Proof.
  intros E. unfold rne. rewrite (Qfloor_comp _ _ E).
  assert (E' : x - inject_Z (Qfloor y) == y - inject_Z (Qfloor y)) by (rewrite E; reflexivity).
  now rewrite (Qcompare_comp _ _ E' _ _ (Qeq_refl (1 # 2))).
Qed.

Lemma rne_err y : - (1 # 2) <= inject_Z (rne y) - y <= 1 # 2.
Proof.
  unfold rne. pose proof (Qfloor_le y) as F1. pose proof (Qlt_floor y) as F2.
  rewrite inject_Z_plus in F2. change (inject_Z 1) with 1 in F2.
  destruct (Qcompare_spec (y - inject_Z (Qfloor y)) (1 # 2)) as [E|E|E].
  - destruct (Z.even (Qfloor y)); [|rewrite inject_Z_plus; change (inject_Z 1) with 1]; lra.
  - lra.
  - rewrite inject_Z_plus; change (inject_Z 1) with 1. lra.
Qed.

Lemma rne_Z k : rne (inject_Z k) = k.
Proof.
  unfold rne. rewrite Qfloor_Z.
  assert (E : inject_Z k - inject_Z k == 0) by ring.
  now rewrite (Qcompare_comp _ _ E _ _ (Qeq_refl (1 # 2))).
Qed.

Lemma rne_le_int y k : y <= inject_Z k -> (rne y <= k)%Z.
Proof.
  intros H. unfold rne.
  pose proof (Qfloor_le y) as F1. pose proof (Qlt_floor y) as F2.
  assert (Fk : (Qfloor y <= k)%Z) by (rewrite <- (Qfloor_Z k); now apply Qfloor_resp_le).
  destruct (Z.eq_dec (Qfloor y) k) as [Ek|Nk].
  - assert (E : y - inject_Z (Qfloor y) == 0) by (rewrite Ek in *; lra).
    rewrite (Qcompare_comp _ _ E _ _ (Qeq_refl (1 # 2))). simpl. lia.
  - destruct (Qcompare _ _); [destruct (Z.even _)| |]; lia.
Qed.

Lemma rne_ge_int y k : inject_Z k <= y -> (k <= rne y)%Z.
Proof.
  intros H. unfold rne.
  assert (Fk : (k <= Qfloor y)%Z) by (rewrite <- (Qfloor_Z k); now apply Qfloor_resp_le).
  destruct (Qcompare _ _); [destruct (Z.even _)| |]; lia.
Qed.


Lemma pow2_52 : pow2 52 == 4503599627370496.
Proof. reflexivity. Qed.

Lemma div_pow2 x e : x / pow2 e == x * pow2 (- e).
Proof.
  assert (H : pow2 e * pow2 (- e) == 1).
  { rewrite <- pow2_add. now replace (e + - e)%Z with 0%Z by ring. }
  pose proof (pow2_pos e) as P.
  setoid_replace (pow2 (- e)) with (/ pow2 e); [reflexivity|].
  apply (Qmult_inj_l _ _ (pow2 e)); [lra|]. rewrite H. field. lra.
Qed.

Lemma scaled_bounds x : 0 < x ->
  pow2 52 <= x / pow2 (ilog2 x - 52) /\ x / pow2 (ilog2 x - 52) < pow2 53.
Proof.
  intros Hx. destruct (ilog2_spec x Hx) as [L1 L2].
  pose proof (pow2_pos (ilog2 x - 52)) as P.
  split.
  - apply Qle_shift_div_l; [exact P|]. rewrite <- pow2_add.
    now replace (52 + (ilog2 x - 52))%Z with (ilog2 x) by ring.
  - apply Qlt_shift_div_r; [exact P|]. rewrite <- pow2_add.
    now replace (53 + (ilog2 x - 52))%Z with (ilog2 x + 1)%Z by ring.
Qed.

Lemma round_pos_comp x y : 0 < x -> x == y -> round_pos x == round_pos y.
Proof.
  intros Hx E. unfold round_pos. rewrite <- (ilog2_comp x y Hx E).
  set (p := pow2 (ilog2 x - 52)).
  assert (E' : x / p == y / p) by (clearbody p; now rewrite E).
  rewrite (rne_comp _ _ E'). reflexivity.
Qed.

Lemma round_pos_err x : 0 < x ->
  x * (1 - u53) <= round_pos x /\ round_pos x <= x * (1 + u53).
Proof.
  intros Hx. destruct (scaled_bounds x Hx) as [S1 S2].
  unfold round_pos. set (e := (ilog2 x - 52)%Z) in *.
  pose proof (pow2_pos e) as P. pose proof (rne_err (x / pow2 e)) as [R1 R2].
  set (m := inject_Z (rne (x / pow2 e))) in *.
  set (y := x / pow2 e) in *.
  assert (Ey : x == y * pow2 e) by (unfold y; field; lra).
  rewrite pow2_52 in S1. unfold u53.
  set (p := pow2 e) in *. clearbody p m y. rewrite Ey. clear Ey S2 Hx.
  split.
  - setoid_replace (y * p * (1 - (1 # 9007199254740992)))
      with ((y - y * (1 # 9007199254740992)) * p) by ring.
    apply Qmult_le_compat_r; lra.
  - setoid_replace (y * p * (1 + (1 # 9007199254740992)))
      with ((y + y * (1 # 9007199254740992)) * p) by ring.
    apply Qmult_le_compat_r; lra.
Qed.

Lemma round_pos_pos x : 0 < x -> 0 < round_pos x.
Proof.
  intros Hx. destruct (round_pos_err x Hx) as [L _].
  eapply Qlt_le_trans; [|exact L]. unfold u53.
  apply Qmult_lt_0_compat; [exact Hx | reflexivity].
Qed.

Lemma round_pos_le_int x k : 0 < x -> x <= inject_Z k -> (k < 2 ^ 53)%Z ->
  round_pos x <= inject_Z k.
Proof.
  intros Hx Hk Hb. destruct (ilog2_spec x Hx) as [L1 L2].
  assert (He : (ilog2 x - 52 <= 0)%Z).
  { assert (A : pow2 (ilog2 x) < pow2 53).
    { eapply Qle_lt_trans; [exact L1|]. eapply Qle_lt_trans; [exact Hk|].
      rewrite pow2_Z by lia. now rewrite <- Zlt_Qlt. }
    apply pow2_lt_inv in A. lia. }
  unfold round_pos. set (e := (ilog2 x - 52)%Z) in *.
  pose proof (pow2_pos e) as P.
  assert (Hy : x / pow2 e <= inject_Z (k * 2 ^ (- e))).
  { rewrite inject_Z_mult, <- pow2_Z by lia. rewrite div_pow2.
    apply Qmult_le_compat_r; [exact Hk | apply Qlt_le_weak, pow2_pos]. }
  apply rne_le_int in Hy. rewrite Zle_Qle in Hy.
  apply Qle_trans with (inject_Z (k * 2 ^ (- e)) * pow2 e).
  - apply Qmult_le_compat_r; [exact Hy | lra].
  - rewrite inject_Z_mult, <- pow2_Z by lia.
    rewrite <- Qmult_assoc, <- pow2_add. replace (- e + e)%Z with 0%Z by ring.
    change (pow2 0) with 1. lra.
Qed.

Lemma round_pos_ge_int x k : 0 < x -> inject_Z k <= x -> (k < 2 ^ 53)%Z ->
  inject_Z k <= round_pos x.
Proof.
  intros Hx Hk Hb. destruct (ilog2_spec x Hx) as [L1 L2].
  destruct (scaled_bounds x Hx) as [S1 S2].
  unfold round_pos. set (e := (ilog2 x - 52)%Z) in *.
  pose proof (pow2_pos e) as P.
  destruct (Z.le_gt_cases e 0) as [He|He].
  - assert (Hy : inject_Z (k * 2 ^ (- e)) <= x / pow2 e).
    { rewrite inject_Z_mult, <- pow2_Z by lia. rewrite div_pow2.
      apply Qmult_le_compat_r; [exact Hk | apply Qlt_le_weak, pow2_pos]. }
    apply rne_ge_int in Hy. rewrite Zle_Qle in Hy.
    apply Qle_trans with (inject_Z (k * 2 ^ (- e)) * pow2 e).
    + rewrite inject_Z_mult, <- pow2_Z by lia.
      rewrite <- Qmult_assoc, <- pow2_add. replace (- e + e)%Z with 0%Z by ring.
      change (pow2 0) with 1. lra.
    + apply Qmult_le_compat_r; [exact Hy | lra].
  - assert (M : pow2 52 <= inject_Z (rne (x / pow2 e))).
    { rewrite pow2_Z by lia. rewrite <- Zle_Qle. apply rne_ge_int.
      rewrite <- pow2_Z by lia. exact S1. }
    apply Qle_trans with (pow2 52 * pow2 e).
    + rewrite <- pow2_add. apply Qle_trans with (pow2 53).
      * rewrite pow2_Z by lia. rewrite <- Zle_Qle. lia.
      * apply pow2_le. lia.
    + apply Qmult_le_compat_r; [exact M | lra].
Qed.

Lemma rnd_comp x y : x == y -> rnd x = rnd y.
Proof.
  intros E. unfold rnd. rewrite (Qcompare_comp _ _ E _ _ (Qeq_refl 0)).
  destruct (Qcompare_spec y 0) as [H|H|H].
  - reflexivity.
  - apply Qred_complete. apply Qopp_comp. apply round_pos_comp; [rewrite E|]; lra.
  - apply Qred_complete. apply round_pos_comp; [rewrite E|]; lra.
Qed.

Lemma rnd_gt0 x : 0 < x -> rnd x == round_pos x.
Proof.
  intros H. unfold rnd. destruct (Qcompare_spec x 0) as [E|E|E]; try lra.
  apply Qred_correct.
Qed.

Lemma rnd_lt0 x : x < 0 -> rnd x == - round_pos (- x).
Proof.
  intros H. unfold rnd. destruct (Qcompare_spec x 0) as [E|E|E]; try lra.
  apply Qred_correct.
Qed.

Lemma rnd_eq0 x : x == 0 -> rnd x = 0.
Proof. intros H. unfold rnd. destruct (Qcompare_spec x 0) as [E|E|E]; try lra. reflexivity. Qed.

Lemma rnd_opp x : rnd (- x) == - rnd x.
Proof.
  destruct (Qcompare_spec x 0) as [E|E|E].
  - rewrite (rnd_eq0 x E), (rnd_eq0 (- x)) by lra. reflexivity.
  - rewrite (rnd_lt0 x E), (rnd_gt0 (- x)) by lra. ring.
  - rewrite (rnd_gt0 x E), (rnd_lt0 (- x)) by lra.
    apply Qopp_comp. apply round_pos_comp; [lra | ring].
Qed.

Lemma rnd_err x : 0 <= x -> x * (1 - u53) <= rnd x /\ rnd x <= x * (1 + u53).
Proof.
  intros H. destruct (Qcompare_spec x 0) as [E|E|E]; try lra.
  - rewrite (rnd_eq0 x E), E. split; lra.
  - rewrite (rnd_gt0 x E). now apply round_pos_err.
Qed.

Lemma rnd_nonneg x : 0 <= x -> 0 <= rnd x.
Proof.
  intros H. destruct (rnd_err x H) as [L _]. eapply Qle_trans; [|exact L].
  apply Qmult_le_0_compat; [exact H | unfold u53; lra].
Qed.

Lemma rnd_pos x : 0 < x -> 0 < rnd x.
Proof. intros H. rewrite (rnd_gt0 x H). now apply round_pos_pos. Qed.

Lemma rnd_nonpos x : x <= 0 -> rnd x <= 0.
Proof.
  intros H. assert (N : 0 <= rnd (- x)) by (apply rnd_nonneg; lra).
  rewrite rnd_opp in N. lra.
Qed.

Lemma rnd_le_int x k : x <= inject_Z k -> (- 2 ^ 53 < k < 2 ^ 53)%Z -> rnd x <= inject_Z k.
Proof.
  intros H B. destruct (Qcompare_spec x 0) as [E|E|E].
  - rewrite (rnd_eq0 x E). lra.
  - destruct (Z.le_gt_cases 0 k) as [Hk|Hk].
    + pose proof (rnd_nonpos x) as N. rewrite Zle_Qle in Hk.
      change (inject_Z 0) with 0 in Hk. lra.
    + rewrite (rnd_lt0 x E).
      assert (G : inject_Z (- k) <= round_pos (- x)).
      { apply round_pos_ge_int; [lra | rewrite inject_Z_opp; lra | lia]. }
      rewrite inject_Z_opp in G. lra.
  - rewrite (rnd_gt0 x E). apply round_pos_le_int; [exact E | exact H | lia].
Qed.

Lemma rnd_ge_int x k : inject_Z k <= x -> (- 2 ^ 53 < k < 2 ^ 53)%Z -> inject_Z k <= rnd x.
Proof.
  intros H B.
  assert (G : rnd (- x) <= inject_Z (- k)).
  { apply rnd_le_int; [rewrite inject_Z_opp; lra | lia]. }
  rewrite rnd_opp, inject_Z_opp in G. lra.
Qed.

Lemma rnd_int k : (- 2 ^ 53 < k < 2 ^ 53)%Z -> rnd (inject_Z k) == inject_Z k.
Proof.
  intros B. apply Qle_antisym; [apply rnd_le_int | apply rnd_ge_int]; (lra || exact B).
Qed.

Lemma int_of_float_floor x : 0 <= x -> int_of_float x = Qfloor x.
Proof.
  intros H. unfold int_of_float. destruct x as [n d]. cbn [Qnum Qden Qfloor].
  assert (Hn : (0 <= n)%Z) by (unfold Qle in H; simpl in H; lia).
  apply Z.quot_div_nonneg; lia.
Qed.

Lemma round_pos_dyadic (M e : Z) : (0 < M < 2 ^ 53)%Z ->
  round_pos (inject_Z M * pow2 e) == inject_Z M * pow2 e.
Proof.
  intros [M0 M1]. set (x := inject_Z M * pow2 e).
  pose proof (pow2_pos e) as Pe.
  assert (HM : 0 < inject_Z M) by (change 0 with (inject_Z 0); now rewrite <- Zlt_Qlt).
  assert (Hx : 0 < x) by (unfold x; now apply Qmult_lt_0_compat).
  destruct (ilog2_spec x Hx) as [L1 _].
  assert (He : (ilog2 x - 52 <= e)%Z).
  { assert (A : pow2 (ilog2 x) < pow2 (53 + e)).
    { eapply Qle_lt_trans; [exact L1|]. unfold x. rewrite pow2_add.
      apply Qmult_lt_compat_r; [exact Pe|]. rewrite pow2_Z by lia. now rewrite <- Zlt_Qlt. }
    apply pow2_lt_inv in A. lia. }
  unfold round_pos. fold x. set (e' := (ilog2 x - 52)%Z) in *.
  assert (Ey : x / pow2 e' == inject_Z (M * 2 ^ (e - e'))).
  { rewrite inject_Z_mult, <- pow2_Z by lia. rewrite div_pow2. unfold x.
    rewrite <- Qmult_assoc, <- pow2_add. now replace (e + - e')%Z with (e - e')%Z by ring. }
  rewrite (rne_comp _ _ Ey), rne_Z, inject_Z_mult, <- pow2_Z by lia.
  unfold x. rewrite <- Qmult_assoc, <- pow2_add.
  now replace (e - e' + e')%Z with e by ring.
Qed.

(** A value with a 53-bit significand is its own rounding. *)
Lemma rnd_dyadic (M e : Z) : (- 2 ^ 53 <= M <= 2 ^ 53)%Z ->
  rnd (inject_Z M * pow2 e) == inject_Z M * pow2 e.
Proof.
  assert (P : forall M e, (0 < M <= 2 ^ 53)%Z ->
                rnd (inject_Z M * pow2 e) == inject_Z M * pow2 e).
  { clear M e. intros M e [M0 M1]. pose proof (pow2_pos e) as Pe.
    assert (HM : 0 < inject_Z M) by (change 0 with (inject_Z 0); now rewrite <- Zlt_Qlt).
    rewrite rnd_gt0 by (now apply Qmult_lt_0_compat).
    destruct (Z.eq_dec M (2 ^ 53)) as [->|N].
    - assert (E : inject_Z (2 ^ 53) * pow2 e == inject_Z (2 ^ 52) * pow2 (e + 1)).
      { rewrite pow2_succ. change (inject_Z (2 ^ 53)) with (2 * inject_Z (2 ^ 52)). ring. }
      assert (Hp : 0 < inject_Z (2 ^ 53) * pow2 e) by (now apply Qmult_lt_0_compat).
      rewrite (round_pos_comp _ _ Hp E), E.
      apply round_pos_dyadic. lia.
    - apply round_pos_dyadic. lia. }
  intros [B0 B1]. destruct (Z.lt_trichotomy M 0) as [N|[->|N]].
  - assert (E : inject_Z M * pow2 e == - (inject_Z (- M) * pow2 e))
      by (rewrite inject_Z_opp; ring).
    rewrite (rnd_comp _ _ E), rnd_opp, P by lia. rewrite inject_Z_opp. ring.
  - rewrite rnd_eq0; [|ring]. ring.
  - apply P. lia.
Qed.

Lemma rnd_idem x : rnd (rnd x) == rnd x.
Proof.
  assert (P : forall x, 0 < x -> rnd (rnd x) == rnd x).
  { clear x. intros x Hx. destruct (scaled_bounds x Hx) as [S1 S2].
    assert (E : rnd x == inject_Z (rne (x / pow2 (ilog2 x - 52))) * pow2 (ilog2 x - 52))
      by (now rewrite rnd_gt0).
    rewrite (rnd_comp _ _ E), E. apply rnd_dyadic. split.
    - apply Z.le_trans with 0%Z; [lia|]. apply rne_ge_int.
      eapply Qle_trans; [|exact S1]. apply Qlt_le_weak, pow2_pos.
    - apply rne_le_int. rewrite <- pow2_Z by lia. now apply Qlt_le_weak. }
  destruct (Qcompare_spec x 0) as [E|E|E].
  - rewrite (rnd_eq0 x E). reflexivity.
  - assert (Hx : 0 < - x) by lra. specialize (P _ Hx).
    rewrite (rnd_comp _ _ (rnd_opp x)), (rnd_opp (rnd x)), (rnd_opp x) in P. lra.
  - now apply P.
Qed.

Lemma rnd_abs x : rnd (Qabs (rnd x)) == Qabs (rnd x).
Proof.
  apply Qabs_case; intros H.
  - apply rnd_idem.
  - rewrite rnd_opp, rnd_idem. reflexivity.
Qed.

Lemma inject_Z_nonneg k : (0 <= k)%Z -> 0 <= inject_Z k.
Proof. intros H. change 0 with (inject_Z 0). now rewrite <- Zle_Qle. Qed.

Lemma inject_Z_le k n : (k <= n)%Z -> inject_Z k <= inject_Z n.
Proof. intros H. now rewrite <- Zle_Qle. Qed.

Lemma float_of_int_exact (k : Z) :
  (- 2 ^ 53 < k < 2 ^ 53)%Z -> float_of_int k == inject_Z k.
Proof. apply rnd_int. Qed.

(** The product [n * r] of an integer below 2^53 and a double. *)
Lemma fmul_int (k : Z) (r : float) :
  (- 2 ^ 53 < k < 2 ^ 53)%Z -> fmul (float_of_int k) r = rnd (inject_Z k * r).
Proof.
  intros B. unfold fmul. apply rnd_comp. now rewrite (float_of_int_exact k B).
Qed.

Lemma Qfloor_nonneg (x : Q) : 0 <= x -> (0 <= Qfloor x)%Z.
Proof. intros H. change 0%Z with (Qfloor 0). now apply Qfloor_resp_le. Qed.

(** The model on sums and products whose doubles are well known. *)
Example tenth_plus_fifth :
  fadd (rnd (1 # 10)) (rnd (2 # 10)) = 1351079888211149 # 4503599627370496.
Proof. vm_compute. reflexivity. Qed.

Example six_times_two_fifths :
  fmul (float_of_int 6) (rnd (4 # 10)) = 1351079888211149 # 562949953421312 /\
  int_of_float (fmul (float_of_int 6) (rnd (4 # 10))) = 2%Z.
Proof. split; vm_compute; reflexivity. Qed.

Example ten_times_seven_tenths : fmul (float_of_int 10) (rnd (7 # 10)) = 7.
Proof. vm_compute. reflexivity. Qed.

Example beyond_53_bits : float_of_int (2 ^ 53 + 1) = inject_Z (2 ^ 53).
Proof. vm_compute. reflexivity. Qed.

End Float64Facts.

(** * Facts on Python text *)
Module PyStrFacts.
Import PyStr.
Local Open Scope Z_scope.

Lemma len_nonneg {A} (l : list A) : 0 <= len l.
Proof. unfold len. lia. Qed.

Lemma len_app {A} (a b : list A) : len (a ++ b) = len a + len b.
Proof. unfold len. rewrite length_app. lia. Qed.

Lemma len_cons {A} (x : A) (l : list A) : len (x :: l) = 1 + len l.
Proof. unfold len. cbn [List.length]. lia. Qed.

Lemma len_nil {A} : len (@nil A) = 0.
Proof. reflexivity. Qed.

Lemma startswith_app (p b : text) : startswith (p ++ b) p = true.
Proof.
  induction p as [|x p IH]; cbn.
  - now destruct b.
  - now rewrite Ascii.eqb_refl.
Qed.

Lemma startswith_split (s p : text) :
  startswith s p = true -> s = p ++ skipn (List.length p) s.
Proof.
  revert s. induction p as [|x p IH]; intros s H.
  - reflexivity.
  - destruct s as [|y s]; cbn in H; [discriminate|].
    apply andb_true_iff in H. destruct H as [E H].
    apply Ascii.eqb_eq in E. subst y. cbn. f_equal. now apply IH.
Qed.

Lemma startswith_nil (s : text) : startswith s [] = true.
Proof. now destruct s. Qed.

Lemma contains_nil (s : text) : contains [] s = true.
Proof. destruct s; cbn; [reflexivity | now rewrite ?startswith_nil]. Qed.

Lemma text_eqb_refl (a : text) : text_eqb a a = true.
Proof. induction a as [|x a IH]; cbn; [reflexivity | now rewrite Ascii.eqb_refl]. Qed.

Lemma text_eqb_eq (a b : text) : text_eqb a b = true <-> a = b.
Proof.
  split.
  - revert b. induction a as [|x a IH]; intros [|y b] H; cbn in H; try discriminate.
    + reflexivity.
    + apply andb_true_iff in H. destruct H as [E H].
      apply Ascii.eqb_eq in E. subst y. f_equal. now apply IH.
  - intros ->. apply text_eqb_refl.
Qed.

Lemma slice_from_0 (s : text) : slice_from s 0 = s.
Proof. reflexivity. Qed.

Lemma slice_from_app (a b : text) : slice_from (a ++ b) (len a) = b.
Proof.
  unfold slice_from, len. rewrite Nat2Z.id.
  rewrite skipn_app, skipn_all, Nat.sub_diag. reflexivity.
Qed.

Lemma slice_app (a m b : text) : slice (a ++ m ++ b) (len a) (len a + len m) = m.
Proof.
  unfold slice. fold (slice_from (a ++ m ++ b) (len a)). rewrite slice_from_app.
  replace (len a + len m - len a) with (len m) by lia.
  unfold len. rewrite Nat2Z.id. rewrite firstn_app, firstn_all, Nat.sub_diag.
  cbn. apply app_nil_r.
Qed.

Lemma len_map {A B} (f : A -> B) (l : list A) : len (map f l) = len l.
Proof. unfold len. now rewrite length_map. Qed.

Lemma filter_map_len {A B} (f : B -> bool) (g : A -> B) (l : list A) :
  len (filter f (map g l)) = len (filter (fun x => f (g x)) l).
Proof.
  induction l as [|x l IH]; cbn [map filter]; [reflexivity|].
  destruct (f (g x)); [rewrite !len_cons; lia | exact IH].
Qed.

Lemma len_filter_le {A} (f : A -> bool) (l : list A) : 0 <= len (filter f l) <= len l.
Proof.
  induction l as [|x l IH]; cbn [filter]; [unfold len; cbn; lia|].
  destruct (f x); rewrite ?len_cons; lia.
Qed.

End PyStrFacts.

(** * The extraction ladder *)
Module LadderFacts.
Import PyStr PyStrFacts QAGen.
Local Open Scope Z_scope.

Lemma split_first_eq (sub s : text) :
  split_first sub s =
  if startswith s sub then Some ([], skipn (List.length sub) s)
  else match s with
       | [] => None
       | c :: s' =>
           match split_first sub s' with
           | Some (before, after) => Some (c :: before, after)
           | None => None
           end
       end.
Proof. destruct s; reflexivity. Qed.

Lemma find_from_eq (sub s : text) (i : Z) :
  find_from sub s i =
  if startswith s sub then i
  else match s with
       | [] => -1
       | _ :: s' => find_from sub s' (i + 1)
       end.
Proof. destruct s; reflexivity. Qed.

Lemma contains_eq (sub s : text) :
  contains sub s =
  (startswith s sub || match s with [] => false | _ :: s' => contains sub s' end).
Proof. destruct s; reflexivity. Qed.

Lemma split_first_app (sub s a b : text) :
  split_first sub s = Some (a, b) -> s = a ++ sub ++ b.
Proof.
  revert a b. induction s as [|c s IH]; intros a b H; rewrite split_first_eq in H.
  - destruct (startswith [] sub) eqn:E; [|discriminate].
    injection H as <- <-. now apply startswith_split.
  - destruct (startswith (c :: s) sub) eqn:E.
    + injection H as <- <-. now apply startswith_split.
    + destruct (split_first sub s) as [[x y]|] eqn:F; [|discriminate].
      injection H as <- <-. cbn. f_equal. now apply IH.
Qed.

Lemma split_first_least (sub s a b : text) :
  split_first sub s = Some (a, b) ->
  forall a' b', s = a' ++ sub ++ b' -> (List.length a <= List.length a')%nat.
Proof.
  revert a b. induction s as [|c s IH]; intros a b H a' b' E; rewrite split_first_eq in H.
  - destruct (startswith [] sub); [|discriminate]. injection H as <- <-. cbn. lia.
  - destruct (startswith (c :: s) sub) eqn:S1.
    + injection H as <- <-. cbn. lia.
    + destruct (split_first sub s) as [[x y]|] eqn:F; [|discriminate].
      injection H as <- <-. destruct a' as [|c' a'].
      * cbn in E. rewrite E, startswith_app in S1. discriminate.
      * cbn in E. injection E as -> E. cbn. apply le_n_S. eapply IH; [reflexivity | exact E].
Qed.

Lemma split_first_none (sub s : text) :
  split_first sub s = None -> forall a b, s <> a ++ sub ++ b.
Proof.
  induction s as [|c s IH]; intros H a b E; rewrite split_first_eq in H.
  - destruct (startswith [] sub) eqn:S1; [discriminate|].
    destruct a; [|discriminate]. cbn in E. rewrite E, startswith_app in S1. discriminate.
  - destruct (startswith (c :: s) sub) eqn:S1; [discriminate|].
    destruct (split_first sub s) as [[x y]|] eqn:F; [discriminate|].
    destruct a as [|c' a].
    + cbn in E. rewrite E, startswith_app in S1. discriminate.
    + cbn in E. injection E as -> E. now apply (IH eq_refl a b).
Qed.

Lemma contains_split (sub s : text) :
  contains sub s = match split_first sub s with Some _ => true | None => false end.
Proof.
  induction s as [|c s IH]; rewrite contains_eq, split_first_eq.
  - destruct (startswith [] sub); reflexivity.
  - destruct (startswith (c :: s) sub); [reflexivity|]. cbn [orb]. rewrite IH.
    destruct (split_first sub s) as [[x y]|]; reflexivity.
Qed.

Lemma find_from_split (sub s : text) (i : Z) :
  find_from sub s i =
  match split_first sub s with Some (a, _) => i + len a | None => -1 end.
Proof.
  revert i. induction s as [|c s IH]; intros i; rewrite find_from_eq, split_first_eq.
  - destruct (startswith [] sub); [change (len (@nil ascii)) with 0; lia | reflexivity].
  - destruct (startswith (c :: s) sub); [change (len (@nil ascii)) with 0; lia|]. rewrite IH.
    destruct (split_first sub s) as [[x y]|]; [rewrite len_cons; lia | reflexivity].
Qed.

Lemma find_0 (s sub : text) :
  find s sub 0 = match split_first sub s with Some (a, _) => len a | None => -1 end.
Proof.
  unfold find. pose proof (len_nonneg s). destruct (Z.ltb_spec (len s) 0); [lia|].
  rewrite slice_from_0, find_from_split. destruct (split_first sub s) as [[x y]|]; reflexivity.
Qed.

Lemma find_after (s sub a opener rest : text) :
  s = a ++ opener ++ rest ->
  find s sub (len a + len opener) =
  match split_first sub rest with
  | Some (m, _) => len a + len opener + len m
  | None => -1
  end.
Proof.
  intros ->. unfold find. rewrite !len_app.
  pose proof (len_nonneg rest).
  destruct (Z.ltb_spec (len a + (len opener + len rest)) (len a + len opener)); [lia|].
  rewrite app_assoc, <- len_app, slice_from_app. apply find_from_split.
Qed.

(** What the index arithmetic of patterns 1 and 2 computes. *)
Lemma fence_lookup (opener s : text) :
  match fence_interior opener s with
  | Some interior =>
      contains opener s = true /\
      find s fence (find s opener 0 + len opener) <> -1 /\
      slice s (find s opener 0 + len opener) (find s fence (find s opener 0 + len opener))
      = interior
  | None =>
      contains opener s = false \/ find s fence (find s opener 0 + len opener) = -1
  end.
Proof.
  unfold fence_interior. rewrite contains_split, find_0.
  destruct (split_first opener s) as [[a rest]|] eqn:E; [|now left].
  apply split_first_app in E. rewrite (find_after s fence a opener rest E).
  destruct (split_first fence rest) as [[m post]|] eqn:F; [|now right].
  apply split_first_app in F. split; [reflexivity|]. split.
  - pose proof (len_nonneg a). pose proof (len_nonneg opener). pose proof (len_nonneg m). lia.
  - subst s rest. rewrite app_assoc, <- len_app. apply slice_app.
Qed.

Lemma brace_scan_close (rest : text) (i : Z) (extra : nat) :
  brace_scan rest i (Z.of_nat extra + 1) =
  option_map (fun p => i + len p - 1) (close_span rest extra).
Proof.
  revert i extra. induction rest as [|c rest IH]; intros i extra; cbn [brace_scan close_span].
  - reflexivity.
  - destruct (Ascii.eqb c "{").
    + replace (Z.of_nat extra + 1 + 1) with (Z.of_nat (S extra) + 1) by lia.
      rewrite IH. destruct (close_span rest (S extra)); cbn [option_map]; [|reflexivity].
      rewrite len_cons. f_equal. lia.
    + destruct (Ascii.eqb c "}").
      * destruct extra as [|e].
        -- cbn [option_map]. change (Z.of_nat 0 + 1 - 1 =? 0) with true. cbv iota.
           rewrite len_cons. change (len (@nil ascii)) with 0. f_equal. lia.
        -- replace (Z.of_nat (S e) + 1 - 1 =? 0) with false by (symmetry; apply Z.eqb_neq; lia).
           replace (Z.of_nat (S e) + 1 - 1) with (Z.of_nat e + 1) by lia.
           rewrite IH. destruct (close_span rest e); cbn [option_map]; [|reflexivity].
           rewrite len_cons. f_equal. lia.
      * rewrite IH. destruct (close_span rest extra); cbn [option_map]; [|reflexivity].
        rewrite len_cons. f_equal. lia.
Qed.

Lemma close_span_prefix (rest : text) (extra : nat) (p : text) :
  close_span rest extra = Some p -> exists post, rest = p ++ post.
Proof.
  revert extra p. induction rest as [|c rest IH]; intros extra p H; cbn [close_span] in H.
  - discriminate.
  - assert (G : forall e, option_map (cons c) (close_span rest e) = Some p ->
                exists post, c :: rest = p ++ post).
    { intros e G. destruct (close_span rest e) as [p'|] eqn:F; [|discriminate].
      injection G as <-. destruct (IH _ _ F) as [post ->]. now exists post. }
    destruct (Ascii.eqb c "{"); [now apply (G (S extra))|].
    destruct (Ascii.eqb c "}"); [|now apply (G extra)].
    destruct extra as [|e]; [|now apply (G e)].
    injection H as <-. now exists rest.
Qed.

Lemma depth_app (a b : text) : depth (a ++ b) = depth a + depth b.
Proof. induction a as [|c a IH]; cbn [app depth]; [reflexivity | rewrite IH; lia]. Qed.

(** The span closes its brace at its last character and nowhere before. *)
Lemma close_span_depth (rest : text) (extra : nat) (p : text) :
  close_span rest extra = Some p ->
  depth p = - (Z.of_nat extra + 1) /\
  forall p1 p2, p = p1 ++ p2 -> p2 <> [] -> - (Z.of_nat extra + 1) < depth p1.
Proof.
  revert extra p. induction rest as [|c rest IH]; intros extra p H; cbn [close_span] in H.
  - discriminate.
  - assert (G : forall e (d : Z), option_map (cons c) (close_span rest e) = Some p ->
                depth [c] = d -> - (Z.of_nat e + 1) + d = - (Z.of_nat extra + 1) ->
                depth p = - (Z.of_nat extra + 1) /\
                forall p1 p2, p = p1 ++ p2 -> p2 <> [] -> - (Z.of_nat extra + 1) < depth p1).
    { intros e d G Hd He. destruct (close_span rest e) as [p'|] eqn:F; [|discriminate].
      injection G as <-. destruct (IH _ _ F) as [D1 D2]. split.
      - change (c :: p') with ([c] ++ p'). rewrite depth_app. lia.
      - intros p1 p2 E N. destruct p1 as [|c1 p1].
        + cbn. lia.
        + cbn in E. injection E as <- E. specialize (D2 _ _ E N).
          change (c :: p1) with ([c] ++ p1). rewrite depth_app. lia. }
    destruct (Ascii.eqb c "{") eqn:E1.
    { apply (G (S extra) 1); [exact H | cbn; now rewrite E1 | lia]. }
    destruct (Ascii.eqb c "}") eqn:E2.
    2:{ apply (G extra 0); [exact H | cbn; now rewrite E1, E2 | lia]. }
    destruct extra as [|e].
    + injection H as <-. split; [cbn; now rewrite E1, E2|].
      intros p1 p2 E N. destruct p1 as [|c1 p1]; [cbn; lia|].
      cbn in E. injection E as _ E. destruct p1; [destruct p2; [easy | discriminate] | discriminate].
    + apply (G e (-1)); [exact H | cbn; now rewrite E1, E2 | lia].
Qed.

(** What the scan of pattern 3 computes. *)
Lemma brace_lookup (s : text) :
  match spec_balanced_span s with
  | Some r =>
      find s open_brace 0 <> -1 /\
      exists i, brace_scan (slice_from s (find s open_brace 0)) (find s open_brace 0) 0 = Some i
                /\ slice s (find s open_brace 0) (i + 1) = r
  | None =>
      find s open_brace 0 = -1 \/
      brace_scan (slice_from s (find s open_brace 0)) (find s open_brace 0) 0 = None
  end.
Proof.
  unfold spec_balanced_span. rewrite find_0.
  destruct (split_first open_brace s) as [[a rest]|] eqn:E; [|now left].
  apply split_first_app in E. subst s. rewrite slice_from_app.
  change (open_brace ++ rest) with ("{"%char :: rest). cbn [brace_scan].
  change (Ascii.eqb "{" "{") with true. cbv iota.
  change (0 + 1) with (Z.of_nat 0 + 1).
  rewrite (brace_scan_close rest (len a + 1) 0).
  destruct (close_span rest 0) as [p|] eqn:F; cbn [option_map]; [|now right].
  split; [pose proof (len_nonneg a); lia|].
  exists (len a + 1 + len p - 1). split; [reflexivity|].
  destruct (close_span_prefix _ _ _ F) as [post ->].
  change ("{"%char :: p ++ post) with (open_brace ++ p ++ post).
  replace (len a + 1 + len p - 1 + 1) with (len a + len (open_brace ++ p))
    by (rewrite len_app; change (len open_brace) with 1; lia).
  rewrite (app_assoc open_brace p post). apply slice_app.
Qed.

Lemma ladder_refines (s : text) :
  _extract_json_from_response s = first_match spec_ladder s.
Proof.
  unfold _extract_json_from_response, spec_ladder, first_match.
  unfold spec_tagged_fence, spec_generic_fence, spec_whole_reply, object_shaped.
  assert (W : forall o : option text, match o with Some r => Some r | None => None end = o)
    by (now intros [r|]).
  rewrite W. clear W.
  pose proof (fence_lookup fence_json s) as P1. change (len fence_json) with 7 in P1.
  pose proof (fence_lookup fence s) as P2. change (len fence) with 3 in P2.
  pose proof (brace_lookup s) as P3.
  assert (T1 : forall x, x <> -1 -> negb (x =? -1) = true)
    by (intros x N; apply negb_true_iff, Z.eqb_neq, N).
  assert (T3 :
    (if negb (find s open_brace 0 =? -1)
     then match brace_scan (slice_from s (find s open_brace 0)) (find s open_brace 0) 0 with
          | Some i => Some (slice s (find s open_brace 0) (i + 1))
          | None => if startswith (strip s) open_brace && endswith (strip s) close_brace
                    then Some (strip s) else None
          end
     else if startswith (strip s) open_brace && endswith (strip s) close_brace
          then Some (strip s) else None)
    = match spec_balanced_span s with
      | Some r => Some r
      | None => if startswith (strip s) open_brace && endswith (strip s) close_brace
                then Some (strip s) else None
      end).
  { destruct (spec_balanced_span s) as [r|].
    - destruct P3 as [N [i [B S]]]. rewrite (T1 _ N), B, S. reflexivity.
    - destruct P3 as [N|B]; [rewrite N; reflexivity|]. rewrite B.
      now destruct (negb _). }
  assert (T2 : forall K : option text,
    (if contains fence s
     then if negb (find s fence (find s fence 0 + 3) =? -1)
          then if startswith (strip (slice s (find s fence 0 + 3) (find s fence (find s fence 0 + 3)))) open_brace
                  && endswith (strip (slice s (find s fence 0 + 3) (find s fence (find s fence 0 + 3)))) close_brace
               then Some (strip (slice s (find s fence 0 + 3) (find s fence (find s fence 0 + 3))))
               else K
          else K
     else K)
    = match match fence_interior fence s with
            | Some interior =>
                if startswith (strip interior) open_brace && endswith (strip interior) close_brace
                then Some (strip interior) else None
            | None => None
            end with
      | Some r => Some r
      | None => K
      end).
  { intros K. destruct (fence_interior fence s) as [m|].
    - destruct P2 as [C [N S]]. rewrite C, (T1 _ N), S.
      destruct (startswith (strip m) open_brace && endswith (strip m) close_brace); reflexivity.
    - destruct P2 as [C|N]; [now rewrite C | rewrite N]. now destruct (contains fence s). }
  cbv zeta. rewrite T3, T2.
  destruct (fence_interior fence_json s) as [m|]; cbn [option_map].
  - destruct P1 as [C [N S]]. rewrite C, (T1 _ N), S. reflexivity.
  - destruct P1 as [C|N]; [now rewrite C | rewrite N].
    now destruct (contains fence_json s).
Qed.


Lemma fence_interior_first (opener s interior : text) :
  fence_interior opener s = Some interior ->
  exists pre post,
    s = pre ++ opener ++ interior ++ fence ++ post /\
    (forall a b, s = a ++ opener ++ b -> (List.length pre <= List.length a)%nat) /\
    (forall a b, interior ++ fence ++ post = a ++ fence ++ b ->
                 (List.length interior <= List.length a)%nat).
Proof.
  unfold fence_interior. intros H.
  destruct (split_first opener s) as [[pre rest]|] eqn:E; [|discriminate].
  destruct (split_first fence rest) as [[m post]|] eqn:F; [|discriminate].
  injection H as ->. exists pre, post.
  pose proof (split_first_app _ _ _ _ F) as HF. split; [|split].
  - rewrite <- HF. now apply split_first_app.
  - now apply (split_first_least _ _ _ _ E).
  - rewrite <- HF. now apply (split_first_least _ _ _ _ F).
Qed.

Lemma balanced_span_sound (s r : text) :
  spec_balanced_span s = Some r ->
  exists pre post,
    s = pre ++ r ++ post /\
    ~ In "{"%char pre /\
    startswith r open_brace = true /\
    depth r = 0 /\
    (forall p1 p2, r = p1 ++ p2 -> p1 <> [] -> p2 <> [] -> 0 < depth p1).
Proof.
  unfold spec_balanced_span. intros H.
  destruct (split_first open_brace s) as [[pre rest]|] eqn:E; [|discriminate].
  destruct (close_span rest 0) as [p|] eqn:F; [|discriminate].
  injection H as <-. destruct (close_span_prefix _ _ _ F) as [post ->].
  destruct (close_span_depth _ _ _ F) as [D1 D2].
  exists pre, post. split; [|split; [|split; [|split]]].
  - exact (split_first_app _ _ _ _ E).
  - intros I. apply in_split in I. destruct I as [x [y ->]].
    pose proof (split_first_app _ _ _ _ E) as HS.
    assert (L := split_first_least _ _ _ _ E x (y ++ open_brace ++ p ++ post)).
    rewrite HS, <- app_assoc in L. specialize (L eq_refl).
    rewrite length_app in L. cbn in L. lia.
  - change ("{"%char :: p) with (open_brace ++ p). apply startswith_app.
  - change ("{"%char :: p) with (open_brace ++ p). rewrite depth_app, D1. reflexivity.
  - intros p1 p2 Er N1 N2. destruct p1 as [|c p1]; [easy|].
    cbn in Er. injection Er as <- Er. specialize (D2 _ _ Er N2).
    change ("{"%char :: p1) with (open_brace ++ p1). rewrite depth_app.
    change (depth open_brace) with 1. cbn in D2. lia.
Qed.

(** C1. The extraction of the reply's payload is a first-match ladder over four
    strategies in a fixed order: the trimmed interior of the first fence tagged
    json; the trimmed interior of the first fence of any kind, when it starts
    with an opening and ends with a closing brace; the span from the first
    opening brace to the brace that balances it; the whole trimmed reply, when it
    is brace-delimited. A strategy answers only when all the stricter ones before
    it found nothing, and nothing is extracted when all four fail. The balanced
    span starts at the reply's first opening brace, has depth zero and no shorter
    prefix of it has: braces nested inside the payload do not cut it short, as on
    the reply that holds the object with the explanation "use {x} notation". *)
Theorem extraction_ladder :
  (forall s, _extract_json_from_response s = first_match spec_ladder s) /\
  (forall s r, spec_tagged_fence s = Some r -> _extract_json_from_response s = Some r) /\
  (forall s r, spec_tagged_fence s = None -> spec_generic_fence s = Some r ->
               _extract_json_from_response s = Some r) /\
  (forall s r, spec_tagged_fence s = None -> spec_generic_fence s = None ->
               spec_balanced_span s = Some r -> _extract_json_from_response s = Some r) /\
  (forall s, spec_tagged_fence s = None -> spec_generic_fence s = None ->
             spec_balanced_span s = None ->
             _extract_json_from_response s = spec_whole_reply s) /\
  (forall s, spec_tagged_fence s = None -> spec_generic_fence s = None ->
             spec_balanced_span s = None -> spec_whole_reply s = None ->
             _extract_json_from_response s = None) /\
  (forall opener s interior, fence_interior opener s = Some interior ->
     exists pre post,
       s = pre ++ opener ++ interior ++ fence ++ post /\
       (forall a b, s = a ++ opener ++ b -> (List.length pre <= List.length a)%nat) /\
       (forall a b, interior ++ fence ++ post = a ++ fence ++ b ->
                    (List.length interior <= List.length a)%nat)) /\
  (forall s r, spec_balanced_span s = Some r ->
     exists pre post,
       s = pre ++ r ++ post /\ ~ In "{"%char pre /\ startswith r open_brace = true /\
       depth r = 0 /\
       (forall p1 p2, r = p1 ++ p2 -> p1 <> [] -> p2 <> [] -> 0 < depth p1)) /\
  _extract_json_from_response nested_reply = Some nested_payload /\
  spec_balanced_span nested_reply = Some nested_payload.
Proof.
  split; [exact ladder_refines|].
  split. { intros s r H. rewrite ladder_refines. cbn. now rewrite H. }
  split. { intros s r H1 H2. rewrite ladder_refines. cbn. now rewrite H1, H2. }
  split. { intros s r H1 H2 H3. rewrite ladder_refines. cbn. now rewrite H1, H2, H3. }
  split. { intros s H1 H2 H3. rewrite ladder_refines. cbn. rewrite H1, H2, H3.
           now destruct (spec_whole_reply s). }
  split. { intros s H1 H2 H3 H4. rewrite ladder_refines. cbn. now rewrite H1, H2, H3, H4. }
  split; [exact fence_interior_first|].
  split; [exact balanced_span_sound|].
  split; vm_compute; reflexivity.
Qed.

End LadderFacts.

(** * Generation of one question and of a slide's batch *)
Module GenerationFacts.
Import PyStr PyStrFacts Py QAGen.
Local Open Scope Z_scope.

Lemma check_required_obj (fields : list text) (kv : list (text * json)) :
  check_required fields (JObj kv) = Ok (forallb (has_key kv) fields).
Proof.
  induction fields as [|f fields IH]; cbn [check_required py_in forallb].
  - reflexivity.
  - destruct (has_key kv f); [exact IH | reflexivity].
Qed.

Lemma dict_get_set (kv : list (text * json)) (k : text) (v : json) :
  dict_get (dict_set kv k v) k = Some v.
Proof.
  induction kv as [|[k' v'] kv IH]; cbn [dict_set dict_get].
  - now rewrite text_eqb_refl.
  - destruct (text_eqb k' k) eqn:E; cbn [dict_get].
    + now rewrite text_eqb_refl.
    + now rewrite E.
Qed.

Lemma dict_get_set_other (kv : list (text * json)) (k k' : text) (v : json) :
  k' <> k -> dict_get (dict_set kv k v) k' = dict_get kv k'.
Proof.
  intros N. induction kv as [|[k0 v0] kv IH]; cbn [dict_set dict_get].
  - destruct (text_eqb k k') eqn:E; [|reflexivity].
    apply text_eqb_eq in E. congruence.
  - destruct (text_eqb k0 k) eqn:E; cbn [dict_get].
    + apply text_eqb_eq in E. subst k0.
      destruct (text_eqb k k') eqn:E'; [|reflexivity].
      apply text_eqb_eq in E'. congruence.
    + now rewrite IH.
Qed.

Lemma successes_app {A} (a b : list (option A)) :
  successes (a ++ b) = successes a ++ successes b.
Proof.
  induction a as [|[x|] a IH]; cbn [app successes]; [reflexivity | now rewrite IH | exact IH].
Qed.

Section Oracles.

Variable json_loads : text -> result json.
Variable World : Type.
Variable Prompt : Type.
Variable llm_invoke : World -> Prompt -> result text * World.
Variable create_prompt : SlideContent -> DifficultyLevel -> result Prompt.
Variable build_question : list (text * json) -> result GeneratedQuestion.

Let single := _generate_single_question json_loads World Prompt llm_invoke create_prompt
                build_question.
Let single_try := _generate_single_question_try json_loads World Prompt llm_invoke
                    create_prompt build_question.
Let attempt1 := attempt json_loads World Prompt llm_invoke create_prompt build_question.
Let run := run_attempts json_loads World Prompt llm_invoke create_prompt build_question.
Let for_slide := generate_questions_for_slide json_loads World Prompt llm_invoke
                   create_prompt build_question.

Lemma single_is_attempt (w : World) (s : SlideContent) (d : DifficultyLevel) :
  single w s d = (Ok (fst (attempt1 w s d)), snd (attempt1 w s d)).
Proof.
  unfold single, attempt1, _generate_single_question, attempt.
  destruct (_generate_single_question_try _ _ _ _ _ _ w s d) as [[r|e] w']; reflexivity.
Qed.

Lemma run_app (a b : list DifficultyLevel) (w : World) (s : SlideContent) :
  run (a ++ b) w s =
  (fst (run a w s) ++ fst (run b (snd (run a w s)) s), snd (run b (snd (run a w s)) s)).
Proof.
  revert w. induction a as [|d a IH]; intros w; cbn [app].
  - unfold run. cbn [run_attempts fst snd app]. now destruct (run_attempts _ _ _ _ _ _ b w s).
  - unfold run in *. cbn [run_attempts].
    destruct (attempt _ _ _ _ _ _ w s d) as [r w1]. rewrite IH.
    destruct (run_attempts _ _ _ _ _ _ a w1 s) as [rs w2]. cbn [fst snd].
    destruct (run_attempts _ _ _ _ _ _ b w2 s) as [rs' w3]. reflexivity.
Qed.

Lemma run_length (units : list DifficultyLevel) (w : World) (s : SlideContent) :
  List.length (fst (run units w s)) = List.length units.
Proof.
  revert w. induction units as [|d units IH]; intros w; unfold run in *; cbn [run_attempts].
  - reflexivity.
  - destruct (attempt _ _ _ _ _ _ w s d) as [r w1]. specialize (IH w1).
    destruct (run_attempts _ _ _ _ _ _ units w1 s) as [rs w2]. cbn [fst List.length] in *.
    now rewrite IH.
Qed.

Lemma generate_count_run (n : nat) (w : World) (s : SlideContent) (d : DifficultyLevel)
    (acc : list GeneratedQuestion) :
  generate_count json_loads World Prompt llm_invoke create_prompt build_question n w s d acc =
  (Ok (acc ++ successes (fst (run (repeat d n) w s))), snd (run (repeat d n) w s)).
Proof.
  revert w acc. induction n as [|n IH]; intros w acc; cbn [generate_count repeat].
  - unfold run. cbn. now rewrite app_nil_r.
  - fold single. rewrite single_is_attempt. unfold run, attempt1 in *. cbn [run_attempts].
    destruct (attempt _ _ _ _ _ _ w s d) as [r w1]. cbn [fst snd]. rewrite IH.
    destruct (run_attempts _ _ _ _ _ _ (repeat d n) w1 s) as [rs w2]. cbn [fst snd].
    destruct r as [q|]; cbn [successes]; [now rewrite <- app_assoc | reflexivity].
Qed.

Lemma for_slide_run (w : World) (s : SlideContent) (n : Z) (dist : per_level Z) :
  for_slide w s n (Some dist) =
  (Ok {| slide_number := sc_slide_number s; slide_title := sc_title s;
         questions := successes (fst (run (units_of dist) w s)) |},
   snd (run (units_of dist) w s)).
Proof.
  unfold for_slide, generate_questions_for_slide, items, units_of.
  cbn [generate_items]. rewrite !generate_count_run. cbn [app].
  rewrite !run_app. cbn [fst snd]. now rewrite !successes_app, app_assoc.
Qed.

Lemma single_never_raises (w : World) (s : SlideContent) (d : DifficultyLevel) :
  exists r w', single w s d = (Ok r, w').
Proof. rewrite single_is_attempt. eauto. Qed.

Let parse := _parse_response json_loads.

Lemma parse_cases (content : text) :
  (_extract_json_from_response content = None -> parse content = None) /\
  (_extract_json_from_response content = Some [] -> parse content = None) /\
  (forall j e, _extract_json_from_response content = Some j -> json_loads j = Raise e ->
     parse content = None) /\
  (forall j kv f, _extract_json_from_response content = Some j ->
     json_loads j = Ok (JObj kv) -> In f required_fields -> has_key kv f = false ->
     parse content = None) /\
  (forall j kv, _extract_json_from_response content = Some j -> j <> [] ->
     json_loads j = Ok (JObj kv) ->
     (forall f, In f required_fields -> has_key kv f = true) ->
     parse content =
     Some (JObj (if has_key kv kw_field then kv else dict_set kv kw_field (JArr [])))).
Proof.
  unfold parse, _parse_response, _parse_response_try.
  split; [now intros ->|]. split; [now intros ->|].
  split; [|split].
  - intros j e -> L. rewrite L. now destruct (len j =? 0).
  - intros j kv f -> L I M. rewrite L, check_required_obj.
    assert (F : forallb (has_key kv) required_fields = false).
    { destruct (forallb (has_key kv) required_fields) eqn:A; [|reflexivity].
      rewrite forallb_forall in A. rewrite (A f I) in M. discriminate. }
    rewrite F. now destruct (len j =? 0).
  - intros j kv -> N L A. rewrite L, check_required_obj.
    assert (Z0 : (len j =? 0) = false).
    { apply Z.eqb_neq. destruct j; [easy|]. rewrite len_cons. pose proof (len_nonneg j). lia. }
    rewrite Z0. apply forallb_forall in A. rewrite A. cbn [py_in set_default_keywords].
    now destruct (has_key kv kw_field).
Qed.

(** C7. Generating one question never raises to its caller. A failure to render
    the prompt, a failing call of the model, a reply from which no payload is
    extracted (or an empty one), a payload that does not decode, and a decoded
    object that lacks one of the five required fields all end in the empty result.
    An object with the five fields and no keywords goes on with keywords set to the
    empty list and every other entry as it was. The slide's batch makes every unit
    of work its distribution asks for, whatever the outcome of the units before,
    and keeps the questions of those that succeeded. *)
Theorem generation_absorbs_failures :
  (forall w s d, exists r w', single w s d = (Ok r, w')) /\
  (forall w s d e, create_prompt s d = Raise e -> single w s d = (Ok None, w)) /\
  (forall w s d p e w', create_prompt s d = Ok p -> llm_invoke w p = (Raise e, w') ->
     single w s d = (Ok None, w')) /\
  (forall w s d p content w', create_prompt s d = Ok p ->
     llm_invoke w p = (Ok content, w') -> parse content = None ->
     single w s d = (Ok None, w')) /\
  (forall content, _extract_json_from_response content = None -> parse content = None) /\
  (forall content, _extract_json_from_response content = Some [] -> parse content = None) /\
  (forall content j e, _extract_json_from_response content = Some j ->
     json_loads j = Raise e -> parse content = None) /\
  (forall content j kv f, _extract_json_from_response content = Some j ->
     json_loads j = Ok (JObj kv) -> In f required_fields -> has_key kv f = false ->
     parse content = None) /\
  (forall content j kv, _extract_json_from_response content = Some j -> j <> [] ->
     json_loads j = Ok (JObj kv) ->
     (forall f, In f required_fields -> has_key kv f = true) ->
     has_key kv kw_field = false ->
     let data := dict_set kv kw_field (JArr []) in
     parse content = Some (JObj data) /\
     dict_get data kw_field = Some (JArr []) /\
     (forall k, k <> kw_field -> dict_get data k = dict_get kv k)) /\
  (forall w s d p content w' kv, create_prompt s d = Ok p ->
     llm_invoke w p = (Ok content, w') -> parse content = Some (JObj kv) -> kv <> [] ->
     single w s d =
     (match build_question kv with Ok q => Ok (Some q) | Raise _ => Ok None end, w')) /\
  (forall w s n dist,
     for_slide w s n (Some dist) =
     (Ok {| slide_number := sc_slide_number s; slide_title := sc_title s;
            questions := successes (fst (run (units_of dist) w s)) |},
      snd (run (units_of dist) w s))) /\
  (forall units w s, List.length (fst (run units w s)) = List.length units).
Proof.
  split; [exact single_never_raises|].
  split. { intros w s d e H. unfold single, _generate_single_question,
             _generate_single_question_try. now rewrite H. }
  split. { intros w s d p e w' H L. unfold single, _generate_single_question,
             _generate_single_question_try. now rewrite H, L. }
  split. { intros w s d p content w' H L P. unfold single, _generate_single_question,
             _generate_single_question_try. fold parse. now rewrite H, L, P. }
  split; [intros content; apply (parse_cases content)|].
  split; [intros content; apply (parse_cases content)|].
  split; [intros content; apply (parse_cases content)|].
  split; [intros content; apply (parse_cases content)|].
  split. { intros content j kv E N L A K data.
           destruct (parse_cases content) as (_ & _ & _ & _ & P).
           rewrite (P j kv E N L A), K. split; [reflexivity|]. split.
           - apply dict_get_set.
           - intros k Nk. now apply dict_get_set_other. }
  split. { intros w s d p content w' kv H L P N. unfold single, _generate_single_question,
             _generate_single_question_try. fold parse. rewrite H, L, P.
           assert (T : truthy (JObj kv) = true).
           { destruct kv; [easy|]. cbn [truthy]. rewrite len_cons.
             pose proof (len_nonneg kv). apply negb_true_iff, Z.eqb_neq. lia. }
           rewrite T. now destruct (build_question kv). }
  split; [exact for_slide_run | exact run_length].
Qed.

End Oracles.


(** On the sample script the first two units of a three-unit batch fail, the model
    call and then the validation of the fields, and the third still runs and succeeds. *)
Example batch_goes_on :
  generate_questions_for_slide sample_loads script unit scripted_invoke unit_prompt
    sample_build sample_script (sample_slide 1 fifty_chars) 3
    (Some {| easy := 1; medium := 1; hard := 1 |}) =
  (Ok {| slide_number := 1; slide_title := text_of_string "Slide";
         questions := [sample_question] |}, []) /\
  fst (run_attempts sample_loads script unit scripted_invoke unit_prompt sample_build
         [EASY; MEDIUM; HARD] sample_script (sample_slide 1 fifty_chars)) =
  [None; None; Some sample_question].
Proof. split; vm_compute; reflexivity. Qed.

End GenerationFacts.

(** * Allocation of levels to slides *)
Module AllocationFacts.
Import PyStr PyStrFacts Py Float64 QAGen GenerationFacts.
Local Open Scope Z_scope.

Lemma distribute_spec (s : SlideContent) (n : Z) (c : per_level Z) :
  0 <= n -> pool_nonneg c ->
  let a := {| al_slide := s; al_slide_questions := n; al_before := c;
              al_dist := fst (_distribute_difficulty_for_slide n c);
              al_after := snd (_distribute_difficulty_for_slide n c) |} in
  spec_draw a /\ pool_nonneg (al_after a) /\
  (forall k, 0 <= get (al_dist a) k /\ get (al_after a) k = get c k - get (al_dist a) k).
Proof.
  intros Hn (He & Hm & Hh). destruct c as [ce cm ch]. cbn [easy medium hard] in *.
  unfold spec_draw, pool_nonneg, _distribute_difficulty_for_slide, distribute_step.
  cbn [al_slide_questions al_before al_dist al_after easy medium hard get set fst snd].
  repeat (match goal with
          | |- context [Z.ltb 0 ?x] => destruct (Z.ltb_spec 0 x)
          end; cbn [andb get set fst snd easy medium hard]);
    (split; [split; f_equal; lia | split; [lia | intros []; cbn; lia]]).
Qed.

Lemma count_repeat (k d : DifficultyLevel) (n : nat) :
  len (filter (level_eqb k) (repeat d n)) = if level_eqb k d then Z.of_nat n else 0.
Proof.
  induction n as [|n IH]; cbn [repeat filter].
  - now destruct (level_eqb k d).
  - destruct (level_eqb k d); [rewrite len_cons, IH; lia | exact IH].
Qed.

Lemma count_units (k : DifficultyLevel) (d : per_level Z) :
  len (filter (level_eqb k) (units_of d)) = Z.max 0 (get d k).
Proof.
  unfold units_of. rewrite !filter_app, !len_app, !count_repeat.
  destruct k; cbn [level_eqb get]; lia.
Qed.

Lemma attempts_cons (a : allocation) (plan : list allocation) (k : DifficultyLevel) :
  attempts (a :: plan) k = Z.max 0 (get (al_dist a) k) + attempts plan k.
Proof.
  unfold attempts, plan_units. cbn [flat_map]. now rewrite filter_app, len_app, count_units.
Qed.

Lemma plan_invariants (slides : list SlideContent) :
  forall i qps rem c, 0 <= qps -> pool_nonneg c ->
  let plan := allocation_plan slides i qps rem c in
  chained c plan /\
  Forall (fun a => spec_draw a /\ pool_nonneg (al_after a)) plan /\
  (forall k, 0 <= attempts plan k <= get c k) /\
  map al_slide plan = slides.
Proof.
  induction slides as [|s slides IH]; intros i qps rem c Hq Hc; cbn [allocation_plan].
  - cbn. repeat split; try constructor; destruct Hc as (? & ? & ?); destruct k; cbn; lia.
  - set (n := if i <? rem then qps + 1 else qps).
    assert (Hn : 0 <= n) by (unfold n; destruct (i <? rem); lia).
    destruct (distribute_spec s n c Hn Hc) as (D1 & D2 & D3).
    destruct (_distribute_difficulty_for_slide n c) as [d c'] eqn:E.
    cbn [fst snd al_after al_dist] in D1, D2, D3.
    destruct (IH (i + 1) qps rem c' Hq D2) as (I1 & I2 & I3 & I4).
    cbn zeta. cbn [chained map al_slide al_before al_after]. repeat split.
    + exact I1.
    + constructor; [|exact I2]. split; [|exact D2].
      unfold spec_draw in *. cbn [al_slide_questions al_before al_dist al_after] in *. exact D1.
    + rewrite attempts_cons. cbn [al_dist]. destruct (D3 k), (I3 k). lia.
    + rewrite attempts_cons. cbn [al_dist]. destruct (D3 k) as [A B], (I3 k). lia.
    + now rewrite I4.
Qed.

Section Oracles.

Variable json_loads : text -> result json.
Variable World : Type.
Variable Prompt : Type.
Variable llm_invoke : World -> Prompt -> result text * World.
Variable create_prompt : SlideContent -> DifficultyLevel -> result Prompt.
Variable build_question : list (text * json) -> result GeneratedQuestion.

Let comprehensive := generate_comprehensive_qa json_loads World Prompt llm_invoke
                       create_prompt build_question.
Let run_plan' := run_plan json_loads World Prompt llm_invoke create_prompt build_question.

Lemma loop_is_plan (slides : list SlideContent) :
  forall i qps rem c w acc,
  comprehensive_loop json_loads World Prompt llm_invoke create_prompt build_question
    slides i qps rem c w acc =
  run_plan' (allocation_plan slides i qps rem c) w acc.
Proof.
  induction slides as [|s slides IH]; intros i qps rem c w acc;
    cbn [comprehensive_loop allocation_plan].
  - reflexivity.
  - destruct (_distribute_difficulty_for_slide _ c) as [d c'].
    unfold run_plan'. cbn [run_plan al_slide al_slide_questions al_dist].
    destruct (generate_questions_for_slide _ _ _ _ _ _ w s _ (Some d)) as [[qa|e] w'];
      [apply IH | reflexivity].
Qed.

Lemma comprehensive_is_plan (w : World) (slides : list SlideContent) (total : Z)
    (ratio : option (per_level float)) :
  comprehensive w slides total ratio = run_plan' (comprehensive_plan slides total ratio) w [].
Proof.
  unfold comprehensive, generate_comprehensive_qa, comprehensive_plan.
  destruct (Z.eqb_spec (len (filter _has_sufficient_content slides)) 0) as [E|E].
  - destruct (filter _has_sufficient_content slides); [reflexivity|].
    rewrite len_cons in E. pose proof (len_nonneg l). lia.
  - apply loop_is_plan.
Qed.

(** Running a plan gives one set per planned slide, in the plan's order. *)
Lemma run_plan_sets (plan : list allocation) :
  forall w acc, exists sets w',
    run_plan' plan w acc = (Ok (acc ++ sets), w') /\
    map (fun q => (slide_number q, slide_title q)) sets =
    map (fun a => (sc_slide_number (al_slide a), sc_title (al_slide a))) plan.
Proof.
  induction plan as [|a plan IH]; intros w acc; unfold run_plan' in *; cbn [run_plan].
  - exists [], w. now rewrite app_nil_r.
  - rewrite for_slide_run.
    match goal with |- context [run_plan _ _ _ _ _ _ plan ?w1 (acc ++ [?qa])] =>
      destruct (IH w1 (acc ++ [qa])) as (sets & w' & R & M); exists (qa :: sets), w' end.
    rewrite R, <- app_assoc. split; [reflexivity|]. cbn [map slide_number slide_title].
    now rewrite M.
Qed.

End Oracles.


(** C8. Through a comprehensive run for a non-negative total whose counts per level
    start non-negative, the remaining counts form one shared pool handed from slide
    to slide. Each slide draws from it, for easy, then medium, then hard, the least
    of 1, the level's remaining count and the number the slide still needs; every
    remaining count stays non-negative after every slide; and for each level the
    units of work of all the slides together never exceed the level's initial
    count. The slides served are those that pass the content gate, in input order,
    and the generator runs exactly this plan. *)
Theorem shared_pool_invariant :
  forall (slides : list SlideContent) (total : Z) (ratio : option (per_level float)),
  let c0 := initial_counts total (match ratio with None => default_ratio | Some r => r end) in
  let plan := comprehensive_plan slides total ratio in
  0 <= total -> pool_nonneg c0 ->
  chained c0 plan /\
  Forall (fun a => spec_draw a /\ pool_nonneg (al_after a)) plan /\
  (forall k, 0 <= attempts plan k <= get c0 k) /\
  map al_slide plan = filter _has_sufficient_content slides /\
  (forall json_loads World Prompt llm_invoke create_prompt build_question (w : World),
     generate_comprehensive_qa json_loads World Prompt llm_invoke create_prompt
       build_question w slides total ratio =
     run_plan json_loads World Prompt llm_invoke create_prompt build_question plan w []).
Proof.
  intros slides total ratio c0 plan Ht Hc.
  assert (Hq : 0 <= total / len (filter _has_sufficient_content slides)).
  { destruct (Z.eq_dec (len (filter _has_sufficient_content slides)) 0) as [E|E].
    - rewrite E. now destruct total.
    - apply Z.div_pos; [exact Ht|]. pose proof (len_nonneg (filter _has_sufficient_content slides)). lia. }
  destruct (plan_invariants (filter _has_sufficient_content slides) 0 _
              (total mod len (filter _has_sufficient_content slides)) c0 Hq Hc)
    as (I1 & I2 & I3 & I4).
  split; [exact I1|]. split; [exact I2|]. split; [exact I3|]. split; [exact I4|].
  intros. apply comprehensive_is_plan.
Qed.

(** The invariant on the four sample slides, six questions and the default ratio. *)
Lemma shared_pool_invariant_witness :
  let c0 := initial_counts 6 default_ratio in
  let plan := comprehensive_plan four_slides 6 None in
  chained c0 plan /\
  Forall (fun a => spec_draw a /\ pool_nonneg (al_after a)) plan /\
  (forall k, 0 <= attempts plan k <= get c0 k) /\
  map al_slide plan = filter _has_sufficient_content four_slides /\
  (forall json_loads World Prompt llm_invoke create_prompt build_question (w : World),
     generate_comprehensive_qa json_loads World Prompt llm_invoke create_prompt
       build_question w four_slides 6 None =
     run_plan json_loads World Prompt llm_invoke create_prompt build_question plan w []).
Proof.
  apply (shared_pool_invariant four_slides 6 None).
  - lia.
  - vm_compute. repeat split; discriminate.
Defined.

(** C2 (counterexample). On four slides of which the second fails the gate, six
    questions and the default ratio, the three served slides are asked for two easy,
    two medium and one hard unit of work: not two of each. *)
Lemma end_to_end_counterexample :
  let plan := comprehensive_plan four_slides 6 None in
  List.length four_slides = 4%nat /\
  List.length (filter _has_sufficient_content four_slides) = 3%nat /\
  (attempts plan EASY, attempts plan MEDIUM, attempts plan HARD) = (2, 2, 1) /\
  (attempts plan EASY, attempts plan MEDIUM, attempts plan HARD) <> (2, 2, 2).
Proof. vm_compute. repeat split; discriminate. Qed.

(** C2 (amended). For four slides of which three pass the content gate, six
    questions and the default ratio, a comprehensive run returns one question set
    for each of the three eligible slides, in input order, whatever the model
    answers; the target counts are two per level, and the units of work asked for
    over all slides are two easy, two medium and one hard: the first two slides
    take one easy and one medium each, and the third, finding both pools empty,
    takes a single hard one. *)
Theorem end_to_end_three_of_four :
  forall json_loads World Prompt llm_invoke create_prompt build_question
         (w : World) (slides : list SlideContent),
  let plan := comprehensive_plan slides 6 None in
  let eligible := filter _has_sufficient_content slides in
  List.length slides = 4%nat ->
  List.length eligible = 3%nat ->
  (exists sets w',
     generate_comprehensive_qa json_loads World Prompt llm_invoke create_prompt
       build_question w slides 6 None = (Ok sets, w') /\
     map (fun q => (slide_number q, slide_title q)) sets =
     map (fun s => (sc_slide_number s, sc_title s)) eligible) /\
  generate_comprehensive_qa json_loads World Prompt llm_invoke create_prompt
    build_question w slides 6 None =
  run_plan json_loads World Prompt llm_invoke create_prompt build_question plan w [] /\
  map al_slide plan = eligible /\
  map al_dist plan = [ {| easy := 1; medium := 1; hard := 0 |};
                       {| easy := 1; medium := 1; hard := 0 |};
                       {| easy := 0; medium := 0; hard := 1 |} ] /\
  initial_counts 6 default_ratio = {| easy := 2; medium := 2; hard := 2 |} /\
  (attempts plan EASY, attempts plan MEDIUM, attempts plan HARD) = (2, 2, 1).
Proof.
  intros json_loads World Prompt llm_invoke create_prompt build_question w slides
         plan eligible H4 H3.
  assert (P : plan = allocation_plan eligible 0 2 0 {| easy := 2; medium := 2; hard := 2 |}).
  { unfold plan, comprehensive_plan. fold eligible.
    replace (len eligible) with 3 by (unfold len; now rewrite H3). reflexivity. }
  clearbody eligible. destruct eligible as [|a [|b [|c [|x rest]]]]; try discriminate. clear H3.
  assert (R := comprehensive_is_plan json_loads World Prompt llm_invoke create_prompt
                 build_question w slides 6 None).
  fold plan in R.
  destruct (run_plan_sets json_loads World Prompt llm_invoke create_prompt build_question
              plan w []) as (sets & w' & S1 & S2).
  split.
  { exists sets, w'. rewrite R, S1. split; [reflexivity|]. rewrite S2, P. reflexivity. }
  split; [exact R|]. rewrite P. repeat split.
Qed.


(** The four sample slides, served by the scripted model. *)
Lemma end_to_end_three_of_four_witness :
  let plan := comprehensive_plan four_slides 6 None in
  let eligible := filter _has_sufficient_content four_slides in
  (exists sets w',
     generate_comprehensive_qa sample_loads script unit scripted_invoke unit_prompt
       sample_build sample_script four_slides 6 None = (Ok sets, w') /\
     map (fun q => (slide_number q, slide_title q)) sets =
     map (fun s => (sc_slide_number s, sc_title s)) eligible) /\
  generate_comprehensive_qa sample_loads script unit scripted_invoke unit_prompt
    sample_build sample_script four_slides 6 None =
  run_plan sample_loads script unit scripted_invoke unit_prompt sample_build plan
    sample_script [] /\
  map al_slide plan = eligible /\
  map al_dist plan = [ {| easy := 1; medium := 1; hard := 0 |};
                       {| easy := 1; medium := 1; hard := 0 |};
                       {| easy := 0; medium := 0; hard := 1 |} ] /\
  initial_counts 6 default_ratio = {| easy := 2; medium := 2; hard := 2 |} /\
  (attempts plan EASY, attempts plan MEDIUM, attempts plan HARD) = (2, 2, 1).
Proof.
  apply (end_to_end_three_of_four sample_loads script unit scripted_invoke unit_prompt
           sample_build sample_script four_slides); reflexivity.
Defined.

End AllocationFacts.

(** * Target distribution *)
Module DistributionFacts.
Import PyStr Float64 Float64Facts QAGen Adjuster.
Local Open Scope Z_scope.

(** Two ratios that add up to one, in double arithmetic, cannot ask for more
    than the total, as long as the total stays below 2^51. *)
Lemma floors_fit (total : Z) (e m h : Q) :
  0 <= total <= 2 ^ 51 ->
  (0 <= e)%Q -> (0 <= m)%Q -> (0 <= h)%Q ->
  (fadd (fadd e m) h == 1)%Q ->
  Qfloor (rnd (inject_Z total * e)) + Qfloor (rnd (inject_Z total * m)) <= total.
Proof.
  intros [T0 T1] He Hm Hh Hs.
  set (T := inject_Z total).
  assert (HT0 : (0 <= T)%Q) by (now apply inject_Z_nonneg).
  assert (HT1 : (T <= 2251799813685248)%Q) by (now apply (inject_Z_le total (2 ^ 51))).
  assert (Pe : (0 <= T * e)%Q) by now apply Qmult_le_0_compat.
  assert (Pm : (0 <= T * m)%Q) by now apply Qmult_le_0_compat.
  destruct (rnd_err (T * e) Pe) as [_ Ue]. destruct (rnd_err (T * m) Pm) as [_ Um].
  pose proof (Qfloor_le (rnd (T * e))) as Fe. pose proof (Qfloor_le (rnd (T * m))) as Fm.
  unfold fadd in Hs.
  assert (Sa : (0 <= e + m)%Q) by lra.
  destruct (rnd_err (e + m) Sa) as [La _].
  assert (Sy : (0 <= rnd (e + m) + h)%Q) by (pose proof (rnd_nonneg (e + m) Sa); lra).
  destruct (rnd_err (rnd (e + m) + h) Sy) as [Ly _]. rewrite Hs in Ly.
  unfold u53 in *.
  assert (Sc : (e + m <= (9007199254740992 # 9007199254740991) * (9007199254740992 # 9007199254740991))%Q) by lra.
  assert (TS : (T * (e + m) <= T * ((9007199254740992 # 9007199254740991) * (9007199254740992 # 9007199254740991)))%Q).
  { rewrite !(Qmult_comm T). now apply Qmult_le_compat_r. }
  assert (G : (inject_Z (Qfloor (rnd (T * e)) + Qfloor (rnd (T * m))) < inject_Z (total + 1))%Q).
  { rewrite !inject_Z_plus. fold T. change (inject_Z 1) with 1%Q.
    set (a := (T * e)%Q) in *. set (b := (T * m)%Q) in *.
    assert (TS' : (a + b <= T * ((9007199254740992 # 9007199254740991) * (9007199254740992 # 9007199254740991)))%Q).
    { unfold a, b. rewrite <- Qmult_plus_distr_r. exact TS. }
    clearbody a b. lra. }
  rewrite <- Zlt_Qlt in G. lia.
Qed.

(** C3 (counterexample). Ratios 0.75, 0.75 and -0.5 add up to 1.0; for a total of
    4 the easy and medium counts are 3 each and the hard count is -2. And for
    ratios 0.5, 0.5 and 0 the total 2^53 + 3, which a double cannot hold, gives
    the two floors 2^52 + 2 each and the hard count -1. *)
Lemma distribution_counterexample :
  (let r := {| easy := (3 # 4)%Q; medium := (3 # 4)%Q; hard := (- (1 # 2))%Q |} in
   0 <= 4 /\ (ratio_sum r == 1)%Q /\
   calculate_difficulty_distribution 4 (Some r) = {| easy := 3; medium := 3; hard := -2 |} /\
   ~ 0 <= hard (calculate_difficulty_distribution 4 (Some r))) /\
  (let r := {| easy := (1 # 2)%Q; medium := (1 # 2)%Q; hard := 0%Q |} in
   0 <= 2 ^ 53 + 3 /\ (ratio_sum r == 1)%Q /\
   calculate_difficulty_distribution (2 ^ 53 + 3) (Some r) =
     {| easy := 2 ^ 52 + 2; medium := 2 ^ 52 + 2; hard := -1 |} /\
   ~ 0 <= hard (calculate_difficulty_distribution (2 ^ 53 + 3) (Some r))).
Proof.
  split; cbv zeta; (split; [lia|]); (split; [apply Qeq_bool_iff; vm_compute; reflexivity|]);
    (split; [vm_compute; reflexivity|]); vm_compute; intros H; now apply H.
Qed.

(** C3 (amended). For every total from 0 to 2^51 and every mapping of non-negative
    ratios that add up to 1.0 (the default one when none is given), the easy count
    is the floor of the double product of the total and the easy ratio, the medium
    count the floor of the product with the medium ratio, the hard count is all
    that remains, the three counts add up to the total and none is negative. *)
Theorem difficulty_distribution_sums :
  forall (total : Z) (target : option (per_level float)),
  let ratios := match target with None => default_target_distribution | Some r => r end in
  let d := calculate_difficulty_distribution total target in
  0 <= total <= 2 ^ 51 ->
  (0 <= easy ratios)%Q -> (0 <= medium ratios)%Q -> (0 <= hard ratios)%Q ->
  (ratio_sum ratios == 1)%Q ->
  d = spec_target_distribution total ratios /\
  easy d = Qfloor (fmul (float_of_int total) (easy ratios)) /\
  medium d = Qfloor (fmul (float_of_int total) (medium ratios)) /\
  hard d = total - easy d - medium d /\
  easy d + medium d + hard d = total /\
  0 <= easy d /\ 0 <= medium d /\ 0 <= hard d.
Proof.
  intros total target ratios d HT He Hm Hh Hs.
  assert (B : - 2 ^ 53 < total < 2 ^ 53) by lia.
  assert (HT0 : (0 <= inject_Z total)%Q) by (apply inject_Z_nonneg; lia).
  assert (Ne : (0 <= fmul (float_of_int total) (easy ratios))%Q).
  { rewrite (fmul_int _ _ B). apply rnd_nonneg. now apply Qmult_le_0_compat. }
  assert (Nm : (0 <= fmul (float_of_int total) (medium ratios))%Q).
  { rewrite (fmul_int _ _ B). apply rnd_nonneg. now apply Qmult_le_0_compat. }
  assert (Ee : easy d = Qfloor (fmul (float_of_int total) (easy ratios))).
  { unfold d, calculate_difficulty_distribution. fold ratios. cbn [easy].
    now apply int_of_float_floor. }
  assert (Em : medium d = Qfloor (fmul (float_of_int total) (medium ratios))).
  { unfold d, calculate_difficulty_distribution. fold ratios. cbn [medium].
    now apply int_of_float_floor. }
  assert (Eh : hard d = total - easy d - medium d) by reflexivity.
  pose proof (floors_fit total _ _ _ HT He Hm Hh Hs) as F.
  rewrite <- !(fmul_int _ _ B), <- Ee, <- Em in F.
  split.
  { unfold spec_target_distribution. rewrite <- Ee, <- Em. reflexivity. }
  repeat split; try assumption; try lia.
  - rewrite Ee. now apply Qfloor_nonneg.
  - rewrite Em. now apply Qfloor_nonneg.
Qed.

(** Six questions under the default ratio. *)
Lemma difficulty_distribution_sums_witness :
  let d := calculate_difficulty_distribution 6 None in
  d = spec_target_distribution 6 default_target_distribution /\
  easy d = Qfloor (fmul (float_of_int 6) (easy default_target_distribution)) /\
  medium d = Qfloor (fmul (float_of_int 6) (medium default_target_distribution)) /\
  hard d = 6 - easy d - medium d /\
  easy d + medium d + hard d = 6 /\
  0 <= easy d /\ 0 <= medium d /\ 0 <= hard d.
Proof.
  apply (difficulty_distribution_sums 6 None).
  - lia.
  - apply Qle_bool_iff. vm_compute. reflexivity.
  - apply Qle_bool_iff. vm_compute. reflexivity.
  - apply Qle_bool_iff. vm_compute. reflexivity.
  - apply Qeq_bool_iff. vm_compute. reflexivity.
Defined.

End DistributionFacts.

(** * Counting a question set *)
Module CountFacts.
Import PyStr PyStrFacts Py Float64 Float64Facts QAGen Adjuster AdjusterAdvice.
Local Open Scope Z_scope.

Lemma count_fold (questions : list any_question) :
  forall (c : per_level Z) (level : DifficultyLevel),
  get (fold_left count_step questions c) level
  = get c level + len (filter (counts_as level) questions).
Proof.
  induction questions as [|q questions IH]; intros c level; cbn [fold_left filter].
  - cbn. lia.
  - rewrite IH. destruct q as [|d|]; destruct level; try destruct d;
      cbn [count_step counts_as level_eqb get set easy medium hard];
      rewrite ?len_cons; lia.
Qed.

Lemma report_counts (questions : list any_question) (level : DifficultyLevel) :
  get (br_difficulty_counts (validate_difficulty_balance questions)) level
  = len (filter (counts_as level) questions).
Proof.
  unfold validate_difficulty_balance. cbn [br_difficulty_counts].
  rewrite count_fold. now destruct level.
Qed.

Lemma ratios_of_counts (questions : list any_question) :
  let r := validate_difficulty_balance questions in
  br_balance_score r
  = _calculate_balance_score (fun level => Some (get (br_difficulty_ratios r) level)) /\
  br_is_balanced r = Qle_bool (rnd (7 # 10)) (br_balance_score r) /\
  br_difficulty_ratios r
  = {| easy := if 0 <? len questions
               then int_truediv (len (filter (counts_as EASY) questions)) (len questions)
               else 0%Q;
       medium := if 0 <? len questions
                 then int_truediv (len (filter (counts_as MEDIUM) questions)) (len questions)
                 else 0%Q;
       hard := if 0 <? len questions
               then int_truediv (len (filter (counts_as HARD) questions)) (len questions)
               else 0%Q |}.
Proof.
  intros r. unfold r, validate_difficulty_balance.
  cbn [br_balance_score br_is_balanced br_difficulty_ratios].
  split; [reflexivity|]. split; [reflexivity|].
  pose proof (count_fold questions {| easy := 0; medium := 0; hard := 0 |}) as C.
  pose proof (C EASY) as CE. pose proof (C MEDIUM) as CM. pose proof (C HARD) as CH.
  cbn [get easy medium hard] in CE, CM, CH. rewrite CE, CM, CH. reflexivity.
Qed.

End CountFacts.

(** * Balance score *)
Module BalanceFacts.
Import PyStr PyStrFacts Float64 Float64Facts QAGen Adjuster AdjusterAdvice CountFacts.
Local Open Scope Q_scope.

Lemma score_unfold (ratios : DifficultyLevel -> option float) :
  _calculate_balance_score ratios =
  max0 (fsub (float_of_int 1)
          (fmul (fdiv (fadd (fadd (fadd 0 (deviation ratios EASY)) (deviation ratios MEDIUM))
                         (deviation ratios HARD))
                      (float_of_int 3))
                (float_of_int 2))).
Proof. reflexivity. Qed.

Lemma deviation_nonneg ratios level : 0 <= deviation ratios level.
Proof. apply Qabs_nonneg. Qed.

Lemma deviation_exact ratios level : rnd (deviation ratios level) == deviation ratios level.
Proof. apply rnd_abs. Qed.

Lemma three_exact : float_of_int 3 == 3.
Proof. apply (rnd_int 3). split; reflexivity. Qed.

Lemma two_exact : float_of_int 2 == 2.
Proof. apply (rnd_int 2). split; reflexivity. Qed.

Lemma one_exact : float_of_int 1 == 1.
Proof. apply (rnd_int 1). split; reflexivity. Qed.

Lemma score_refines (ratios : DifficultyLevel -> option float) :
  _calculate_balance_score ratios = spec_balance_score ratios.
Proof.
  rewrite score_unfold. unfold spec_balance_score, spec_mean_deviation.
  f_equal. unfold fsub. apply rnd_comp. apply Qplus_comp; [reflexivity|]. apply Qopp_comp.
  assert (S : fadd (fadd (fadd 0 (deviation ratios EASY)) (deviation ratios MEDIUM))
                (deviation ratios HARD)
              = fadd (fadd (deviation ratios EASY) (deviation ratios MEDIUM))
                  (deviation ratios HARD)).
  { unfold fadd. apply rnd_comp. apply Qplus_comp; [|reflexivity].
    assert (E : rnd (0 + deviation ratios EASY) + deviation ratios MEDIUM
                == deviation ratios EASY + deviation ratios MEDIUM).
    { assert (E0 : 0 + deviation ratios EASY == deviation ratios EASY) by ring.
      rewrite (rnd_comp _ _ E0), deviation_exact. reflexivity. }
    now rewrite (rnd_comp _ _ E). }
  rewrite S. unfold fmul. rewrite (rnd_comp _ _ (Qmult_comm _ _)). reflexivity.
Qed.

(** The mean of three non-negative doubles is non-negative, and at least a third
    of the last one but for three roundings. *)
Lemma mean_bounds (d1 d2 d3 : Q) :
  0 <= d1 -> 0 <= d2 -> 0 <= d3 ->
  let m := fdiv (fadd (fadd d1 d2) d3) (float_of_int 3) in
  0 <= m /\ d3 * (1 - u53) * (1 - u53) / 3 <= m.
Proof.
  intros H1 H2 H3 m. unfold m, fdiv, fadd.
  assert (A : 0 <= rnd (d1 + d2)) by (apply rnd_nonneg; lra).
  assert (B0 : 0 <= rnd (d1 + d2) + d3) by lra.
  destruct (rnd_err _ B0) as [B _].
  set (s := rnd (rnd (d1 + d2) + d3)) in *.
  assert (Hs : 0 <= s) by (now apply rnd_nonneg).
  assert (E : s / float_of_int 3 == s / 3) by (now rewrite three_exact).
  rewrite (rnd_comp _ _ E).
  assert (C0 : 0 <= s / 3) by (apply Qle_shift_div_l; lra).
  destruct (rnd_err _ C0) as [C _]. split; [now apply rnd_nonneg|].
  unfold u53 in *.
  assert (D : s / 3 == s * (1 # 3)) by (field).
  set (r := rnd (s / 3)) in *. clearbody r.
  rewrite D in C. clear E D C0. clearbody s.
  assert (F : d3 * (1 - (1 # 9007199254740992)) * (1 - (1 # 9007199254740992)) / 3
              == d3 * (1 - (1 # 9007199254740992)) * (1 - (1 # 9007199254740992)) * (1 # 3))
    by field.
  rewrite F. lra.
Qed.

Lemma score_range (ratios : DifficultyLevel -> option float) :
  0 <= _calculate_balance_score ratios <= 1.
Proof.
  rewrite score_refines. unfold spec_balance_score, max0.
  set (v := fsub _ _). destruct (Qle_bool v 0) eqn:E; [split; lra|].
  assert (Hv : 0 < v).
  { apply Qnot_le_lt. intros C. apply Qle_bool_iff in C. congruence. }
  split; [lra|]. unfold v, fsub. apply (rnd_le_int _ 1); [|split; reflexivity].
  change (inject_Z 1) with 1.
  assert (M : 0 <= spec_mean_deviation ratios).
  { apply mean_bounds; apply deviation_nonneg. }
  assert (Y : 0 <= fmul (float_of_int 2) (spec_mean_deviation ratios)).
  { apply rnd_nonneg. rewrite two_exact. lra. }
  pose proof one_exact as O1. lra.
Qed.

Lemma score_ideal : _calculate_balance_score (fun level => Some (get ideal_ratios level)) == 1.
Proof. apply Qeq_bool_iff. vm_compute. reflexivity. Qed.

Lemma score_without_hard (ratios : DifficultyLevel -> option float) :
  observed ratios HARD == 0 -> _calculate_balance_score ratios < 1.
Proof.
  intros H0. rewrite score_refines. unfold spec_balance_score, max0.
  set (v := fsub _ _). destruct (Qle_bool v 0) eqn:E; [lra|].
  unfold v, fsub. pose proof one_exact as O1.
  assert (D3 : deviation ratios HARD == 3602879701896397 # 18014398509481984).
  { unfold deviation, fabs, fsub.
    assert (Z : observed ratios HARD - get ideal_ratios HARD == 0 - get ideal_ratios HARD)
      by (now rewrite H0).
    rewrite (rnd_comp _ _ Z). apply Qeq_bool_iff. vm_compute. reflexivity. }
  destruct (mean_bounds _ _ _ (deviation_nonneg ratios EASY) (deviation_nonneg ratios MEDIUM)
              (deviation_nonneg ratios HARD)) as [M0 M1].
  fold (spec_mean_deviation ratios) in M0, M1. rewrite D3 in M1.
  set (m := spec_mean_deviation ratios) in *.
  assert (E2 : fmul (float_of_int 2) m = rnd (2 * m))
    by (apply rnd_comp; now rewrite two_exact).
  rewrite E2. clear E2.
  assert (Y0 : 0 <= 2 * m) by lra.
  destruct (rnd_err _ Y0) as [Y _]. set (y := rnd (2 * m)) in *.
  unfold u53 in *.
  assert (M1' : (3602879701896397 # 18014398509481984) * (1 - (1 # 9007199254740992))
                * (1 - (1 # 9007199254740992)) * (1 # 3) <= m).
  { eapply Qle_trans; [|exact M1]. apply Qle_lteq. right. field. }
  clearbody y m. clear M1 D3 E v.
  assert (O : float_of_int 1 - y == 1 - y) by (now rewrite O1).
  rewrite (rnd_comp _ _ O).
  destruct (Qlt_le_dec (1 - y) 0) as [N|N].
  - pose proof (rnd_nonpos (1 - y)). lra.
  - destruct (rnd_err _ N) as [_ U]. unfold u53 in U. lra.
Qed.

Lemma hard_count (questions : list any_question) (c : per_level Z) :
  ~ In (Difficulty HARD) questions -> hard (fold_left count_step questions c) = hard c.
Proof.
  revert c. induction questions as [|q questions IH]; intros c N; cbn [fold_left].
  - reflexivity.
  - rewrite IH by (intros I; apply N; now right).
    destruct q as [|[]|]; cbn; try reflexivity. exfalso. apply N. now left.
Qed.

Lemma score_ext (f g : DifficultyLevel -> option float) :
  (forall level, f level = g level) ->
  _calculate_balance_score f = _calculate_balance_score g.
Proof.
  intros H. rewrite !score_unfold. unfold deviation, observed. now rewrite !H.
Qed.

(** C9. The balance score is the formula of the specification evaluated in double
    arithmetic: zero or, when larger, one minus twice the mean of the three absolute
    deviations of the observed ratios from 0.4, 0.4 and 0.2. It lies between 0 and 1
    for every ratio mapping; it is exactly 1 on the ideal ratios; it is strictly
    below 1 whenever the hard ratio is 0, whatever the other two are, hence for every
    question set without a hard question. The observed ratios of a question set are
    its counts per level (a question without a difficulty counting as medium) over
    its size, and 0 for the empty set; the score reported for the set is the score
    of these ratios, and the set is reported balanced exactly when that score is at
    least the double 0.7. So two easy, two medium and one hard question are balanced
    with score 1, and three easy and one medium question are not. *)
Theorem balance_score_properties :
  (forall ratios, _calculate_balance_score ratios = spec_balance_score ratios) /\
  (forall ratios, 0 <= _calculate_balance_score ratios <= 1) /\
  _calculate_balance_score (fun level => Some (get ideal_ratios level)) == 1 /\
  (forall ratios, observed ratios HARD == 0 -> _calculate_balance_score ratios < 1) /\
  (forall questions,
     let r := validate_difficulty_balance questions in
     let ratio := fun level =>
       if (0 <? len questions)%Z
       then int_truediv (len (filter (counts_as level) questions)) (len questions)
       else 0 in
     br_total_questions r = len questions /\
     (forall level,
        get (br_difficulty_counts r) level = len (filter (counts_as level) questions)) /\
     (forall level, get (br_difficulty_ratios r) level = ratio level) /\
     br_balance_score r = spec_balance_score (fun level => Some (ratio level)) /\
     br_balance_score r =
       _calculate_balance_score (fun level => Some (get (br_difficulty_ratios r) level)) /\
     (br_is_balanced r = true <-> rnd (7 # 10) <= br_balance_score r) /\
     (br_is_balanced r = true <->
      rnd (7 # 10) <= spec_balance_score (fun level => Some (ratio level))) /\
     (~ In (Difficulty HARD) questions -> br_balance_score r < 1)) /\
  br_is_balanced
    (validate_difficulty_balance
       [Difficulty EASY; Difficulty MEDIUM; Difficulty HARD; NoDifficulty; Difficulty EASY])
  = true /\
  br_balance_score
    (validate_difficulty_balance
       [Difficulty EASY; Difficulty MEDIUM; Difficulty HARD; NoDifficulty; Difficulty EASY])
  == 1 /\
  br_is_balanced
    (validate_difficulty_balance
       [Difficulty EASY; Difficulty EASY; Difficulty EASY; Difficulty MEDIUM])
  = false /\
  br_is_balanced (validate_difficulty_balance []) = false.
Proof.
  split; [exact score_refines|]. split; [exact score_range|].
  split; [exact score_ideal|]. split; [exact score_without_hard|].
  split.
  - intros questions r ratio.
    destruct (ratios_of_counts questions) as (S & B & R). fold r in S, B, R.
    assert (Rl : forall level, get (br_difficulty_ratios r) level = ratio level).
    { intros level. rewrite R. now destruct level. }
    assert (Sc : br_balance_score r = spec_balance_score (fun level => Some (ratio level))).
    { rewrite S, <- score_refines. apply score_ext. intros level. now rewrite Rl. }
    assert (Bl : br_is_balanced r = true <-> rnd (7 # 10) <= br_balance_score r).
    { rewrite B. set (sc := br_balance_score r). set (th := rnd (7 # 10)). clearbody sc th.
      apply Qle_bool_iff. }
    split; [reflexivity|]. split; [intros level; apply report_counts|].
    split; [exact Rl|]. split; [exact Sc|]. split; [exact S|]. split; [exact Bl|].
    split; [now rewrite <- Sc|].
    intros N. unfold r, validate_difficulty_balance. cbn [br_balance_score].
    apply score_without_hard. unfold observed. cbn [get hard].
    rewrite (hard_count _ _ N). cbn [hard].
    destruct (0 <? len questions)%Z; [|reflexivity].
    unfold int_truediv. rewrite rnd_eq0; [reflexivity|].
    unfold Qdiv. change (inject_Z 0) with 0. ring.
  - split; [vm_compute; reflexivity|]. split; [apply Qeq_bool_iff; vm_compute; reflexivity|].
    split; vm_compute; reflexivity.
Qed.

End BalanceFacts.

(** * Grading of answers *)
Module GradingFacts.
Import PyStr PyStrFacts Float64 Float64Facts QAGen Adjuster Questions.
Local Open Scope Z_scope.

Lemma Qle_bool_ext (a b c d : Q) :
  ((a <= b)%Q <-> (c <= d)%Q) -> Qle_bool a b = Qle_bool c d.
Proof.
  intros H. destruct (Qle_bool a b) eqn:E1, (Qle_bool c d) eqn:E2; try reflexivity.
  - apply Qle_bool_iff, H, Qle_bool_iff in E1. congruence.
  - apply Qle_bool_iff, H, Qle_bool_iff in E2. congruence.
Qed.

(** Half the keywords: the double product is exact. *)
Lemma half_threshold (n m : Z) :
  0 <= n <= 2 ^ 50 ->
  Qle_bool (fmul (float_of_int n) (rnd (5 # 10))) (inject_Z m)
  = Qle_bool (inject_Z n * (5 # 10)) (inject_Z m).
Proof.
  intros B. apply Qle_bool_ext.
  assert (E : (fmul (float_of_int n) (rnd (5 # 10)) == inject_Z n * (5 # 10))%Q).
  { unfold fmul.
    assert (E1 : (float_of_int n * rnd (5 # 10) == inject_Z n * pow2 (-1))%Q).
    { rewrite (rnd_int n) by lia. apply Qmult_comp; [reflexivity|].
      apply Qeq_bool_iff. vm_compute. reflexivity. }
    rewrite (rnd_comp _ _ E1), rnd_dyadic by lia.
    apply Qmult_comp; [reflexivity|]. apply Qeq_bool_iff. vm_compute. reflexivity. }
  now rewrite E.
Qed.

Lemma essay_gap (N M p : Q) :
  (0 <= N)%Q -> (N <= 1125899906842624)%Q ->
  (N * (5404319552844595 # 18014398509481984) * (1 - (1 # 9007199254740992)) <= p)%Q ->
  (p <= M)%Q -> (10 * M + 1 <= 3 * N)%Q -> False.
Proof. intros. lra. Qed.

(** Three tenths of the keywords: the double product may be off in its last bit,
    and still sorts every integer on the same side as the exact one. *)
Lemma essay_threshold (n m : Z) :
  0 <= n <= 2 ^ 50 -> 0 <= m <= n ->
  Qle_bool (max1 (fmul (float_of_int n) (rnd (3 # 10)))) (inject_Z m)
  = Qle_bool (Qmax 1 (inject_Z n * (3 # 10))) (inject_Z m).
Proof.
  intros B Hm. apply Qle_bool_ext.
  set (p := fmul (float_of_int n) (rnd (3 # 10))).
  assert (Ep : p = rnd (inject_Z n * (5404319552844595 # 18014398509481984))%Q).
  { unfold p, fmul. apply rnd_comp. rewrite (rnd_int n) by lia.
    apply Qmult_comp; [reflexivity|]. apply Qeq_bool_iff. vm_compute. reflexivity. }
  assert (N0 : (0 <= inject_Z n)%Q) by (apply inject_Z_nonneg; lia).
  assert (N1 : (inject_Z n <= 1125899906842624)%Q) by (apply (inject_Z_le n (2 ^ 50)); lia).
  assert (X0 : (0 <= inject_Z n * (5404319552844595 # 18014398509481984))%Q) by lra.
  destruct (rnd_err _ X0) as [L _]. rewrite <- Ep in L. unfold u53 in L.
  clearbody p.
  assert (K : (p <= inject_Z m)%Q <-> (inject_Z n * (3 # 10) <= inject_Z m)%Q).
  { split; intros H.
    - destruct (Z.le_gt_cases (3 * n) (10 * m)) as [C|C].
      + apply inject_Z_le in C. rewrite !inject_Z_mult in C.
        change (inject_Z 3) with 3%Q in C. change (inject_Z 10) with 10%Q in C.
        set (N := inject_Z n) in *. set (M := inject_Z m) in *. clearbody N M. lra.
      + assert (C' : 10 * m + 1 <= 3 * n) by lia.
        apply inject_Z_le in C'. rewrite inject_Z_plus, !inject_Z_mult in C'.
        change (inject_Z 3) with 3%Q in C'. change (inject_Z 10) with 10%Q in C'.
        change (inject_Z 1) with 1%Q in C'.
        exfalso. exact (essay_gap _ _ _ N0 N1 L H C').
    - rewrite Ep. apply rnd_le_int; [|lia]. clear L Ep. clear p.
      set (N := inject_Z n) in *. set (M := inject_Z m) in *. clearbody N M. lra. }
  unfold max1. rewrite Q.max_lub_iff.
  destruct (Qle_bool p 1) eqn:E1.
  - apply Qle_bool_iff in E1. split.
    + intros H. split; [exact H|]. apply K. lra.
    + intros [H _]. exact H.
  - assert (E1' : (1 < p)%Q).
    { apply Qnot_le_lt. intros C. apply Qle_bool_iff in C. congruence. }
    split.
    + intros H. split; [lra | now apply K].
    + intros [_ H]. now apply K.
Qed.

Lemma evaluate_refines (question : Question) (response : text) :
  len (get_keywords_list question) <= 2 ^ 50 ->
  _evaluate_answer question response = spec_evaluate question response.
Proof.
  intros B. unfold _evaluate_answer, spec_evaluate, keywords_truthy, get_keywords_list,
    count_matches, spec_hits, normalized in *.
  destruct (q_question_type question); try reflexivity.
  - destruct (q_keywords question) as [[|k l]|]; try reflexivity.
    rewrite filter_map_len, len_map.
    pose proof (len_nonneg (k :: l)).
    pose proof (len_filter_le (fun x => contains (lower x) (lower (strip response))) (k :: l)).
    rewrite essay_threshold by lia. reflexivity.
  - destruct (q_keywords question) as [[|k l]|]; try reflexivity.
    rewrite filter_map_len, len_map.
    pose proof (len_nonneg (k :: l)).
    rewrite half_threshold by lia. reflexivity.
Qed.


(** C4. For a question whose keyword list a machine can hold (at most 2^50
    entries), the evaluator follows the stated policy. Choice questions: the
    trimmed, lower-cased response equals the trimmed, lower-cased correct answer.
    Short answer with keywords: the number of keywords found, letter case apart,
    in the response is at least half their number, compared as real numbers;
    without keywords: the normalized correct answer occurs in the normalized
    response or the other way round. Essay with keywords: the number found is at
    least the larger of 1 and three tenths of their number; without keywords: the
    trimmed response has 50 characters or more. The score is 100 on a correct
    answer and 0 otherwise. So " Paris " answers "paris", one keyword of two
    passes and one of three fails. *)
Theorem answer_evaluation_policy :
  forall (question : Question) (response : text),
  len (get_keywords_list question) <= 2 ^ 50 ->
  _evaluate_answer question response = spec_evaluate question response /\
  score_of (_evaluate_answer question response)
    = (if spec_evaluate question response then 100%Q else 0%Q) /\
  _evaluate_answer (sample_q MULTIPLE_CHOICE "paris" None) (text_of_string " Paris ") = true /\
  _evaluate_answer (sample_q SINGLE_CHOICE "paris" None) (text_of_string "Lyon") = false /\
  _evaluate_answer (sample_q SHORT_ANSWER "atp" (Some ["mitochondria"; "energy"]%string))
    (text_of_string "The Mitochondria does it") = true /\
  _evaluate_answer (sample_q SHORT_ANSWER "atp" (Some ["mitochondria"; "energy"]%string))
    (text_of_string "No idea") = false /\
  _evaluate_answer (sample_q SHORT_ANSWER "atp" (Some ["mitochondria"; "energy"; "cell"]%string))
    (text_of_string "The Mitochondria does it") = false /\
  _evaluate_answer (sample_q ESSAY "see rubric" (Some ["mitochondria"; "energy"; "cell"]%string))
    (text_of_string "energy") = true /\
  _evaluate_answer (sample_q ESSAY "see rubric" (Some ["a"; "b"; "c"; "d"]%string))
    (text_of_string "a") = false /\
  _evaluate_answer (sample_q ESSAY "see rubric" None) (text_of_string fifty_chars) = true /\
  _evaluate_answer (sample_q ESSAY "see rubric" None) (text_of_string "too short") = false.
Proof.
  intros question response B.
  split; [now apply evaluate_refines|].
  split; [now rewrite evaluate_refines|].
  repeat split; vm_compute; reflexivity.
Qed.

(** One keyword of two, found in another letter case. *)
Lemma answer_evaluation_policy_witness :
  let question := sample_q SHORT_ANSWER "atp" (Some ["mitochondria"; "energy"]%string) in
  let response := text_of_string "The Mitochondria does it" in
  _evaluate_answer question response = spec_evaluate question response /\
  score_of (_evaluate_answer question response) = 100%Q.
Proof.
  cbv zeta.
  pose proof (answer_evaluation_policy
                (sample_q SHORT_ANSWER "atp" (Some ["mitochondria"; "energy"]%string))
                (text_of_string "The Mitochondria does it")) as W.
  assert (B : len (get_keywords_list
                     (sample_q SHORT_ANSWER "atp" (Some ["mitochondria"; "energy"]%string))) <= 2 ^ 50)
    by (vm_compute; discriminate).
  destruct (W B) as (W1 & W2 & _). split; [exact W1|]. rewrite W2. vm_compute. reflexivity.
Defined.

(** C10. A short-answer question with no keywords (an absent or an empty list)
    whose correct answer is empty once trimmed accepts every response, the empty
    one included, and scores it 100: the empty text occurs in every text. *)
Theorem empty_answer_accepts_all :
  forall (question : Question) (response : text),
  q_question_type question = SHORT_ANSWER ->
  q_keywords question = None \/ q_keywords question = Some [] ->
  strip (q_correct_answer question) = [] ->
  _evaluate_answer question response = true /\
  score_of (_evaluate_answer question response) = 100%Q.
Proof.
  intros question response T K S.
  assert (E : _evaluate_answer question response = true).
  { unfold _evaluate_answer, keywords_truthy. rewrite T, S.
    destruct K as [-> | ->]; cbn [lower map]; now rewrite contains_nil. }
  now rewrite E.
Qed.

(** A blank correct answer against the empty response. *)
Lemma empty_answer_accepts_all_witness :
  _evaluate_answer (sample_q SHORT_ANSWER "  " (Some [])) [] = true /\
  score_of (_evaluate_answer (sample_q SHORT_ANSWER "  " (Some [])) []) = 100%Q.
Proof.
  apply (empty_answer_accepts_all (sample_q SHORT_ANSWER "  " (Some [])) []).
  - reflexivity.
  - right. reflexivity.
  - reflexivity.
Defined.

End GradingFacts.

(** * Rolling correct rate *)
Module RateFacts.
Import PyStr PyStrFacts Float64 Float64Facts QAGen Adjuster Questions.
Local Open Scope Z_scope.

(** The stored percentage against the exact quotient: never above its floor, and
    below it by one at most. *)
Lemma rate_bounds (c t : Z) :
  0 <= c <= t -> 0 < t <= 2 ^ 40 ->
  let rate := int_of_float (fmul (int_truediv c t) (float_of_int 100)) in
  100 * c / t - 1 <= rate <= 100 * c / t.
Proof.
  intros [C0 C1] [T0 T1] rate.
  set (K := 100 * c / t).
  pose proof (Z.div_mod (100 * c) t ltac:(lia)) as DM. fold K in DM.
  pose proof (Z.mod_pos_bound (100 * c) t T0) as [R0 R1].
  set (rem := (100 * c) mod t) in *.
  assert (K0 : 0 <= K) by (apply Z.div_pos; lia).
  assert (K1 : K <= 100) by (apply Z.div_le_upper_bound; lia).
  set (x := (inject_Z c / inject_Z t)%Q).
  assert (Ht : (0 < inject_Z t)%Q) by (change 0%Q with (inject_Z 0); now rewrite <- Zlt_Qlt).
  assert (X0 : (0 <= x)%Q).
  { unfold x. apply Qle_shift_div_l; [exact Ht|]. rewrite Qmult_0_l. now apply inject_Z_nonneg. }
  (* 100 x lies between K and K + 1 - 2^-40 *)
  assert (XK : (inject_Z K <= 100 * x)%Q /\
               (100 * x <= inject_Z K + 1 - (1 # 1099511627776))%Q).
  { assert (E : (100 * x == inject_Z K + inject_Z rem / inject_Z t)%Q).
    { assert (E1 : (100 * inject_Z c == inject_Z t * inject_Z K + inject_Z rem)%Q).
      { change 100%Q with (inject_Z 100).
        rewrite <- !inject_Z_mult, <- inject_Z_plus. now rewrite <- DM. }
      unfold x.
      assert (E2 : (100 * (inject_Z c / inject_Z t) == (100 * inject_Z c) / inject_Z t)%Q)
        by (field; lra).
      rewrite E2, E1. field. lra. }
    assert (W0 : (0 <= inject_Z rem / inject_Z t)%Q).
    { apply Qle_shift_div_l; [exact Ht|]. rewrite Qmult_0_l. now apply inject_Z_nonneg. }
    assert (W1 : (inject_Z rem / inject_Z t <= 1 - (1 # 1099511627776))%Q).
    { apply Qle_shift_div_r; [exact Ht|].
      assert (A : (inject_Z rem <= inject_Z (t - 1))%Q) by (apply inject_Z_le; lia).
      unfold Z.sub in A. rewrite inject_Z_plus in A. change (inject_Z (- (1))) with (- (1))%Q in A.
      assert (B : (inject_Z t <= 1099511627776)%Q) by (apply (inject_Z_le t (2 ^ 40)); lia).
      lra. }
    rewrite E. split; lra. }
  destruct XK as [XK0 XK1].
  assert (KQ : (inject_Z K <= 100)%Q) by (apply (inject_Z_le K 100); lia).
  destruct (rnd_err x X0) as [D0 D1]. fold x in D0, D1.
  assert (Ed : int_truediv c t = rnd x) by reflexivity.
  assert (Ep : fmul (int_truediv c t) (float_of_int 100) = rnd (rnd x * 100)%Q).
  { rewrite Ed. unfold fmul. apply rnd_comp. rewrite (rnd_int 100) by lia. reflexivity. }
  assert (P0 : (0 <= rnd x * 100)%Q) by (pose proof (rnd_nonneg x X0); lra).
  destruct (rnd_err _ P0) as [Q0 Q1].
  assert (N : (0 <= rnd (rnd x * 100))%Q) by now apply rnd_nonneg.
  unfold rate. rewrite Ep, (int_of_float_floor _ N).
  pose proof (Qfloor_le (rnd (rnd x * 100))) as F0.
  pose proof (Qlt_floor (rnd (rnd x * 100))) as F1.
  rewrite inject_Z_plus in F1. change (inject_Z 1) with 1%Q in F1.
  unfold u53 in *.
  set (r := rnd (rnd x * 100)) in *. set (d := rnd x) in *.
  set (f := Qfloor r) in *. clearbody r d f. clear Ed Ep.
  assert (G1 : (inject_Z f < inject_Z (K + 1))%Q).
  { rewrite inject_Z_plus. change (inject_Z 1) with 1%Q.
    set (kq := inject_Z K) in *. set (fq := inject_Z f) in *. clearbody kq fq x. lra. }
  assert (G2 : (inject_Z (K - 2) < inject_Z f)%Q).
  { unfold Z.sub. rewrite inject_Z_plus. change (inject_Z (- (2))) with (- (2))%Q.
    set (kq := inject_Z K) in *. set (fq := inject_Z f) in *. clearbody kq fq x. lra. }
  rewrite <- Zlt_Qlt in G1, G2. lia.
Qed.


(** C5 (counterexample). With two correct answers among three of known
    correctness (a row of unknown correctness and a row of another question
    besides), the stored rate is 66, and rounding 200/3 gives 67. *)
Lemma correct_rate_counterexample :
  let q := sample_q SHORT_ANSWER "atp" None in
  let rows := [ sample_row 1 (Some true); sample_row 1 None; sample_row 1 (Some false);
                sample_row 2 (Some true); sample_row 1 (Some true) ] in
  q_correct_rate (_update_correct_rate q rows) = Some 66 /\
  py_round (100 * 2 / 3)%Q = 67 /\
  q_correct_rate (_update_correct_rate q rows) <> Some (py_round (100 * 2 / 3)%Q).
Proof. vm_compute. repeat split; discriminate. Qed.

(** C5 (amended). The update sets the question's rate from all the rows of that
    question whose correctness is known, among those the query returns: with [c]
    correct ones out of [t], at most 2^40, the stored rate is the percentage
    (c / t) * 100 computed in double arithmetic and truncated, not rounded: it
    never exceeds the floor of 100 c / t and is at most one below it. With no such
    row the question is left as it was. So 2 correct of 3 store 66, and 29 of 100
    store 28. *)
Theorem correct_rate_truncates :
  forall (question : Question) (rows : list StudentResponse),
  let known := filter (fun r => (r_question_id r =? q_id question)
                                && is_known (r_is_correct r)) rows in
  let c := len (filter (fun r => is_true (r_is_correct r)) known) in
  let t := len known in
  t <= 2 ^ 40 ->
  (t = 0 -> _update_correct_rate question rows = question) /\
  (0 < t ->
   exists rate,
     q_correct_rate (_update_correct_rate question rows) = Some rate /\
     rate = int_of_float (fmul (int_truediv c t) (float_of_int 100)) /\
     100 * c / t - 1 <= rate <= 100 * c / t /\
     0 <= rate <= 100) /\
  q_id (_update_correct_rate question rows) = q_id question /\
  q_correct_answer (_update_correct_rate question rows) = q_correct_answer question /\
  q_keywords (_update_correct_rate question rows) = q_keywords question /\
  q_correct_rate
    (_update_correct_rate (sample_q SHORT_ANSWER "atp" None)
       (repeat (sample_row 1 (Some true)) 2 ++ [sample_row 1 (Some false)])) = Some 66 /\
  q_correct_rate
    (_update_correct_rate (sample_q SHORT_ANSWER "atp" None)
       (repeat (sample_row 1 (Some true)) 29 ++ repeat (sample_row 1 (Some false)) 71))
    = Some 28.
Proof.
  intros question rows known c t B.
  assert (C : 0 <= c <= t) by apply len_filter_le.
  assert (U : _update_correct_rate question rows =
              match known with
              | [] => question
              | _ :: _ =>
                  {| q_id := q_id question;
                     q_question_type := q_question_type question;
                     q_correct_answer := q_correct_answer question;
                     q_keywords := q_keywords question;
                     q_usage_count := q_usage_count question;
                     q_correct_rate :=
                       Some (int_of_float (fmul (int_truediv c t) (float_of_int 100))) |}
              end) by reflexivity.
  rewrite U. clear U.
  assert (Tdef : t = len known) by reflexivity.
  clearbody c t. clearbody known.
  split; [|split].
  - intros T0. destruct known; [reflexivity|]. rewrite len_cons in Tdef.
    pose proof (len_nonneg known). lia.
  - intros T0. destruct known as [|k known']; [cbn in Tdef; lia|].
    cbn [q_correct_rate].
    exists (int_of_float (fmul (int_truediv c t) (float_of_int 100))).
    split; [reflexivity|]. split; [reflexivity|].
    pose proof (rate_bounds c t C (conj T0 B)) as R. cbv zeta in R. split; [exact R|].
    assert (K1 : 100 * c / t <= 100) by (apply Z.div_le_upper_bound; lia).
    split; [|lia].
    assert (X0 : (0 <= inject_Z c / inject_Z t)%Q).
    { apply Qle_shift_div_l.
      - change 0%Q with (inject_Z 0). rewrite <- Zlt_Qlt. lia.
      - rewrite Qmult_0_l. apply inject_Z_nonneg. lia. }
    rewrite int_of_float_floor; [apply Qfloor_nonneg|];
      apply rnd_nonneg; apply Qmult_le_0_compat;
      try (unfold int_truediv; now apply rnd_nonneg);
      apply rnd_nonneg; apply inject_Z_nonneg; lia.
  - destruct known; repeat split; vm_compute; reflexivity.
Qed.

(** Two correct answers of three. *)
Lemma correct_rate_truncates_witness :
  q_correct_rate
    (_update_correct_rate (sample_q SHORT_ANSWER "atp" None)
       [sample_row 1 (Some true); sample_row 1 (Some false); sample_row 1 (Some true)])
  = Some 66.
Proof.
  pose proof (correct_rate_truncates (sample_q SHORT_ANSWER "atp" None)
                [sample_row 1 (Some true); sample_row 1 (Some false); sample_row 1 (Some true)])
    as W.
  cbv zeta in W.
  assert (B : len (filter (fun r => (r_question_id r =? q_id (sample_q SHORT_ANSWER "atp" None))
                                    && is_known (r_is_correct r))
                     [sample_row 1 (Some true); sample_row 1 (Some false);
                      sample_row 1 (Some true)]) <= 2 ^ 40)
    by (vm_compute; discriminate).
  destruct (W B) as (_ & W2 & _).
  destruct W2 as (rate & R1 & R2 & _); [vm_compute; reflexivity|].
  rewrite R1, R2. vm_compute. reflexivity.
Defined.

End RateFacts.

(** * Learning trend *)
Module TrendFacts.
Import PyStr PyStrFacts Float64 Float64Facts QAGen Adjuster Questions Analytics.
Local Open Scope Z_scope.

Lemma batch_loop_done (fuel : nat) (l : list StudentResponse) (i : Z) (acc : list float) :
  len l <= i -> batch_loop fuel l i acc = acc.
Proof.
  intros H. destruct fuel; cbn [batch_loop]; [reflexivity|].
  destruct (Z.ltb_spec i (len l)); [lia | reflexivity].
Qed.

Lemma len_firstn_le {A} (n : nat) (l : list A) : len (firstn n l) <= Z.of_nat n.
Proof. unfold len. pose proof (firstn_le_length n l). lia. Qed.

Lemma len_skipn {A} (n : nat) (l : list A) : len (skipn n l) = Z.max 0 (len l - Z.of_nat n).
Proof. unfold len. rewrite length_skipn. lia. Qed.

(** The loop over the indices 0, 5, 10, ... collects the rates of the groups. *)
Lemma batch_loop_groups (fuel : nat) (l : list StudentResponse) :
  forall (i : nat) (acc : list float),
  batch_loop fuel l (Z.of_nat i) acc = acc ++ map float_rate (spec_groups fuel (skipn i l)).
Proof.
  induction fuel as [|fuel IH]; intros i acc; cbn [batch_loop spec_groups].
  - now rewrite app_nil_r.
  - rewrite Nat2Z.id. pose proof (len_skipn i l) as LS.
    destruct (Z.ltb_spec (Z.of_nat i) (len l)) as [H|H].
    + destruct (skipn i l) as [|x rem] eqn:E.
      { change (len (@nil StudentResponse)) with 0 in LS. lia. }
      rewrite <- E in *. set (g := firstn 5 (skipn i l)).
      assert (G5 : len g <= 5) by apply len_firstn_le.
      assert (LG : len g = Z.min 5 (len (skipn i l))).
      { unfold g, len. rewrite length_firstn. lia. }
      replace (Z.of_nat i + 5) with (Z.of_nat (i + 5)) by lia.
      destruct (Z.leb_spec 5 (len g)) as [F|F].
      * destruct (Z.leb_spec 3 (len g)); [|lia].
        rewrite IH, <- app_assoc. cbn [map app].
        replace (skipn (i + 5) l) with (skipn 5 (skipn i l)); [reflexivity|].
        rewrite skipn_skipn. f_equal. lia.
      * assert (D : len l <= Z.of_nat (i + 5)) by lia.
        destruct (Z.leb_spec 3 (len g)); rewrite (batch_loop_done _ _ _ _ D);
          cbn [map]; [reflexivity | now rewrite app_nil_r].
    + assert (E : skipn i l = []).
      { apply length_zero_iff_nil. rewrite length_skipn. unfold len in H. lia. }
      rewrite E. now rewrite app_nil_r.
Qed.

Lemma groups_sizes (fuel : nat) (l : list StudentResponse) :
  Forall (fun g => 3 <= len g <= 5) (spec_groups fuel l).
Proof.
  revert l. induction fuel as [|fuel IH]; intros l; cbn [spec_groups]; [constructor|].
  destruct l as [|x l]; [constructor|].
  set (g := firstn 5 (x :: l)). assert (G5 : len g <= 5) by apply len_firstn_le.
  destruct (Z.leb_spec 5 (len g)).
  - constructor; [lia | apply IH].
  - destruct (Z.leb_spec 3 (len g)); constructor; [lia | constructor].
Qed.

Lemma all_agree_true : all_agree = true.
Proof. vm_compute. reflexivity. Qed.

Lemma shape_listed (g : list StudentResponse) :
  3 <= len g <= 5 -> In (count_correct g, len g) group_shapes.
Proof.
  intros H. pose proof (len_filter_le (fun r => is_true (r_is_correct r)) g) as C.
  fold (count_correct g) in C. set (c := count_correct g) in *. set (n := len g) in *.
  clearbody c n.
  assert (N : n = 3 \/ n = 4 \/ n = 5) by lia.
  assert (K : c = 0 \/ c = 1 \/ c = 2 \/ c = 3 \/ c = 4 \/ c = 5) by lia.
  unfold group_shapes. cbn [In].
  destruct N as [-> | [-> | ->]];
    destruct K as [-> | [-> | [-> | [-> | [-> | ->]]]]]; try lia; tauto.
Qed.

Lemma groups_agree (g1 g2 : list StudentResponse) :
  3 <= len g1 <= 5 -> 3 <= len g2 <= 5 ->
  agree (count_correct g1) (len g1) (count_correct g2) (len g2) = true.
Proof.
  intros H1 H2. pose proof all_agree_true as A. unfold all_agree in A.
  rewrite forallb_forall in A. specialize (A _ (shape_listed g1 H1)).
  rewrite forallb_forall in A. exact (A _ (shape_listed g2 H2)).
Qed.

Lemma last_default {A} (x : A) (l : list A) (d d' : A) :
  List.last (x :: l) d = List.last (x :: l) d'.
Proof.
  revert x. induction l as [|y l IH]; intros x; [reflexivity|].
  change (List.last (x :: y :: l) d) with (List.last (y :: l) d).
  change (List.last (x :: y :: l) d') with (List.last (y :: l) d'). apply IH.
Qed.

Lemma last_map {A B} (f : A -> B) (l : list A) (a : A) (d : B) :
  List.last (map f (a :: l)) d = f (List.last (a :: l) a).
Proof.
  revert a. induction l as [|x l IH]; intros a; [reflexivity|].
  change (List.last (map f (a :: x :: l)) d) with (List.last (map f (x :: l)) d).
  change (List.last (a :: x :: l) a) with (List.last (x :: l) a).
  rewrite IH. f_equal. apply last_default.
Qed.

Lemma trend_refines (gs : list (list StudentResponse)) :
  Forall (fun g => 3 <= len g <= 5) gs ->
  trend_of_rates (map float_rate gs) = spec_trend (map spec_rate gs).
Proof.
  intros F. destruct gs as [|g1 [|g2 rest]]; [reflexivity | reflexivity|].
  unfold trend_of_rates, spec_trend.
  assert (L : (2 <=? len (map float_rate (g1 :: g2 :: rest))) = true).
  { apply Z.leb_le. cbn [map]. rewrite !len_cons. pose proof (len_nonneg (map float_rate rest)). lia. }
  rewrite L. cbn [map hd]. change (float_rate g1 :: float_rate g2 :: map float_rate rest)
    with (map float_rate (g1 :: g2 :: rest)).
  change (spec_rate g1 :: spec_rate g2 :: map spec_rate rest)
    with (map spec_rate (g1 :: g2 :: rest)).
  rewrite !last_map. set (gl := List.last (g1 :: g2 :: rest) g1).
  assert (I1 : 3 <= len g1 <= 5) by (now inversion F).
  assert (Il : 3 <= len gl <= 5).
  { rewrite Forall_forall in F. apply F. unfold gl.
    destruct (exists_last (l := g1 :: g2 :: rest) ltac:(discriminate)) as (l' & a & E).
    rewrite E, last_last. apply in_or_app. right. now left. }
  pose proof (groups_agree g1 gl I1 Il) as A. unfold agree in A.
  apply andb_true_iff in A. destruct A as [A1 A2].
  apply eqb_prop in A1. apply eqb_prop in A2.
  unfold float_rate, spec_rate. rewrite A1, A2. reflexivity.
Qed.

Lemma insert_perm (x : StudentResponse) (l : list StudentResponse) :
  Permutation (insert_by_time x l) (x :: l).
Proof.
  induction l as [|y l IH]; cbn [insert_by_time]; [reflexivity|].
  destruct (r_submitted_at x <=? r_submitted_at y); [reflexivity|].
  rewrite IH. apply perm_swap.
Qed.

Lemma sort_perm (l : list StudentResponse) : Permutation (sorted_by_time l) l.
Proof.
  induction l as [|x l IH]; cbn; [reflexivity|].
  fold (sorted_by_time l). rewrite insert_perm. now constructor.
Qed.

Lemma insert_sorted (x : StudentResponse) (l : list StudentResponse) :
  StronglySorted older_first l -> StronglySorted older_first (insert_by_time x l).
Proof.
  induction l as [|y l IH]; intros S; cbn [insert_by_time].
  - constructor; constructor.
  - apply StronglySorted_inv in S. destruct S as [S F].
    destruct (Z.leb_spec (r_submitted_at x) (r_submitted_at y)) as [H|H].
    + constructor; [constructor; assumption|]. constructor; [exact H|].
      eapply Forall_impl; [|exact F]. intros z Hz. unfold older_first in *. lia.
    + constructor; [now apply IH|].
      eapply Permutation_Forall; [symmetry; apply insert_perm|].
      constructor; [unfold older_first; lia | exact F].
Qed.

Lemma sort_sorted (l : list StudentResponse) : StronglySorted older_first (sorted_by_time l).
Proof.
  induction l as [|x l IH]; cbn; [constructor|]. fold (sorted_by_time l). now apply insert_sorted.
Qed.

(** In a list that runs from new to old, the first [n] are the [n] most recent. *)
Lemma head_is_newest (n : nat) (l : list StudentResponse) :
  StronglySorted newer_first l ->
  forall a b, In a (firstn n l) -> In b (skipn n l) -> r_submitted_at b <= r_submitted_at a.
Proof.
  revert l. induction n as [|n IH]; intros l S a b Ia Ib; [destruct Ia|].
  destruct l as [|x l]; [destruct Ia|]. cbn [firstn skipn] in *.
  apply StronglySorted_inv in S. destruct S as [S F]. destruct Ia as [->|Ia].
  - rewrite Forall_forall in F. apply F. rewrite <- (firstn_skipn n l).
    apply in_or_app. now right.
  - now apply (IH l S).
Qed.

(** The groups are cut from the front of the list, and fewer than three
    responses stay out. *)
Lemma groups_cover (fuel : nat) (l : list StudentResponse) :
  (List.length l <= fuel)%nat ->
  exists tail, l = List.concat (spec_groups fuel l) ++ tail /\ len tail < 3.
Proof.
  revert l. induction fuel as [|fuel IH]; intros l H.
  - destruct l; [|cbn in H; lia]. exists []. split; [reflexivity | cbn; lia].
  - cbn [spec_groups]. destruct l as [|x l]; [exists []; split; [reflexivity | cbn; lia]|].
    set (g := firstn 5 (x :: l)).
    assert (LG : len g = Z.min 5 (len (x :: l))) by (unfold g, len; rewrite length_firstn; lia).
    destruct (Z.leb_spec 5 (len g)) as [F|F].
    + destruct (IH (skipn 5 (x :: l))) as (tail & E & T).
      { rewrite length_skipn. cbn [List.length] in *. lia. }
      exists tail. split; [|exact T]. cbn [List.concat]. rewrite <- app_assoc, <- E.
      unfold g. now rewrite firstn_skipn.
    + assert (G : g = x :: l).
      { unfold g. apply firstn_all2. unfold len in *. lia. }
      destruct (Z.leb_spec 3 (len g)).
      * exists []. split; [|cbn; lia]. cbn [List.concat]. now rewrite G, !app_nil_r.
      * exists (x :: l). split; [reflexivity|]. rewrite <- G. exact H0.
Qed.

(** Every group but the last is a full group of five. *)
Lemma groups_full (fuel : nat) (l : list StudentResponse) :
  forall gs g, spec_groups fuel l = gs ++ [g] -> Forall (fun x => len x = 5) gs.
Proof.
  revert l. induction fuel as [|fuel IH]; intros l gs g E; cbn [spec_groups] in E.
  - destruct gs; discriminate.
  - destruct l as [|x l]; [destruct gs; discriminate|].
    set (g0 := firstn 5 (x :: l)) in *.
    assert (G5 : len g0 <= 5) by apply len_firstn_le.
    destruct (Z.leb_spec 5 (len g0)) as [F|F].
    + destruct gs as [|y gs]; [constructor|].
      cbn [app] in E. injection E as <- E. constructor; [lia | now apply (IH _ _ _ E)].
    + destruct (Z.leb_spec 3 (len g0)).
      * destruct gs as [|y gs]; [constructor|].
        cbn [app] in E. injection E as _ E. destruct gs; discriminate.
      * destruct gs; discriminate.
Qed.

(** C6. With fewer than five responses the analysis reports insufficient data and
    no trend. Otherwise it sorts the first twenty responses of its argument (the
    twenty most recent when the argument runs from new to old, as the caller's
    query orders it) by ascending submission time, cuts them into consecutive
    groups of five, keeping a shorter last group only with three members or more,
    takes each group's percentage of correct answers, and compares the last
    group's with the first's: more than ten points above is Improving, more than
    ten below is Declining, anything else, fewer than two groups included, is
    Stable. The percentages are computed in double arithmetic and the two tests
    come out as on the exact percentages. From 40 to 80 is Improving, from 80 to
    40 Declining, from 60 to 55 Stable. *)
Theorem learning_trend_classification :
  forall responses : list StudentResponse,
  let recent := sorted_by_time (firstn 20 responses) in
  let groups := spec_groups (List.length recent) recent in
  (len responses < 5 -> _analyze_learning_trends responses = InsufficientData) /\
  (5 <= len responses ->
   _analyze_learning_trends responses =
   Trends (spec_trend (map spec_rate groups)) (map float_rate groups)) /\
  Permutation recent (firstn 20 responses) /\
  StronglySorted older_first recent /\
  (StronglySorted newer_first responses ->
   forall a b, In a (firstn 20 responses) -> In b (skipn 20 responses) ->
               r_submitted_at b <= r_submitted_at a) /\
  Forall (fun g => 3 <= len g <= 5) groups /\
  (exists tail, recent = List.concat groups ++ tail /\ len tail < 3) /\
  (forall gs g, groups = gs ++ [g] -> Forall (fun x => len x = 5) gs) /\
  spec_trend [40; 60; 60; 80]%Q = Improving /\
  spec_trend [80; 60; 60; 40]%Q = Declining /\
  spec_trend [60; 55]%Q = Stable /\
  spec_trend [40; 50]%Q = Stable /\
  spec_trend [60]%Q = Stable /\
  trend_of_rates [40; 60; 60; 80]%Q = Improving /\
  trend_of_rates [80; 60; 60; 40]%Q = Declining /\
  trend_of_rates [60; 55]%Q = Stable /\
  _analyze_learning_trends rising_responses = Trends Improving [40; 60; 60; 80]%Q /\
  _analyze_learning_trends falling_responses = Trends Declining [80; 60; 60; 40]%Q.
Proof.
  intros responses recent groups.
  split. { intros H. unfold _analyze_learning_trends.
           destruct (Z.ltb_spec (len responses) 5); [reflexivity | lia]. }
  split. { intros H. unfold _analyze_learning_trends.
           destruct (Z.ltb_spec (len responses) 5); [lia|]. fold recent.
           pose proof (batch_loop_groups (List.length recent) recent 0 []) as BL.
           cbn [Z.of_nat app skipn] in BL. rewrite BL. fold groups.
           f_equal. apply trend_refines, groups_sizes. }
  split; [apply sort_perm|]. split; [apply sort_sorted|].
  split; [apply head_is_newest|]. split; [apply groups_sizes|].
  split; [now apply groups_cover|].
  split; [apply groups_full|].
  repeat split; vm_compute; reflexivity.
Qed.

End TrendFacts.

(** * Slide plans in general *)
Module PlanFacts.
Import PyStr PyStrFacts Py Float64 QAGen GenerationFacts AllocationFacts QAGenBatch.
Local Open Scope Z_scope.

Lemma draw_cases (n : Z) (c : per_level Z) :
  let d := fst (_distribute_difficulty_for_slide n c) in
  let c' := snd (_distribute_difficulty_for_slide n c) in
  (forall k, get d k = 0 \/ get d k = 1) /\
  (forall k, get c k <= 0 -> get d k = 0) /\
  (forall k, get c' k = get c k - get d k) /\
  easy d + medium d + hard d = Z.min (Z.max 0 n) (stocked c).
Proof.
  destruct c as [ce cm ch].
  unfold stocked, _distribute_difficulty_for_slide, distribute_step.
  cbn [easy medium hard get set fst snd].
  repeat (match goal with
          | |- context [Z.ltb 0 ?x] => destruct (Z.ltb_spec 0 x)
          end; cbn [andb get set fst snd easy medium hard]);
    (split; [intros []; cbn; lia
            | split; [intros []; cbn; lia | split; [intros []; cbn; lia | lia]]]).
Qed.

Lemma last_cons {A} (x : A) (l : list A) (d : A) : List.last (x :: l) d = List.last l x.
Proof.
  revert x d. induction l as [|y l IH]; intros x d; [reflexivity|].
  change (List.last (x :: y :: l) d) with (List.last (y :: l) d).
  now rewrite (IH y d), (IH y x).
Qed.

Lemma plan_slides (slides : list SlideContent) :
  forall i qps rem c, map al_slide (allocation_plan slides i qps rem c) = slides.
Proof.
  induction slides as [|s slides IH]; intros i qps rem c; cbn [allocation_plan];
    [reflexivity|].
  destruct (_distribute_difficulty_for_slide _ c) as [d c'].
  cbn [map al_slide]. now rewrite IH.
Qed.

Lemma plan_nth (slides : list SlideContent) :
  forall i qps rem c j a,
  nth_error (allocation_plan slides i qps rem c) j = Some a ->
  al_slide_questions a = qps + (if i + Z.of_nat j <? rem then 1 else 0).
Proof.
  induction slides as [|s slides IH]; intros i qps rem c j a; cbn [allocation_plan].
  - destruct j; discriminate.
  - destruct (_distribute_difficulty_for_slide _ c) as [d c'].
    destruct j as [|j]; cbn [nth_error].
    + intros [= <-]. cbn [al_slide_questions]. rewrite Z.add_0_r.
      destruct (i <? rem); lia.
    + intros H. rewrite (IH _ _ _ _ _ _ H).
      replace (i + 1 + Z.of_nat j) with (i + Z.of_nat (S j)) by lia. reflexivity.
Qed.

Lemma plan_total (slides : list SlideContent) :
  forall i qps rem c,
  total (map al_slide_questions (allocation_plan slides i qps rem c)) =
  qps * len slides + Z.max 0 (Z.min (len slides) (rem - i)).
Proof.
  induction slides as [|s slides IH]; intros i qps rem c; cbn [allocation_plan].
  - cbn. lia.
  - destruct (_distribute_difficulty_for_slide _ c) as [d c'].
    cbn [map al_slide_questions total fold_right].
    fold (total (map al_slide_questions (allocation_plan slides (i + 1) qps rem c'))).
    rewrite IH, len_cons. pose proof (len_nonneg slides).
    destruct (Z.ltb_spec i rem); lia.
Qed.

Lemma plan_conservation (slides : list SlideContent) :
  forall i qps rem c,
  let plan := allocation_plan slides i qps rem c in
  (forall k, get c k = attempts plan k + get (final_pool c plan) k) /\
  Forall (fun a => (forall k, get (al_dist a) k = 0 \/ get (al_dist a) k = 1) /\
                   (forall k, get (al_before a) k <= 0 -> get (al_dist a) k = 0) /\
                   easy (al_dist a) + medium (al_dist a) + hard (al_dist a)
                   = Z.min (Z.max 0 (al_slide_questions a)) (stocked (al_before a))) plan /\
  attempts plan EASY + attempts plan MEDIUM + attempts plan HARD <= 3 * len slides /\
  attempts plan EASY + attempts plan MEDIUM + attempts plan HARD
  <= total (map (fun a => Z.max 0 (al_slide_questions a)) plan).
Proof.
  induction slides as [|s slides IH]; intros i qps rem c; cbn [allocation_plan].
  - cbn. repeat split; try constructor; try lia.
  - set (n := if i <? rem then qps + 1 else qps).
    destruct (draw_cases n c) as (D1 & D2 & D3 & D4).
    destruct (_distribute_difficulty_for_slide n c) as [d c'] eqn:E.
    cbn [fst snd] in D1, D2, D3, D4.
    destruct (IH (i + 1) qps rem c') as (I1 & I2 & I3 & I4).
    cbn zeta. split; [|split; [|split]].
    + intros k. rewrite attempts_cons. unfold final_pool. cbn [map al_after al_dist].
      rewrite last_cons. fold (final_pool c' (allocation_plan slides (i + 1) qps rem c')).
      specialize (I1 k). specialize (D3 k). destruct (D1 k); lia.
    + constructor; [|exact I2].
      cbn [al_dist al_before al_slide_questions]. repeat split; assumption.
    + rewrite !attempts_cons, len_cons. cbn [al_dist].
      pose proof (D1 EASY). pose proof (D1 MEDIUM). pose proof (D1 HARD).
      cbn [get] in *. lia.
    + rewrite !attempts_cons. cbn [al_dist map total fold_right al_slide_questions].
      fold (total (map (fun a => Z.max 0 (al_slide_questions a))
                     (allocation_plan slides (i + 1) qps rem c'))).
      pose proof (D1 EASY). pose proof (D1 MEDIUM). pose proof (D1 HARD).
      cbn [get] in *. lia.
Qed.

Lemma comprehensive_draws (slides : list SlideContent) (total_questions : Z)
    (ratio : option (per_level float)) :
  Forall (fun a => forall k, get (al_dist a) k = 0 \/ get (al_dist a) k = 1)
         (comprehensive_plan slides total_questions ratio).
Proof.
  unfold comprehensive_plan.
  match goal with
  | |- Forall _ (allocation_plan ?s ?i ?q ?r ?c) =>
      destruct (plan_conservation s i q r c) as (_ & C & _)
  end.
  revert C. apply Forall_impl. now intros a (A1 & _).
Qed.

Lemma total_nonneg_map (plan : list allocation) :
  Forall (fun a => 0 <= al_slide_questions a) plan ->
  total (map (fun a => Z.max 0 (al_slide_questions a)) plan)
  = total (map al_slide_questions plan).
Proof.
  induction 1 as [|a plan H _ IH]; [reflexivity|].
  cbn [map total fold_right]. unfold total in IH. rewrite IH. lia.
Qed.

(** X1. The questions of a comprehensive run are shared out evenly: with [n] eligible
    slides, every slide is asked for the quotient of the total by [n], the first
    (total mod n) slides for one more, and these numbers add up to the total; the plan
    has one entry per eligible slide, in the order of the slides. *)
Theorem slide_question_counts :
  forall (slides : list SlideContent) (total_questions : Z)
         (ratio : option (per_level float)),
  let eligible := filter _has_sufficient_content slides in
  let n := len eligible in
  let plan := comprehensive_plan slides total_questions ratio in
  eligible <> [] ->
  map al_slide plan = eligible /\
  total (map al_slide_questions plan) = total_questions /\
  (forall j a, nth_error plan j = Some a ->
     al_slide_questions a =
     total_questions / n + (if Z.of_nat j <? total_questions mod n then 1 else 0)).
Proof.
  intros slides tq ratio eligible n plan Hne.
  assert (Hn : 0 < n).
  { unfold n. destruct eligible; [congruence|]. rewrite len_cons.
    pose proof (len_nonneg eligible). lia. }
  unfold plan, comprehensive_plan. fold eligible. fold n. split; [|split].
  - apply plan_slides.
  - rewrite plan_total. fold n. pose proof (Z.mod_pos_bound tq n Hn).
    pose proof (Z.div_mod tq n). lia.
  - intros j a H. rewrite (plan_nth _ _ _ _ _ _ _ H). reflexivity.
Qed.

(** Ten questions over three eligible slides of four: 4, 3 and 3. *)
Lemma slide_question_counts_witness :
  let plan := comprehensive_plan four_slides 10 None in
  map al_slide plan = filter _has_sufficient_content four_slides /\
  total (map al_slide_questions plan) = 10 /\
  (forall j a, nth_error plan j = Some a ->
     al_slide_questions a = 10 / 3 + (if Z.of_nat j <? 10 mod 3 then 1 else 0)).
Proof.
  apply (slide_question_counts four_slides 10 None). vm_compute. discriminate.
Defined.

(** X2. One slide draws at most one question of each level, from the levels whose
    pool is not empty and in the order easy, medium, hard: the number it draws is the
    lesser of what it needs and the number of stocked levels, and what it draws leaves
    the pool. No assumption is made on the need or on the pool. *)
Theorem slide_draw_limits :
  forall (questions_count : Z) (remaining : per_level Z),
  let d := fst (_distribute_difficulty_for_slide questions_count remaining) in
  let remaining' := snd (_distribute_difficulty_for_slide questions_count remaining) in
  (forall k, get d k = 0 \/ get d k = 1) /\
  (forall k, get remaining k <= 0 -> get d k = 0) /\
  (forall k, get remaining' k = get remaining k - get d k) /\
  easy d + medium d + hard d = Z.min (Z.max 0 questions_count) (stocked remaining) /\
  easy d + medium d + hard d <= 3 /\
  (medium d = 1 -> easy d = 1 \/ easy remaining <= 0) /\
  (hard d = 1 -> (easy d = 1 \/ easy remaining <= 0) /\
                 (medium d = 1 \/ medium remaining <= 0)).
Proof.
  intros n c d c'. destruct (draw_cases n c) as (D1 & D2 & D3 & D4).
  fold d in D1, D2, D4. fold d c' in D3.
  split; [exact D1|]. split; [exact D2|]. split; [exact D3|]. split; [exact D4|].
  split.
  { rewrite D4. unfold stocked.
    destruct (0 <? easy c), (0 <? medium c), (0 <? hard c); lia. }
  clear D1 D2 D3 D4. subst d c'. destruct c as [ce cm ch].
  unfold _distribute_difficulty_for_slide, distribute_step.
  cbn [easy medium hard get set fst snd].
  repeat (match goal with
          | |- context [Z.ltb 0 ?x] => destruct (Z.ltb_spec 0 x)
          end; cbn [andb get set fst snd easy medium hard]); lia.
Qed.

(** X3. A comprehensive run never makes more than three attempts for a slide, so never
    more than three times the number of eligible slides, however many questions are
    asked for; it never makes more attempts than the total asked for; and for every
    level, the attempts made and what the pool still holds at the end add up to the
    initial count. *)
Theorem comprehensive_attempts_capped :
  forall (slides : list SlideContent) (total_questions : Z)
         (ratio : option (per_level float)),
  let eligible := filter _has_sufficient_content slides in
  let c0 := initial_counts total_questions
              (match ratio with None => default_ratio | Some r => r end) in
  let plan := comprehensive_plan slides total_questions ratio in
  let made := attempts plan EASY + attempts plan MEDIUM + attempts plan HARD in
  made = len (plan_units plan) /\
  made <= 3 * len eligible /\
  (0 <= total_questions -> made <= total_questions) /\
  Forall (fun a => easy (al_dist a) + medium (al_dist a) + hard (al_dist a) <= 3) plan /\
  (forall k, get c0 k = attempts plan k + get (final_pool c0 plan) k).
Proof.
  intros slides tq ratio eligible c0 plan made.
  unfold plan, comprehensive_plan. fold eligible. fold c0.
  set (n := len eligible). set (p := allocation_plan eligible 0 (tq / n) (tq mod n) c0).
  destruct (plan_conservation eligible 0 (tq / n) (tq mod n) c0) as (P1 & P2 & P3 & P4).
  fold p in P1, P2, P3, P4.
  split; [|split; [|split; [|split]]].
  - unfold made, plan, comprehensive_plan. fold eligible. fold c0. fold n. fold p.
    unfold attempts. generalize (plan_units p). intros l.
    induction l as [|x l IH]; [reflexivity|].
    cbn [filter]. rewrite len_cons.
    destruct x; cbn [level_eqb]; rewrite ?len_cons; lia.
  - unfold made, plan, comprehensive_plan. fold eligible. fold c0. fold n. fold p. exact P3.
  - intros Ht. unfold made, plan, comprehensive_plan. fold eligible. fold c0. fold n. fold p.
    destruct eligible as [|s0 rest] eqn:E.
    + subst p. cbn. lia.
    + assert (Hn : 0 < n).
      { unfold n. rewrite len_cons. pose proof (len_nonneg rest). lia. }
      rewrite total_nonneg_map in P4.
      * unfold p in P4 at 4. rewrite plan_total in P4. fold n in P4.
        pose proof (Z.mod_pos_bound tq n Hn). pose proof (Z.div_mod tq n). lia.
      * apply Forall_forall. intros a Ha.
        destruct (In_nth_error _ _ Ha) as [j Hj]. unfold p in Hj.
        rewrite (plan_nth _ _ _ _ _ _ _ Hj).
        pose proof (Z.div_pos tq n Ht Hn). destruct (_ <? _); lia.
  - revert P2. apply Forall_impl. intros a (A1 & _ & _).
    pose proof (A1 EASY). pose proof (A1 MEDIUM). pose proof (A1 HARD). cbn [get] in *. lia.
  - exact P1.
Qed.

Section Oracles.

Variable json_loads : text -> result json.
Variable World : Type.
Variable Prompt : Type.
Variable llm_invoke : World -> Prompt -> result text * World.
Variable create_prompt : SlideContent -> DifficultyLevel -> result Prompt.
Variable build_question : list (text * json) -> result GeneratedQuestion.

Let run := run_attempts json_loads World Prompt llm_invoke create_prompt build_question.
Let for_slide := generate_questions_for_slide json_loads World Prompt llm_invoke
                   create_prompt build_question.
Let run_plan' := run_plan json_loads World Prompt llm_invoke create_prompt build_question.
Let comprehensive := generate_comprehensive_qa json_loads World Prompt llm_invoke
                       create_prompt build_question.
Let multiple := generate_questions_for_multiple_slides json_loads World Prompt llm_invoke
                  create_prompt build_question.
Let loop := multiple_slides_loop json_loads World Prompt llm_invoke create_prompt
              build_question.
Let batch := spec_batch json_loads World Prompt llm_invoke create_prompt build_question.

Lemma len_successes {A} (l : list (option A)) : len (successes l) <= len l.
Proof.
  induction l as [|[x|] l IH]; cbn [successes]; rewrite ?len_cons; [cbn | |]; lia.
Qed.

Lemma len_units (d : per_level Z) :
  len (units_of d) = Z.max 0 (easy d) + Z.max 0 (medium d) + Z.max 0 (hard d).
Proof.
  unfold units_of, len. rewrite !length_app, !repeat_length. lia.
Qed.

Lemma for_slide_bound (w : World) (s : SlideContent) (n : Z) (dist : per_level Z) :
  exists qa_set w',
    for_slide w s n (Some dist) = (Ok qa_set, w') /\
    slide_number qa_set = sc_slide_number s /\
    slide_title qa_set = sc_title s /\
    len (questions qa_set) <= Z.max 0 (easy dist) + Z.max 0 (medium dist) + Z.max 0 (hard dist).
Proof.
  unfold for_slide. rewrite for_slide_run. eexists. eexists. split; [reflexivity|].
  cbn [slide_number slide_title questions]. split; [reflexivity|]. split; [reflexivity|].
  rewrite <- len_units. etransitivity; [apply len_successes|].
  unfold len. rewrite run_length. lia.
Qed.

Lemma run_plan_bound (plan : list allocation) :
  forall w acc, exists sets w',
    run_plan' plan w acc = (Ok (acc ++ sets), w') /\
    Forall2 (fun a s =>
               slide_number s = sc_slide_number (al_slide a) /\
               slide_title s = sc_title (al_slide a) /\
               len (questions s) <= Z.max 0 (easy (al_dist a)) + Z.max 0 (medium (al_dist a))
                                    + Z.max 0 (hard (al_dist a)))
            plan sets.
Proof.
  induction plan as [|a plan IH]; intros w acc; cbn [run_plan'].
  - exists [], w. split; [unfold run_plan'; cbn; now rewrite app_nil_r | constructor].
  - unfold run_plan'. cbn [run_plan].
    destruct (for_slide_bound w (al_slide a) (al_slide_questions a) (al_dist a))
      as (s & w1 & E & B).
    unfold for_slide in E. rewrite E.
    destruct (IH w1 (acc ++ [s])) as (sets & w2 & E2 & F).
    unfold run_plan' in E2. rewrite E2. exists (s :: sets), w2. split.
    + now rewrite <- app_assoc.
    + constructor; assumption.
Qed.

(** X4. A comprehensive run never raises, whatever the chat model, the decoder and the
    validation do: it returns one set per eligible slide, in the order of the slides,
    with the slide's number and title and at most three questions; without an
    eligible slide it returns the empty list and the chat model is not called. *)
Theorem comprehensive_never_raises :
  forall (w : World) (slides : list SlideContent) (total_questions : Z)
         (ratio : option (per_level float)),
  let eligible := filter _has_sufficient_content slides in
  (exists sets w',
     comprehensive w slides total_questions ratio = (Ok sets, w') /\
     map (fun q => (slide_number q, slide_title q)) sets =
     map (fun s => (sc_slide_number s, sc_title s)) eligible /\
     Forall (fun q => len (questions q) <= 3) sets) /\
  (eligible = [] -> comprehensive w slides total_questions ratio = (Ok [], w)).
Proof.
  intros w slides tq ratio eligible. split.
  - unfold comprehensive. rewrite comprehensive_is_plan.
    destruct (run_plan_bound (comprehensive_plan slides tq ratio) w [])
      as (sets & w' & E & F).
    unfold run_plan' in E. rewrite E. cbn [app]. exists sets, w'.
    split; [reflexivity|].
    pose proof (comprehensive_draws slides tq ratio) as C.
    split.
    + assert (M : map al_slide (comprehensive_plan slides tq ratio) = eligible)
        by apply plan_slides.
      rewrite <- M. clear - F. induction F as [|a s plan sets (H1 & H2 & _) _ IH];
        [reflexivity|]. cbn [map]. now rewrite H1, H2, IH.
    + clear - F C. induction F as [|a s plan sets (_ & _ & H) _ IH]; [constructor|].
      inversion C as [|? ? A1 Cp]; subst. constructor; [|now apply IH].
      pose proof (A1 EASY). pose proof (A1 MEDIUM). pose proof (A1 HARD). cbn [get] in *. lia.
  - intros E. unfold comprehensive, generate_comprehensive_qa. fold eligible. now rewrite E.
Qed.

Lemma for_slide_default (w : World) (s : SlideContent) (n : Z) :
  for_slide w s n None =
  (Ok {| slide_number := sc_slide_number s; slide_title := sc_title s;
         questions := successes (fst (run [EASY; MEDIUM] w s)) |},
   snd (run [EASY; MEDIUM] w s)).
Proof.
  change (for_slide w s n None) with (for_slide w s n (Some default_slide_distribution)).
  unfold for_slide. rewrite for_slide_run. reflexivity.
Qed.

Lemma loop_batch (slides : list SlideContent) :
  forall qps w acc,
  loop slides qps w acc = (Ok (acc ++ fst (batch slides w)), snd (batch slides w)).
Proof.
  induction slides as [|s slides IH]; intros qps w acc.
  - cbn. now rewrite app_nil_r.
  - unfold loop, batch. cbn [multiple_slides_loop spec_batch].
    destruct (_has_sufficient_content s); [|apply IH].
    pose proof (for_slide_default w s qps) as E. unfold for_slide, run in E. rewrite E.
    destruct (run_attempts _ _ _ _ _ _ [EASY; MEDIUM] w s) as [outcomes w1].
    cbn [fst snd]. pose proof (IH qps w1 (acc ++ [{| slide_number := sc_slide_number s;
                                                   slide_title := sc_title s;
                                                   questions := successes outcomes |}])) as L.
    unfold loop, batch in L. rewrite L.
    destruct (spec_batch _ _ _ _ _ _ slides w1) as [sets w2]. cbn [fst snd].
    now rewrite <- app_assoc.
Qed.

Lemma batch_sets (slides : list SlideContent) :
  forall w,
  map (fun q => (slide_number q, slide_title q)) (fst (batch slides w)) =
  map (fun s => (sc_slide_number s, sc_title s)) (filter _has_sufficient_content slides) /\
  Forall (fun q => len (questions q) <= 2) (fst (batch slides w)).
Proof.
  induction slides as [|s slides IH]; intros w.
  - cbn. split; [reflexivity | constructor].
  - unfold batch. cbn [spec_batch filter].
    destruct (_has_sufficient_content s); [|apply IH].
    pose proof (run_length json_loads World Prompt llm_invoke create_prompt build_question
                  [EASY; MEDIUM] w s) as RL.
    destruct (run_attempts _ _ _ _ _ _ [EASY; MEDIUM] w s) as [outcomes w1].
    cbn [fst] in RL. destruct (IH w1) as (I1 & I2). unfold batch in I1, I2.
    destruct (spec_batch _ _ _ _ _ _ slides w1) as [sets w2]. cbn [fst] in *.
    split.
    + cbn [map slide_number slide_title]. now rewrite I1.
    + constructor; [|exact I2]. cbn [questions].
      pose proof (len_successes outcomes). unfold len in *. cbn [List.length] in RL. lia.
Qed.

(** X5. The per-slide batch never raises, whatever the chat model, the decoder and the
    validation do. It returns one set per eligible slide, in the order of the slides,
    made of what one easy and then one medium attempt gave: at most two questions, none
    asked at the hard level. The number of questions per slide that the caller passes
    has no effect on the result. *)
Theorem multiple_slides_batch :
  forall (w : World) (slides : list SlideContent) (questions_per_slide : Z),
  let eligible := filter _has_sufficient_content slides in
  let sets := fst (batch slides w) in
  multiple w slides questions_per_slide = (Ok sets, snd (batch slides w)) /\
  map (fun q => (slide_number q, slide_title q)) sets =
  map (fun s => (sc_slide_number s, sc_title s)) eligible /\
  Forall (fun q => len (questions q) <= 2) sets /\
  (forall n, multiple w slides n = multiple w slides questions_per_slide).
Proof.
  intros w slides qps eligible sets.
  assert (M : forall n, multiple w slides n = (Ok sets, snd (batch slides w))).
  { intros n. unfold multiple, generate_questions_for_multiple_slides.
    pose proof (loop_batch slides n w []) as L. unfold loop in L. rewrite L. reflexivity. }
  split; [apply M|]. destruct (batch_sets slides w) as (B1 & B2).
  split; [exact B1|]. split; [exact B2|]. intros n. now rewrite !M.
Qed.

End Oracles.

End PlanFacts.

(** * The default split, the counts of a set and the suggestions *)
Module AdviceFacts.
Import PyStr PyStrFacts Py Float64 Float64Facts QAGen Adjuster AdjusterAdvice CountFacts.
Local Open Scope Z_scope.

Lemma two_fifths_double : rnd (4 # 10) = (3602879701896397 # 9007199254740992)%Q.
Proof. vm_compute. reflexivity. Qed.

(** The double product of a count and 0.4 truncates to the floor of two fifths. *)
Lemma two_fifths_floor (n : Z) :
  0 <= n <= 2 ^ 50 ->
  int_of_float (fmul (float_of_int n) (rnd (4 # 10))) = 2 * n / 5.
Proof.
  intros [N0 N1].
  rewrite fmul_int by lia. rewrite two_fifths_double.
  set (c := (3602879701896397 # 9007199254740992)%Q).
  set (K := 2 * n / 5).
  pose proof (Z.div_mod (2 * n) 5 ltac:(lia)) as DM. fold K in DM.
  pose proof (Z.mod_pos_bound (2 * n) 5 ltac:(lia)) as [R0 R1].
  set (rem := (2 * n) mod 5) in *.
  assert (K0 : 0 <= K) by (apply Z.div_pos; lia).
  assert (NQ0 : (0 <= inject_Z n)%Q) by now apply inject_Z_nonneg.
  assert (NQ1 : (inject_Z n <= 1125899906842624)%Q) by (apply (inject_Z_le n (2 ^ 50)); lia).
  assert (E : (2 * inject_Z n == 5 * inject_Z K + inject_Z rem)%Q).
  { change 2%Q with (inject_Z 2). change 5%Q with (inject_Z 5).
    rewrite <- !inject_Z_mult, <- inject_Z_plus. now rewrite <- DM. }
  assert (RQ0 : (0 <= inject_Z rem)%Q) by now apply inject_Z_nonneg.
  assert (RQ1 : (inject_Z rem <= 4)%Q) by (apply (inject_Z_le rem 4); lia).
  set (x := (inject_Z n * c)%Q).
  assert (X0 : (0 <= x)%Q) by (unfold x, c; nra).
  assert (XK : (inject_Z K <= x)%Q) by (unfold x, c; lra).
  assert (L : (inject_Z K <= rnd x)%Q) by (apply rnd_ge_int; [exact XK | lia]).
  destruct (rnd_err x X0) as [_ U].
  assert (N : (0 <= rnd x)%Q) by now apply rnd_nonneg.
  rewrite (int_of_float_floor _ N).
  pose proof (Qfloor_le (rnd x)) as F0.
  pose proof (Qlt_floor (rnd x)) as F1.
  rewrite inject_Z_plus in F1. change (inject_Z 1) with 1%Q in F1.
  unfold u53 in U.
  assert (XU : (x * (1 + (1 # 9007199254740992)) < inject_Z K + 1)%Q) by (unfold x, c; lra).
  set (r := rnd x) in *. set (f := Qfloor r) in *. clearbody r f.
  assert (G1 : (inject_Z f < inject_Z (K + 1))%Q).
  { rewrite inject_Z_plus. change (inject_Z 1) with 1%Q. lra. }
  assert (G2 : (inject_Z (K - 1) < inject_Z f)%Q).
  { unfold Z.sub. rewrite inject_Z_plus. change (inject_Z (- (1))) with (- (1))%Q. lra. }
  rewrite <- Zlt_Qlt in G1, G2. lia.
Qed.

(** X6. With the default ratio and a total between 0 and 2^50, the adjuster's split is
    exact in integers: easy and medium are both the floor of two fifths of the total,
    hard is the rest, which lies between a fifth of the total and a fifth plus 8/5.
    The generator's own initial counts are the same split. *)
Theorem default_split_closed_form :
  forall total_questions : Z,
  0 <= total_questions <= 2 ^ 50 ->
  let d := calculate_difficulty_distribution total_questions None in
  d = spec_default_split total_questions /\
  initial_counts total_questions default_ratio = d /\
  easy d = medium d /\
  easy d + medium d + hard d = total_questions /\
  total_questions <= 5 * hard d <= total_questions + 8 /\
  0 <= 5 * easy d <= 2 * total_questions.
Proof.
  intros n Hn d.
  assert (E : d = spec_default_split n).
  { unfold d, calculate_difficulty_distribution, spec_default_split,
      default_target_distribution. cbn [easy medium hard].
    rewrite (two_fifths_floor n Hn). f_equal. lia. }
  split; [exact E|]. split; [reflexivity|]. rewrite E.
  unfold spec_default_split. cbn [easy medium hard].
  pose proof (Z.div_mod (2 * n) 5 ltac:(lia)).
  pose proof (Z.mod_pos_bound (2 * n) 5 ltac:(lia)).
  repeat split; lia.
Qed.

(** Twenty questions, the default of a comprehensive run: 8, 8 and 4. *)
Lemma default_split_closed_form_witness :
  calculate_difficulty_distribution 20 None = {| easy := 8; medium := 8; hard := 4 |} /\
  initial_counts 20 default_ratio = {| easy := 8; medium := 8; hard := 4 |}.
Proof.
  destruct (default_split_closed_form 20 ltac:(lia)) as (E & I & _).
  rewrite I, E. split; reflexivity.
Defined.

Lemma count_partition (questions : list any_question) :
  len (filter (counts_as EASY) questions) + len (filter (counts_as MEDIUM) questions)
  + len (filter (counts_as HARD) questions) + len (filter is_foreign questions)
  = len questions.
Proof.
  induction questions as [|q questions IH]; [reflexivity|].
  rewrite len_cons. destruct q as [|[]|];
    cbn [filter counts_as is_foreign level_eqb]; rewrite ?len_cons; lia.
Qed.

Lemma truediv_unit (c t : Z) :
  0 <= c <= t -> 0 < t -> (0 <= int_truediv c t <= 1)%Q.
Proof.
  intros [C0 C1] T0. unfold int_truediv.
  assert (Ht : (0 < inject_Z t)%Q) by (change 0%Q with (inject_Z 0); now rewrite <- Zlt_Qlt).
  assert (X0 : (0 <= inject_Z c / inject_Z t)%Q).
  { apply Qle_shift_div_l; [exact Ht|]. rewrite Qmult_0_l. now apply inject_Z_nonneg. }
  split; [now apply rnd_nonneg|].
  apply (rnd_le_int _ 1); [|lia]. change (inject_Z 1) with 1%Q.
  apply Qle_shift_div_r; [exact Ht|]. rewrite Qmult_1_l. now apply inject_Z_le.
Qed.

(** X7. The report counts each question under its difficulty and a question without
    the attribute as medium; a question whose difficulty is none of the three levels
    is counted under no level, though it is part of the total. So the three counts
    add up to the total less the foreign questions, each ratio is the double quotient
    of a count by the total (0 for the empty set), and lies between 0 and 1. *)
Theorem balance_counts :
  forall questions : list any_question,
  let r := validate_difficulty_balance questions in
  let counts := br_difficulty_counts r in
  br_total_questions r = len questions /\
  (forall level, get counts level = len (filter (counts_as level) questions)) /\
  easy counts + medium counts + hard counts
  = len questions - len (filter is_foreign questions) /\
  (forall level,
     get (br_difficulty_ratios r) level
     = if 0 <? len questions then int_truediv (get counts level) (len questions) else 0%Q) /\
  (forall level, (0 <= get (br_difficulty_ratios r) level <= 1)%Q).
Proof.
  intros questions r counts.
  assert (C : forall level, get counts level = len (filter (counts_as level) questions)).
  { intros level. apply report_counts. }
  assert (R : forall level,
             get (br_difficulty_ratios r) level
             = if 0 <? len questions then int_truediv (get counts level) (len questions)
               else 0%Q).
  { intros level. unfold counts, r, validate_difficulty_balance.
    cbn [br_difficulty_ratios br_difficulty_counts]. now destruct level. }
  split; [reflexivity|]. split; [exact C|]. split.
  { pose proof (C EASY). pose proof (C MEDIUM). pose proof (C HARD).
    pose proof (count_partition questions). cbn [get] in *. lia. }
  split; [exact R|]. intros level. rewrite R.
  destruct (Z.ltb_spec 0 (len questions)); [|split; lra].
  apply truediv_unit; [|assumption]. rewrite C. apply len_filter_le.
Qed.

Lemma truediv_ratio (a b k : Z) (q : Q) :
  0 < k -> (inject_Z a / inject_Z b == q)%Q -> b <> 0 ->
  int_truediv (a * k) (b * k) = rnd q.
Proof.
  intros K E B. unfold int_truediv. apply rnd_comp. rewrite <- E.
  rewrite !inject_Z_mult.
  assert (inject_Z k > 0)%Q by (change 0%Q with (inject_Z 0); now rewrite <- Zlt_Qlt).
  assert (~ inject_Z b == 0)%Q.
  { change 0%Q with (inject_Z 0). rewrite inject_Z_injective. exact B. }
  field. split; [assumption | lra].
Qed.

(** X8. A set without foreign difficulties whose counts stand in the proportion
    2 : 2 : 1 has the ideal ratios exactly, whatever its size: its balance score is 1
    and it is reported balanced. *)
Theorem proportional_set_scores_one :
  forall (questions : list any_question) (k : Z),
  let r := validate_difficulty_balance questions in
  0 < k ->
  br_difficulty_counts r = {| easy := 2 * k; medium := 2 * k; hard := k |} ->
  len questions = 5 * k ->
  br_difficulty_ratios r = ideal_ratios /\
  (br_balance_score r == 1)%Q /\
  br_is_balanced r = true.
Proof.
  intros questions k r K C T.
  destruct (ratios_of_counts questions) as (S & B & R). fold r in S, B, R.
  pose proof (report_counts questions) as Cn. fold r in Cn.
  rewrite C in Cn. pose proof (Cn EASY) as CE. pose proof (Cn MEDIUM) as CM.
  pose proof (Cn HARD) as CH. cbn [get easy medium hard] in CE, CM, CH.
  assert (R' : br_difficulty_ratios r = ideal_ratios).
  { rewrite R, <- CE, <- CM, <- CH, T.
    replace (0 <? 5 * k) with true by (symmetry; apply Z.ltb_lt; lia).
    unfold ideal_ratios. f_equal.
    - apply (truediv_ratio 2 5 k); [lia | reflexivity | lia].
    - apply (truediv_ratio 2 5 k); [lia | reflexivity | lia].
    - replace k with (1 * k) at 1 by lia.
      apply (truediv_ratio 1 5 k); [lia | reflexivity | lia]. }
  split; [exact R'|].
  assert (S1 : (br_balance_score r == 1)%Q).
  { rewrite S, R'. exact BalanceFacts.score_ideal. }
  split; [exact S1|]. rewrite B.
  set (sc := br_balance_score r) in *. clearbody sc.
  apply Qle_bool_iff. rewrite S1. apply (rnd_le_int _ 1); [|lia].
  change (inject_Z 1) with 1%Q. lra.
Qed.

(** Two easy, two medium and one hard question. *)
Lemma proportional_set_scores_one_witness :
  let r := validate_difficulty_balance
             [Difficulty EASY; Difficulty MEDIUM; Difficulty HARD; Difficulty EASY;
              NoDifficulty] in
  br_difficulty_ratios r = ideal_ratios /\
  (br_balance_score r == 1)%Q /\
  br_is_balanced r = true.
Proof.
  apply (proportional_set_scores_one
           [Difficulty EASY; Difficulty MEDIUM; Difficulty HARD; Difficulty EASY;
            NoDifficulty] 1); [lia | reflexivity | reflexivity].
Defined.

Lemma filter_all {A} (f : A -> bool) (l : list A) :
  Forall (fun x => f x = true) l -> filter f l = l.
Proof.
  induction 1 as [|x l H _ IH]; [reflexivity|]. cbn [filter]. now rewrite H, IH.
Qed.

Lemma filter_none {A} (f : A -> bool) (l : list A) :
  Forall (fun x => f x = false) l -> filter f l = [].
Proof.
  induction 1 as [|x l H _ IH]; [reflexivity|]. cbn [filter]. now rewrite H.
Qed.

Lemma truediv_same (t : Z) : 0 < t -> int_truediv t t = rnd 1.
Proof.
  intros T. unfold int_truediv. apply rnd_comp.
  assert (inject_Z t > 0)%Q by (change 0%Q with (inject_Z 0); now rewrite <- Zlt_Qlt).
  field. lra.
Qed.

Lemma truediv_zero (t : Z) : int_truediv 0 t = 0%Q.
Proof.
  unfold int_truediv. apply rnd_eq0. unfold Qdiv. change (inject_Z 0) with 0%Q. ring.
Qed.

(** The three reports a set of one level can get, and the report of the empty set. *)
Lemma one_level_scores :
  forall level,
  Qle_bool (rnd (7 # 10))
    (_calculate_balance_score
       (fun l => Some (get (set {| easy := 0%Q; medium := 0%Q; hard := 0%Q |} level (rnd 1)) l)))
  = false.
Proof. intros []; vm_compute; reflexivity. Qed.

Lemma empty_set_score :
  Qle_bool (rnd (7 # 10))
    (_calculate_balance_score
       (fun l => Some (get {| easy := 0%Q; medium := 0%Q; hard := 0%Q |} l)))
  = false.
Proof. vm_compute. reflexivity. Qed.

(** X9. A set whose questions all count under one and the same level is never
    reported balanced, whatever its size; neither is the empty set. *)
Theorem single_level_unbalanced :
  forall (questions : list any_question) (level : DifficultyLevel),
  Forall (fun q => counts_as level q = true) questions ->
  br_is_balanced (validate_difficulty_balance questions) = false.
Proof.
  intros questions level H.
  destruct (ratios_of_counts questions) as (S & B & R).
  rewrite B, S, R. clear S B R.
  destruct (Z.ltb_spec 0 (len questions)) as [T|T].
  - assert (Own : filter (counts_as level) questions = questions) by now apply filter_all.
    assert (Other : forall l, l <> level -> filter (counts_as l) questions = []).
    { intros l N. apply filter_none. revert H. apply Forall_impl.
      intros q Hq. destruct q as [|d|]; destruct level, l; try destruct d;
        cbn in *; congruence. }
    destruct level.
    + rewrite Own, (Other MEDIUM), (Other HARD) by discriminate.
      change (len (@nil any_question)) with 0.
      rewrite (truediv_same _ T), truediv_zero. exact (one_level_scores EASY).
    + rewrite Own, (Other EASY), (Other HARD) by discriminate.
      change (len (@nil any_question)) with 0.
      rewrite (truediv_same _ T), truediv_zero. exact (one_level_scores MEDIUM).
    + rewrite Own, (Other EASY), (Other MEDIUM) by discriminate.
      change (len (@nil any_question)) with 0.
      rewrite (truediv_same _ T), truediv_zero. exact (one_level_scores HARD).
  - exact empty_set_score.
Qed.

(** Five hard questions. *)
Lemma single_level_unbalanced_witness :
  br_is_balanced (validate_difficulty_balance (repeat (Difficulty HARD) 5)) = false.
Proof.
  apply (single_level_unbalanced (repeat (Difficulty HARD) 5) HARD).
  repeat constructor.
Defined.

Lemma suggest_fold (current target : DifficultyLevel -> option Z) (ls : list DifficultyLevel) :
  forall acc,
  fold_left (suggest_step current target) ls acc
  = acc ++ map render
             (flat_map (fun level =>
                          if get0 current level <? get0 target level
                          then [Add level (get0 target level - get0 current level)]
                          else if get0 target level <? get0 current level
                               then [Reduce level (get0 current level - get0 target level)]
                               else [])
                       ls).
Proof.
  induction ls as [|level ls IH]; intros acc; cbn [fold_left flat_map map].
  - now rewrite app_nil_r.
  - rewrite IH. unfold suggest_step.
    destruct (get0 current level <? get0 target level);
      [|destruct (get0 target level <? get0 current level)];
      cbn [app map render]; rewrite <- ?app_assoc; reflexivity.
Qed.

Lemma str_int_round_trip (n : Z) : int_of_str (str_of_int n) = Some n.
Proof.
  unfold int_of_str, str_of_int, text_of_string.
  rewrite string_of_list_ascii_of_string.
  rewrite NilZero.isi.
  - cbn [option_map]. now rewrite DecimalZ.of_to.
  - destruct n; cbn; try discriminate.
    intros [= E]. now apply DecimalPos.Unsigned.to_uint_nonnil in E.
  - destruct n; cbn; try discriminate.
    intros [= E]. now apply DecimalPos.Unsigned.to_uint_nonnil in E.
Qed.

(** X10. The suggestions are the renderings, in the order easy, medium, hard, of the
    moves that lead from the current to the target distribution, a level either
    distribution lacks counting as 0: one suggestion for each level where the two
    differ, none where they agree. Every amount printed is positive and reads back as
    the difference; following the moves turns the current distribution into the
    target; and there is no suggestion exactly when the two agree on every level. *)
Theorem suggestions_are_moves :
  forall current target : DifficultyLevel -> option Z,
  let moves := spec_moves (get0 current) (get0 target) in
  suggest_difficulty_adjustments current target = map render moves /\
  Forall (fun m => 0 < amount m /\
                   amount m = Z.abs (get0 target (level_of m) - get0 current (level_of m)) /\
                   int_of_str (str_of_int (amount m)) = Some (amount m)) moves /\
  (forall level, fold_left follow moves (get0 current) level = get0 target level) /\
  (suggest_difficulty_adjustments current target = [] <->
   forall level, get0 current level = get0 target level) /\
  len (suggest_difficulty_adjustments current target)
  = len (filter (fun level => negb (get0 current level =? get0 target level)) levels).
Proof.
  intros current target moves.
  assert (E : suggest_difficulty_adjustments current target = map render moves).
  { unfold suggest_difficulty_adjustments. rewrite suggest_fold. reflexivity. }
  split; [exact E|]. rewrite E. unfold moves, spec_moves, levels.
  cbn [flat_map app].
  destruct (Z.ltb_spec (get0 current EASY) (get0 target EASY));
    [|destruct (Z.ltb_spec (get0 target EASY) (get0 current EASY))];
  (destruct (Z.ltb_spec (get0 current MEDIUM) (get0 target MEDIUM));
    [|destruct (Z.ltb_spec (get0 target MEDIUM) (get0 current MEDIUM))]);
  (destruct (Z.ltb_spec (get0 current HARD) (get0 target HARD));
    [|destruct (Z.ltb_spec (get0 target HARD) (get0 current HARD))]);
  cbn [app map filter fold_left];
  (split; [repeat constructor; cbn [amount level_of]; try lia; apply str_int_round_trip|]);
  (split; [intros []; unfold follow; cbn [level_eqb level_of]; lia|]);
  (split; [split; [try discriminate; intros _ []; lia
                  | intros A; pose proof (A EASY); pose proof (A MEDIUM); pose proof (A HARD);
                    try reflexivity; lia]|]);
  repeat match goal with
         | |- context [?a =? ?b] => destruct (Z.eqb_spec a b); try lia
         end; reflexivity.
Qed.

End AdviceFacts.

(** * Grading: what the verdict depends on *)
Module VerdictFacts.
Import PyStr PyStrFacts Float64 Float64Facts QAGen Adjuster Questions GradingFacts
  LadderFacts Grading.
Local Open Scope Z_scope.

Lemma lower_char_idem (c : ascii) : lower_char (lower_char c) = lower_char c.
Proof. destruct c as [[] [] [] [] [] [] [] []]; reflexivity. Qed.

Lemma space_lower (c : ascii) : is_space (lower_char c) = is_space c.
Proof. destruct c as [[] [] [] [] [] [] [] []]; reflexivity. Qed.

Lemma lower_idem (s : text) : lower (lower s) = lower s.
Proof.
  unfold lower. rewrite map_map. apply map_ext. intros c. apply lower_char_idem.
Qed.

Lemma lstrip_lower (s : text) : lstrip (lower s) = lower (lstrip s).
Proof.
  induction s as [|c s IH]; [reflexivity|]. cbn [lower map lstrip].
  rewrite space_lower. destruct (is_space c); [exact IH | reflexivity].
Qed.

Lemma strip_lower (s : text) : strip (lower s) = lower (strip s).
Proof.
  assert (R : forall t, rev (lower t) = lower (rev t)).
  { intros t. unfold lower. symmetry. apply map_rev. }
  unfold strip, rstrip. now rewrite lstrip_lower, R, lstrip_lower, R.
Qed.

Lemma blank_rev (s : text) : blank s = true -> blank (rev s) = true.
Proof.
  unfold blank. rewrite !forallb_forall. intros H c I. apply H. now apply in_rev.
Qed.

Lemma lstrip_blank (a s : text) : blank a = true -> lstrip (a ++ s) = lstrip s.
Proof.
  induction a as [|c a IH]; intros H; [reflexivity|].
  cbn [blank forallb] in H. apply andb_true_iff in H. destruct H as [C H].
  cbn [app lstrip]. rewrite C. now apply IH.
Qed.

Lemma lstrip_all_blank (s : text) : blank s = true -> lstrip s = [].
Proof. intros H. rewrite <- (app_nil_r s). now rewrite lstrip_blank. Qed.

Lemma lstrip_app (r b : text) :
  blank b = true ->
  lstrip (r ++ b) = match lstrip r with [] => [] | _ :: _ => lstrip r ++ b end.
Proof.
  intros H. induction r as [|c r IH]; cbn [app lstrip].
  - now apply lstrip_all_blank.
  - destruct (is_space c); [exact IH | reflexivity].
Qed.

Lemma rstrip_blank (s b : text) : blank b = true -> rstrip (s ++ b) = rstrip s.
Proof.
  intros H. unfold rstrip. rewrite rev_app_distr, lstrip_blank; [reflexivity|].
  now apply blank_rev.
Qed.

Lemma strip_margin (a s b : text) :
  blank a = true -> blank b = true -> strip (a ++ s ++ b) = strip s.
Proof.
  intros A B. unfold strip. rewrite (lstrip_blank a _ A), (lstrip_app s b B).
  destruct (lstrip s) as [|c t]; [reflexivity|]. now apply rstrip_blank.
Qed.

Lemma strip_blank (s : text) : blank s = true -> strip s = [].
Proof. intros H. unfold strip. now rewrite lstrip_all_blank. Qed.

(** X11. The verdict on a response does not change when white space is put before
    or after it: grading sees a response only trimmed. Nor does it change when the
    response is put in lower case, for every question but an essay without keywords,
    which is graded by the length of the trimmed response and not by its content. *)
Theorem verdict_ignores_case_and_margin :
  forall (question : Question) (response a b : text),
  blank a = true -> blank b = true ->
  _evaluate_answer question (a ++ response ++ b) = _evaluate_answer question response /\
  ((q_question_type question = ESSAY -> keywords_truthy question = true) ->
   _evaluate_answer question (lower response) = _evaluate_answer question response /\
   _evaluate_answer question (a ++ lower response ++ b)
   = _evaluate_answer question response).
Proof.
  intros question response a b A B.
  assert (M : forall r, _evaluate_answer question (a ++ r ++ b) = _evaluate_answer question r).
  { intros r. unfold _evaluate_answer. now rewrite (strip_margin a r b A B). }
  split; [apply M|]. intros K.
  assert (L : _evaluate_answer question (lower response) = _evaluate_answer question response).
  { unfold _evaluate_answer. destruct (q_question_type question).
    - now rewrite strip_lower, lower_idem.
    - now rewrite strip_lower, lower_idem.
    - rewrite (K eq_refl). now rewrite strip_lower, lower_idem.
    - now rewrite strip_lower, lower_idem. }
  split; [exact L | now rewrite M].
Qed.

(** The answer "Paris", shouted and indented. *)
Lemma verdict_ignores_case_and_margin_witness :
  let question := sample_q SINGLE_CHOICE "paris" None in
  let response := text_of_string "PARIS" in
  let a := text_of_string "  " in
  let b := [ascii_of_nat 10] in
  _evaluate_answer question (a ++ response ++ b) = _evaluate_answer question response /\
  _evaluate_answer question (lower response) = _evaluate_answer question response /\
  _evaluate_answer question (a ++ lower response ++ b) = _evaluate_answer question response.
Proof.
  destruct (verdict_ignores_case_and_margin (sample_q SINGLE_CHOICE "paris" None)
              (text_of_string "PARIS") (text_of_string "  ") [ascii_of_nat 10]
              eq_refl eq_refl) as (M & L).
  split; [exact M|]. apply L. discriminate.
Defined.

Lemma contains_infix (sub s : text) :
  contains sub s = true <-> exists pre post, s = pre ++ sub ++ post.
Proof.
  rewrite contains_split. split.
  - destruct (split_first sub s) as [[pre post]|] eqn:E; [|discriminate].
    intros _. exists pre, post. now apply split_first_app.
  - intros (pre & post & E). destruct (split_first sub s) as [[x y]|] eqn:F; [reflexivity|].
    exfalso. exact (split_first_none _ _ F pre post E).
Qed.

(** X12. A short-answer question without keywords (none, or an empty list) accepts a
    response exactly when, both trimmed and in lower case, one of the response and
    the correct answer is a contiguous part of the other. So it accepts the correct
    answer itself, and it accepts every blank response, the empty one included. *)
Theorem keywordless_short_answer_lenient :
  forall (question : Question) (response : text),
  q_question_type question = SHORT_ANSWER ->
  keywords_truthy question = false ->
  (_evaluate_answer question response = true <->
   (exists pre post,
      normalized response = pre ++ normalized (q_correct_answer question) ++ post) \/
   (exists pre post,
      normalized (q_correct_answer question) = pre ++ normalized response ++ post)) /\
  _evaluate_answer question (q_correct_answer question) = true /\
  (blank response = true -> _evaluate_answer question response = true).
Proof.
  intros question response T K.
  assert (E : forall r, _evaluate_answer question r
                        = contains (normalized (q_correct_answer question)) (normalized r)
                          || contains (normalized r) (normalized (q_correct_answer question))).
  { intros r. unfold _evaluate_answer. now rewrite T, K. }
  split; [|split].
  - rewrite E, orb_true_iff, !contains_infix. reflexivity.
  - rewrite E. apply orb_true_iff. left. apply contains_infix. exists [], [].
    now rewrite app_nil_r.
  - intros B. rewrite E. apply orb_true_iff. right.
    unfold normalized at 1. rewrite (strip_blank _ B). apply contains_nil.
Qed.

(** The question answered "adenosine triphosphate", and the response of one blank. *)
Lemma keywordless_short_answer_lenient_witness :
  _evaluate_answer (sample_q SHORT_ANSWER "adenosine triphosphate" None) (text_of_string " ")
  = true.
Proof.
  destruct (keywordless_short_answer_lenient
              (sample_q SHORT_ANSWER "adenosine triphosphate" None) (text_of_string " ")
              eq_refl eq_refl) as (_ & _ & B).
  apply B. reflexivity.
Defined.

Lemma evaluate_by_hits (question : Question) (response : text) :
  keywords_truthy question = true ->
  len (get_keywords_list question) <= 2 ^ 50 ->
  let n := len (get_keywords_list question) in
  let m := hits question response in
  (q_question_type question = SHORT_ANSWER ->
   _evaluate_answer question response = (n <=? 2 * m)) /\
  (q_question_type question = ESSAY ->
   _evaluate_answer question response = (1 <=? m) && (3 * n <=? 10 * m)).
Proof.
  intros K B n m.
  assert (N : 0 <= n) by apply len_nonneg.
  assert (M : 0 <= m <= n) by apply len_filter_le.
  assert (H : count_matches (map lower (get_keywords_list question)) (lower (strip response))
              = m).
  { unfold count_matches, m, hits, normalized. apply filter_map_len. }
  split; intros T; unfold _evaluate_answer; rewrite T, K, H, len_map; fold n.
  - rewrite (half_threshold n m) by lia.
    destruct (Z.leb_spec n (2 * m)) as [C|C].
    + apply Qle_bool_iff. apply inject_Z_le in C. rewrite inject_Z_mult in C.
      change (inject_Z 2) with 2%Q in C.
      set (a := inject_Z n) in *. set (b := inject_Z m) in *. clearbody a b. lra.
    + destruct (Qle_bool _ _) eqn:Q; [|reflexivity]. apply Qle_bool_iff in Q.
      assert (C' : 2 * m + 1 <= n) by lia. apply inject_Z_le in C'.
      rewrite inject_Z_plus, inject_Z_mult in C'.
      change (inject_Z 2) with 2%Q in C'. change (inject_Z 1) with 1%Q in C'.
      set (a := inject_Z n) in *. set (b := inject_Z m) in *. clearbody a b. lra.
  - rewrite (essay_threshold n m) by lia.
    destruct (Z.leb_spec 1 m) as [C1|C1]; destruct (Z.leb_spec (3 * n) (10 * m)) as [C2|C2];
      cbn [andb].
    + apply Qle_bool_iff. apply inject_Z_le in C1, C2. rewrite !inject_Z_mult in C2.
      change (inject_Z 3) with 3%Q in C2. change (inject_Z 10) with 10%Q in C2.
      change (inject_Z 1) with 1%Q in C1.
      set (a := inject_Z n) in *. set (b := inject_Z m) in *. clearbody a b.
      apply Q.max_lub; lra.
    + destruct (Qle_bool _ _) eqn:Q; [|reflexivity]. apply Qle_bool_iff in Q.
      assert (C' : 10 * m + 1 <= 3 * n) by lia. apply inject_Z_le in C'.
      rewrite inject_Z_plus, !inject_Z_mult in C'.
      change (inject_Z 3) with 3%Q in C'. change (inject_Z 10) with 10%Q in C'.
      change (inject_Z 1) with 1%Q in C'.
      pose proof (Q.le_max_r 1 (inject_Z n * (3 # 10))) as X.
      set (a := inject_Z n) in *. set (b := inject_Z m) in *. clearbody a b. lra.
    + destruct (Qle_bool _ _) eqn:Q; [|reflexivity]. apply Qle_bool_iff in Q.
      assert (C' : m + 1 <= 1) by lia. apply inject_Z_le in C'.
      rewrite inject_Z_plus in C'. change (inject_Z 1) with 1%Q in C'.
      pose proof (Q.le_max_l 1 (inject_Z n * (3 # 10))) as X.
      set (a := inject_Z n) in *. set (b := inject_Z m) in *. clearbody a b. lra.
    + destruct (Qle_bool _ _) eqn:Q; [|reflexivity]. apply Qle_bool_iff in Q.
      assert (C' : m + 1 <= 1) by lia. apply inject_Z_le in C'.
      rewrite inject_Z_plus in C'. change (inject_Z 1) with 1%Q in C'.
      pose proof (Q.le_max_l 1 (inject_Z n * (3 # 10))) as X.
      set (a := inject_Z n) in *. set (b := inject_Z m) in *. clearbody a b. lra.
Qed.

Lemma hits_all (question : Question) (response : text) :
  Forall (fun kw => contains (lower kw) (normalized response) = true)
         (get_keywords_list question) ->
  hits question response = len (get_keywords_list question).
Proof. intros H. unfold hits. now rewrite AdviceFacts.filter_all. Qed.

Lemma hits_none (question : Question) (response : text) :
  Forall (fun kw => contains (lower kw) (normalized response) = false)
         (get_keywords_list question) ->
  hits question response = 0.
Proof. intros H. unfold hits. now rewrite AdviceFacts.filter_none. Qed.

(** X13. On a short-answer or essay question with keywords (at most 2^50 of them),
    with [n] keywords of which [m] occur in the response, the short answer passes
    exactly when n <= 2 m and the essay exactly when m >= 1 and 3 n <= 10 m, in
    integers. So a response in which every keyword occurs passes, one in which none
    occurs fails, and a verdict never turns from pass to fail when more keywords are
    found. *)
Theorem keyword_verdict_in_integers :
  forall (question : Question) (response : text),
  keywords_truthy question = true ->
  len (get_keywords_list question) <= 2 ^ 50 ->
  q_question_type question = SHORT_ANSWER \/ q_question_type question = ESSAY ->
  let n := len (get_keywords_list question) in
  let m := hits question response in
  1 <= n /\ 0 <= m <= n /\
  _evaluate_answer question response
  = (match q_question_type question with
     | ESSAY => (1 <=? m) && (3 * n <=? 10 * m)
     | _ => n <=? 2 * m
     end) /\
  (m = n -> _evaluate_answer question response = true) /\
  (m = 0 -> _evaluate_answer question response = false) /\
  (forall response', m <= hits question response' ->
     _evaluate_answer question response = true ->
     _evaluate_answer question response' = true).
Proof.
  intros question response K B T n m.
  assert (N : 1 <= n).
  { unfold n, get_keywords_list. unfold keywords_truthy in K.
    destruct (q_keywords question) as [[|kw kws]|]; try discriminate.
    rewrite len_cons. pose proof (len_nonneg kws). lia. }
  assert (M : 0 <= m <= n) by apply len_filter_le.
  assert (E : forall r, _evaluate_answer question r
                        = match q_question_type question with
                          | ESSAY => (1 <=? hits question r) && (3 * n <=? 10 * hits question r)
                          | _ => n <=? 2 * hits question r
                          end).
  { intros r. destruct (evaluate_by_hits question r K B) as [S Y].
    destruct T as [T|T]; rewrite T; [now apply S | now apply Y]. }
  split; [exact N|]. split; [exact M|]. split; [apply E|].
  split; [|split].
  - intros Q. rewrite E. fold m. rewrite Q.
    destruct (q_question_type question);
      try (apply Z.leb_le; lia); apply andb_true_iff; split; apply Z.leb_le; lia.
  - intros Q. rewrite E. fold m. rewrite Q.
    destruct (q_question_type question);
      try (apply Z.leb_gt; lia); reflexivity.
  - intros r' H. rewrite !E. fold m.
    destruct (q_question_type question); rewrite ?andb_true_iff, ?Z.leb_le; lia.
Qed.

(** Two keywords, one of them found. *)
Lemma keyword_verdict_in_integers_witness :
  _evaluate_answer (sample_q SHORT_ANSWER "atp" (Some ["mitochondria"; "energy"]%string))
    (text_of_string "The Mitochondria does it")
  = (2 <=? 2 * 1).
Proof.
  destruct (keyword_verdict_in_integers
              (sample_q SHORT_ANSWER "atp" (Some ["mitochondria"; "energy"]%string))
              (text_of_string "The Mitochondria does it")
              eq_refl ltac:(vm_compute; discriminate) (or_introl eq_refl))
    as (_ & _ & E & _).
  exact E.
Defined.

End VerdictFacts.

(** * The correct rate: what it depends on *)
Module TallyFacts.
Import PyStr PyStrFacts Float64 Float64Facts QAGen Adjuster Questions RateFacts Grading.
Local Open Scope Z_scope.

Lemma update_by_tally (question : Question) (rows : list StudentResponse) :
  let known := filter (relevant question) rows in
  _update_correct_rate question rows =
  if len known =? 0 then question
  else {| q_id := q_id question;
          q_question_type := q_question_type question;
          q_correct_answer := q_correct_answer question;
          q_keywords := q_keywords question;
          q_usage_count := q_usage_count question;
          q_correct_rate :=
            Some (tally_rate (len (filter (fun r => is_true (r_is_correct r)) known))
                             (len known)) |}.
Proof.
  intros known. unfold _update_correct_rate.
  change (filter (fun r => (r_question_id r =? q_id question) && is_known (r_is_correct r)) rows)
    with known.
  destruct known as [|k known']; [reflexivity|].
  replace (len (k :: known') =? 0) with false; [reflexivity|].
  symmetry. apply Z.eqb_neq. rewrite len_cons. pose proof (len_nonneg known'). lia.
Qed.

Lemma filter_perm {A} (f : A -> bool) (l l' : list A) :
  Permutation l l' -> Permutation (filter f l) (filter f l').
Proof.
  induction 1 as [|x l l' _ IH|x y l|l l' l'' _ IH1 _ IH2]; cbn [filter].
  - constructor.
  - destruct (f x); [now constructor | exact IH].
  - destruct (f x), (f y); try reflexivity. constructor.
  - now transitivity (filter f l').
Qed.

Lemma len_perm {A} (l l' : list A) : Permutation l l' -> len l = len l'.
Proof. intros P. unfold len. now rewrite (Permutation_length P). Qed.

Lemma filter_twice {A} (f : A -> bool) (l : list A) : filter f (filter f l) = filter f l.
Proof.
  induction l as [|x l IH]; [reflexivity|]. cbn [filter].
  destruct (f x) eqn:E; [|exact IH]. cbn [filter]. now rewrite E, IH.
Qed.

Lemma filter_full {A} (f : A -> bool) (l : list A) :
  len (filter f l) = len l -> Forall (fun x => f x = true) l.
Proof.
  induction l as [|x l IH]; intros H; [constructor|]. cbn [filter] in H.
  pose proof (len_filter_le f l) as B. destruct (f x) eqn:E.
  - rewrite !len_cons in H. constructor; [exact E | apply IH; lia].
  - rewrite len_cons in H. lia.
Qed.

Lemma tally_all (t : Z) : 0 < t -> tally_rate t t = 100.
Proof.
  intros T. unfold tally_rate. rewrite (AdviceFacts.truediv_same t T).
  vm_compute. reflexivity.
Qed.

Lemma tally_none (t : Z) : tally_rate 0 t = 0.
Proof.
  unfold tally_rate. rewrite AdviceFacts.truediv_zero. vm_compute. reflexivity.
Qed.

(** X14. The rate an update stores depends on the rows only through the question's
    rows of known correctness, and on these only through their number and the
    number of correct ones: the order of the rows, the rows of other questions and
    the rows of unknown correctness make no difference, and a second update on the
    same rows changes nothing. *)
Theorem rate_depends_on_tally :
  forall (question : Question) (rows rows' : list StudentResponse),
  Permutation rows rows' ->
  _update_correct_rate question rows' = _update_correct_rate question rows /\
  _update_correct_rate question (filter (relevant question) rows)
  = _update_correct_rate question rows /\
  (forall others,
     forallb (fun r => negb (relevant question r)) others = true ->
     _update_correct_rate question (rows ++ others) = _update_correct_rate question rows /\
     _update_correct_rate question (others ++ rows) = _update_correct_rate question rows) /\
  _update_correct_rate (_update_correct_rate question rows) rows
  = _update_correct_rate question rows.
Proof.
  intros question rows rows' P.
  split; [|split; [|split]].
  - rewrite !update_by_tally. cbv zeta.
    pose proof (filter_perm (relevant question) _ _ P) as PK.
    rewrite <- (len_perm _ _ PK).
    rewrite <- (len_perm _ _ (filter_perm (fun r => is_true (r_is_correct r)) _ _ PK)).
    reflexivity.
  - rewrite !update_by_tally. cbv zeta. now rewrite filter_twice.
  - intros others O.
    assert (N : filter (relevant question) others = []).
    { apply AdviceFacts.filter_none. apply Forall_forall. intros r I.
      rewrite forallb_forall in O. specialize (O r I). now apply negb_true_iff in O. }
    split; rewrite !update_by_tally; cbv zeta; rewrite !filter_app, N;
      cbn [app]; rewrite ?app_nil_r; reflexivity.
  - assert (I : q_id (_update_correct_rate question rows) = q_id question).
    { rewrite update_by_tally. cbv zeta. now destruct (_ =? 0). }
    rewrite (update_by_tally (_update_correct_rate question rows)). cbv zeta.
    unfold relevant. rewrite I. fold (relevant question).
    rewrite update_by_tally. cbv zeta.
    destruct (len (filter (relevant question) rows) =? 0); reflexivity.
Qed.

(** Three rows of the question, a stranger among them, in two orders. *)
Lemma rate_depends_on_tally_witness :
  _update_correct_rate (sample_q SHORT_ANSWER "atp" None)
    [sample_row 1 (Some false); sample_row 2 (Some true); sample_row 1 (Some true);
     sample_row 1 (Some true)]
  = _update_correct_rate (sample_q SHORT_ANSWER "atp" None)
      [sample_row 1 (Some true); sample_row 1 (Some false); sample_row 2 (Some true);
       sample_row 1 (Some true)].
Proof.
  apply (rate_depends_on_tally (sample_q SHORT_ANSWER "atp" None)
           [sample_row 1 (Some true); sample_row 1 (Some false); sample_row 2 (Some true);
            sample_row 1 (Some true)]
           [sample_row 1 (Some false); sample_row 2 (Some true); sample_row 1 (Some true);
            sample_row 1 (Some true)]).
  apply perm_trans with
    (l' := [sample_row 1 (Some false); sample_row 1 (Some true); sample_row 2 (Some true);
            sample_row 1 (Some true)]).
  - apply perm_swap.
  - apply perm_skip. apply perm_swap.
Defined.

(** X15. When the question has rows of known correctness, the stored rate is 100 if
    all of them are correct and 0 if none is. Conversely, for at most 2^40 such
    rows, a stored 100 means that all of them are correct, and a stored 0 that
    fewer than one in fifty is. *)
Theorem rate_extremes :
  forall (question : Question) (rows : list StudentResponse),
  let known := filter (relevant question) rows in
  let correct := filter (fun r => is_true (r_is_correct r)) known in
  let rate := q_correct_rate (_update_correct_rate question rows) in
  known <> [] ->
  (correct = known -> rate = Some 100) /\
  (correct = [] -> rate = Some 0) /\
  (len known <= 2 ^ 40 -> rate = Some 100 ->
   Forall (fun r => r_is_correct r = Some true) known) /\
  (len known <= 2 ^ 40 -> rate = Some 0 -> 50 * len correct < len known).
Proof.
  intros question rows known correct rate N.
  assert (T : 0 < len known).
  { destruct known; [congruence|]. rewrite len_cons. pose proof (len_nonneg known). lia. }
  assert (R : rate = Some (tally_rate (len correct) (len known))).
  { unfold rate. rewrite update_by_tally. cbv zeta. fold known. fold correct.
    destruct (Z.eqb_spec (len known) 0); [lia | reflexivity]. }
  assert (C : 0 <= len correct <= len known) by apply len_filter_le.
  split; [|split; [|split]].
  - intros E. rewrite R, E. f_equal. now apply tally_all.
  - intros E. rewrite R, E. change (len (@nil StudentResponse)) with 0.
    now rewrite tally_none.
  - intros B H. rewrite R in H. injection H as H.
    pose proof (rate_bounds (len correct) (len known) C (conj T B)) as RB.
    cbv zeta in RB. fold (tally_rate (len correct) (len known)) in RB. rewrite H in RB.
    assert (F : len correct = len known).
    { destruct RB as [_ RB].
      pose proof (Z.mul_div_le (100 * len correct) (len known) T). nia. }
    apply filter_full in F. revert F. apply Forall_impl.
    intros r. destruct (r_is_correct r) as [[]|]; cbn; congruence.
  - intros B H. rewrite R in H. injection H as H.
    pose proof (rate_bounds (len correct) (len known) C (conj T B)) as RB.
    cbv zeta in RB. fold (tally_rate (len correct) (len known)) in RB. rewrite H in RB.
    destruct RB as [RB _].
    pose proof (Z.div_mod (100 * len correct) (len known) ltac:(lia)).
    pose proof (Z.mod_pos_bound (100 * len correct) (len known) T). nia.
Qed.

(** Three correct answers of three. *)
Lemma rate_extremes_witness :
  q_correct_rate (_update_correct_rate (sample_q SHORT_ANSWER "atp" None)
                    (repeat (sample_row 1 (Some true)) 3)) = Some 100.
Proof.
  destruct (rate_extremes (sample_q SHORT_ANSWER "atp" None)
              (repeat (sample_row 1 (Some true)) 3) ltac:(discriminate)) as (A & _).
  apply A. reflexivity.
Defined.

End TallyFacts.

(** * The learning trend: its window *)
Module WindowFacts.
Import PyStr PyStrFacts Float64 Float64Facts QAGen Adjuster Questions Analytics TrendFacts.
Local Open Scope Z_scope.

Lemma groups_count (fuel : nat) :
  forall l : list StudentResponse,
  (List.length l <= fuel)%nat -> len (spec_groups fuel l) = (len l + 2) / 5.
Proof.
  induction fuel as [|fuel IH]; intros l H.
  - destruct l; [reflexivity | cbn in H; lia].
  - cbn [spec_groups]. destruct l as [|x l]; [reflexivity|].
    set (g := firstn 5 (x :: l)).
    assert (LG : len g = Z.min 5 (len (x :: l))) by (unfold g, len; rewrite length_firstn; lia).
    assert (P : 1 <= len (x :: l)) by (rewrite len_cons; pose proof (len_nonneg l); lia).
    destruct (Z.leb_spec 5 (len g)) as [F|F].
    + rewrite len_cons, IH by (rewrite length_skipn; cbn [List.length] in *; lia).
      rewrite len_skipn.
      replace (Z.max 0 (len (x :: l) - Z.of_nat 5)) with (len (x :: l) - 5) by lia.
      replace (len (x :: l) + 2) with (len (x :: l) - 5 + 2 + 1 * 5) by lia.
      rewrite Z.div_add by lia. lia.
    + assert (E : len (x :: l) = len g) by lia. rewrite E.
      destruct (Z.leb_spec 3 (len g)).
      * change (len [g]) with 1.
        assert (Q : len g = 3 \/ len g = 4) by lia. destruct Q as [-> | ->]; reflexivity.
      * change (len (@nil (list StudentResponse))) with 0.
        assert (Q : len g = 1 \/ len g = 2) by lia. destruct Q as [-> | ->]; reflexivity.
Qed.

Lemma rate_in_range (c n : Z) :
  0 <= c <= n -> 0 < n -> (0 <= double_rate c n <= 100)%Q.
Proof.
  intros C N. unfold double_rate, fmul.
  pose proof (AdviceFacts.truediv_unit c n C N) as [U0 U1].
  pose proof (float_of_int_exact 100 ltac:(lia)) as E. change (inject_Z 100) with 100%Q in E.
  set (q := int_truediv c n) in *. set (h := float_of_int 100) in *. clearbody q h.
  split.
  - apply rnd_nonneg. rewrite E. lra.
  - apply (rnd_le_int _ 100); [|lia]. change (inject_Z 100) with 100%Q. rewrite E. lra.
Qed.

Lemma groups_within (fuel : nat) (l : list StudentResponse) :
  (List.length l <= fuel)%nat ->
  forall g, In g (spec_groups fuel l) -> incl g l.
Proof.
  intros H g I. destruct (groups_cover fuel l H) as (tail & E & _).
  intros x Ix. rewrite E. apply in_or_app. left. apply in_concat. now exists g.
Qed.

Lemma count_uniform (v : bool) (g : list StudentResponse) :
  Forall (fun r => is_true (r_is_correct r) = v) g ->
  count_correct g = if v then len g else 0.
Proof.
  intros H. unfold count_correct. destruct v.
  - now rewrite AdviceFacts.filter_all.
  - now rewrite AdviceFacts.filter_none.
Qed.

Lemma uniform_rates_stable (x : float) (rates : list float) :
  Forall (fun r => r = x) rates ->
  Qle_bool x (fadd x (float_of_int 10)) = true ->
  Qle_bool (fsub x (float_of_int 10)) x = true ->
  trend_of_rates rates = Stable.
Proof.
  intros F A B. unfold trend_of_rates.
  destruct (Z.leb_spec 2 (len rates)) as [G|G]; [|reflexivity].
  destruct rates as [|r rates]; [cbn in G; lia|].
  assert (L : List.last (r :: rates) 0%Q = x).
  { rewrite Forall_forall in F. apply F.
    destruct (exists_last (l := r :: rates) ltac:(discriminate)) as (l' & a & E).
    rewrite E, last_last. apply in_or_app. right. now left. }
  assert (H : hd 0%Q (r :: rates) = x) by (now inversion F).
  rewrite L, H, A, B. reflexivity.
Qed.

(** X16. With five responses or more the analysis gives a trend and a list of rates.
    The rates are (n + 2) / 5 in number, [n] being the number of responses up to
    twenty, so between one and four, and each lies between 0 and 100. With fewer
    than eight responses there is one rate and the trend is Stable; so it is when
    the first twenty responses are all correct (every rate is 100) or all not
    correct (every rate is 0). The trend and the rates are those of the first
    twenty responses alone. *)
Theorem trend_window :
  forall responses : list StudentResponse,
  5 <= len responses ->
  exists (performance_trend : trend) (rates : list float),
    _analyze_learning_trends responses = Trends performance_trend rates /\
    len rates = (Z.min 20 (len responses) + 2) / 5 /\
    1 <= len rates <= 4 /\
    Forall (fun r => 0 <= r <= 100)%Q rates /\
    (len responses < 8 -> performance_trend = Stable) /\
    (forall v : bool,
       Forall (fun r => is_true (r_is_correct r) = v) (firstn 20 responses) ->
       performance_trend = Stable /\
       Forall (fun r => r = if v then 100%Q else 0%Q) rates) /\
    _analyze_learning_trends (firstn 20 responses) = _analyze_learning_trends responses.
Proof.
  intros responses H.
  set (recent := sorted_by_time (firstn 20 responses)).
  set (groups := spec_groups (List.length recent) recent).
  assert (A : _analyze_learning_trends responses
              = Trends (trend_of_rates (map float_rate groups)) (map float_rate groups)).
  { unfold _analyze_learning_trends. destruct (Z.ltb_spec (len responses) 5); [lia|].
    fold recent. pose proof (batch_loop_groups (List.length recent) recent 0 []) as BL.
    cbn [Z.of_nat app skipn] in BL. rewrite BL. reflexivity. }
  assert (LR : len recent = Z.min 20 (len responses)).
  { unfold recent, len. rewrite (Permutation_length (sort_perm _)), length_firstn. lia. }
  assert (LG : len (map float_rate groups) = (Z.min 20 (len responses) + 2) / 5).
  { rewrite len_map. unfold groups. rewrite groups_count by lia. now rewrite LR. }
  assert (B : 1 <= (Z.min 20 (len responses) + 2) / 5 <= 4).
  { split; [apply Z.div_le_lower_bound; lia|].
    assert ((Z.min 20 (len responses) + 2) / 5 < 5); [|lia].
    apply Z.div_lt_upper_bound; lia. }
  exists (trend_of_rates (map float_rate groups)), (map float_rate groups).
  split; [exact A|]. split; [exact LG|]. split; [lia|].
  split; [|split; [|split]].
  - apply Forall_forall. intros r I. apply in_map_iff in I. destruct I as (g & <- & I).
    pose proof (groups_sizes (List.length recent) recent) as S.
    rewrite Forall_forall in S. specialize (S g I).
    apply rate_in_range; [apply len_filter_le | lia].
  - intros L. unfold trend_of_rates. rewrite LG.
    assert (Q : (Z.min 20 (len responses) + 2) / 5 < 2).
    { apply Z.div_lt_upper_bound; lia. }
    destruct (Z.leb_spec 2 ((Z.min 20 (len responses) + 2) / 5)); [lia | reflexivity].
  - intros v F.
    assert (R : Forall (fun r => r = if v then 100%Q else 0%Q) (map float_rate groups)).
    { apply Forall_forall. intros r I. apply in_map_iff in I. destruct I as (g & <- & I).
      pose proof (groups_sizes (List.length recent) recent) as S.
      rewrite Forall_forall in S. specialize (S g I).
      assert (U : Forall (fun r => is_true (r_is_correct r) = v) g).
      { apply Forall_forall. intros x Ix. rewrite Forall_forall in F. apply F.
        apply (Permutation_in _ (sort_perm (firstn 20 responses))).
        exact (groups_within _ _ (Nat.le_refl _) g I x Ix). }
      unfold float_rate, double_rate. rewrite (count_uniform v g U). destruct v.
      - rewrite AdviceFacts.truediv_same by lia. vm_compute. reflexivity.
      - rewrite AdviceFacts.truediv_zero. vm_compute. reflexivity. }
    split; [|exact R].
    apply (uniform_rates_stable _ _ R); destruct v; vm_compute; reflexivity.
  - unfold _analyze_learning_trends.
    assert (L20 : len (firstn 20 responses) = Z.min 20 (len responses)).
    { unfold len. rewrite length_firstn. lia. }
    rewrite L20. destruct (Z.ltb_spec (Z.min 20 (len responses)) 5); [lia|].
    destruct (Z.ltb_spec (len responses) 5); [lia|].
    now rewrite firstn_firstn.
Qed.

(** The twenty responses that rise from 40 to 80 per cent. *)
Lemma trend_window_witness :
  exists (performance_trend : trend) (rates : list float),
    _analyze_learning_trends rising_responses = Trends performance_trend rates /\
    len rates = 4.
Proof.
  destruct (trend_window rising_responses ltac:(vm_compute; discriminate))
    as (t & rates & A & L & _).
  exists t, rates. split; [exact A | exact L].
Defined.

End WindowFacts.

(** * Extraction: parts of the reply and round trips *)
Module ReplyFacts.
Import PyStr PyStrFacts Py QAGen LadderFacts Replies.
Local Open Scope Z_scope.

Lemma lstrip_suffix (s : text) : exists a, s = a ++ lstrip s.
Proof.
  induction s as [|c s [a IH]]; [now exists []|]. cbn [lstrip].
  destruct (is_space c); [|now exists []].
  exists (c :: a). cbn [app]. now f_equal.
Qed.

Lemma rstrip_prefix (s : text) : exists b, s = rstrip s ++ b.
Proof.
  unfold rstrip. destruct (lstrip_suffix (rev s)) as [a E]. exists (rev a).
  apply (f_equal (@rev ascii)) in E. now rewrite rev_involutive, rev_app_distr in E.
Qed.

Lemma strip_part (s : text) : exists a b, s = a ++ strip s ++ b.
Proof.
  destruct (lstrip_suffix s) as [a E]. destruct (rstrip_prefix (lstrip s)) as [b F].
  exists a, b. unfold strip. now rewrite <- F.
Qed.

Lemma close_span_ends (rest : text) :
  forall (extra : nat) (p : text),
  close_span rest extra = Some p -> exists x, p = x ++ close_brace.
Proof.
  induction rest as [|c rest IH]; intros extra p H; cbn [close_span] in H; [discriminate|].
  destruct (Ascii.eqb c "{").
  - destruct (close_span rest (S extra)) as [p'|] eqn:E; [|discriminate].
    injection H as <-. destruct (IH _ _ E) as [x ->]. now exists (c :: x).
  - destruct (Ascii.eqb c "}") eqn:C.
    + destruct extra as [|e].
      * injection H as <-. apply Ascii.eqb_eq in C. subst c. now exists [].
      * destruct (close_span rest e) as [p'|] eqn:E; [|discriminate].
        injection H as <-. destruct (IH _ _ E) as [x ->]. now exists (c :: x).
    + destruct (close_span rest extra) as [p'|] eqn:E; [|discriminate].
      injection H as <-. destruct (IH _ _ E) as [x ->]. now exists (c :: x).
Qed.

Lemma endswith_app (x p : text) : endswith (x ++ p) p = true.
Proof. unfold endswith. rewrite rev_app_distr. apply startswith_app. Qed.

Lemma has_char_app (c : ascii) (a b : text) :
  has_char c (a ++ b) = has_char c a || has_char c b.
Proof. apply existsb_app. Qed.

Lemma startswith_head (r : text) (c : ascii) :
  startswith r [c] = true -> has_char c r = true.
Proof.
  destruct r as [|x r]; cbn; [discriminate|]. rewrite andb_true_iff. intros [E _].
  apply Ascii.eqb_eq in E. subst x. now rewrite Ascii.eqb_refl.
Qed.

Lemma tagged_needs_tag (s : text) :
  contains fence_json s = false -> spec_tagged_fence s = None.
Proof.
  rewrite contains_split. unfold spec_tagged_fence, fence_interior.
  now destruct (split_first fence_json s) as [[a b]|].
Qed.

Lemma extract_cases (s r : text) :
  _extract_json_from_response s = Some r ->
  spec_tagged_fence s = Some r \/
  (spec_tagged_fence s = None /\
   (spec_generic_fence s = Some r \/ spec_balanced_span s = Some r
    \/ spec_whole_reply s = Some r)).
Proof.
  rewrite ladder_refines. cbn [first_match spec_ladder].
  destruct (spec_tagged_fence s); [intros [= ->]; now left|].
  destruct (spec_generic_fence s); [intros [= ->]; right; split; auto|].
  destruct (spec_balanced_span s); [intros [= ->]; right; split; auto|].
  destruct (spec_whole_reply s); [intros [= ->]; right; split; auto | discriminate].
Qed.

Lemma object_shaped_ends (r : text) :
  object_shaped r = true ->
  startswith r open_brace = true /\ endswith r close_brace = true.
Proof. unfold object_shaped. now rewrite andb_true_iff. Qed.

Lemma extract_shape (s r : text) :
  _extract_json_from_response s = Some r ->
  (exists pre post, s = pre ++ r ++ post) /\
  (contains fence_json s = false ->
   startswith r open_brace = true /\ endswith r close_brace = true).
Proof.
  intros H. destruct (extract_cases s r H) as [T | [T [G | [B | W]]]].
  - split.
    + unfold spec_tagged_fence in T.
      destruct (fence_interior fence_json s) as [m|] eqn:E; [|discriminate].
      injection T as <-. destruct (fence_interior_first _ _ _ E) as (pre & post & -> & _).
      destruct (strip_part m) as (a & b & M).
      exists (pre ++ fence_json ++ a), (b ++ fence ++ post).
      rewrite M at 1. now rewrite <- !app_assoc.
    + intros N. rewrite (tagged_needs_tag s N) in T. discriminate.
  - unfold spec_generic_fence in G.
    destruct (fence_interior fence s) as [m|] eqn:E; [|discriminate].
    destruct (object_shaped (strip m)) eqn:O; [|discriminate]. injection G as <-.
    split; [|intros _; now apply object_shaped_ends].
    destruct (fence_interior_first _ _ _ E) as (pre & post & -> & _).
    destruct (strip_part m) as (a & b & M).
    exists (pre ++ fence ++ a), (b ++ fence ++ post).
    rewrite M at 1. now rewrite <- !app_assoc.
  - destruct (balanced_span_sound s r B) as (pre & post & E & _ & S & _).
    split; [now exists pre, post|]. intros _. split; [exact S|].
    unfold spec_balanced_span in B.
    destruct (split_first open_brace s) as [[x rest]|]; [|discriminate].
    destruct (close_span rest 0) as [p|] eqn:C; [|discriminate]. injection B as <-.
    destruct (close_span_ends _ _ _ C) as [y ->].
    match goal with
    | |- endswith ?t _ = true => change t with ((open_brace ++ y) ++ close_brace)
    end.
    apply endswith_app.
  - unfold spec_whole_reply in W.
    destruct (object_shaped (strip s)) eqn:O; [|discriminate]. injection W as <-.
    split; [apply strip_part | intros _; now apply object_shaped_ends].
Qed.

(** X17. What the extraction returns is a contiguous part of the reply, never text
    of its own making. When the reply holds no fence tagged json, the part starts
    with an opening and ends with a closing brace; so nothing at all is extracted
    from a reply with neither a tagged fence nor an opening brace. *)
Theorem extracted_text_is_part_of_reply :
  forall s r : text,
  _extract_json_from_response s = Some r ->
  (exists pre post, s = pre ++ r ++ post) /\
  (contains fence_json s = false ->
   startswith r open_brace = true /\ endswith r close_brace = true) /\
  (forall s', contains fence_json s' = false -> has_char "{" s' = false ->
              _extract_json_from_response s' = None).
Proof.
  intros s r H. destruct (extract_shape s r H) as [P S].
  split; [exact P|]. split; [exact S|].
  intros s' N B. destruct (_extract_json_from_response s') as [r'|] eqn:E; [|reflexivity].
  destruct (extract_shape s' r' E) as [(pre & post & ->) S'].
  destruct (S' N) as [O _]. apply startswith_head in O.
  rewrite !has_char_app, O, orb_true_r in B. discriminate.
Qed.

(** The reply with the nested object between two pieces of chatter. *)
Lemma extracted_text_is_part_of_reply_witness :
  exists pre post, nested_reply = pre ++ nested_payload ++ post.
Proof.
  destruct (extracted_text_is_part_of_reply nested_reply nested_payload
              ltac:(vm_compute; reflexivity)) as (P & _).
  exact P.
Defined.

Lemma split_first_fresh (c : ascii) (sub a b : text) :
  has_char c a = false -> split_first (c :: sub) (a ++ (c :: sub) ++ b) = Some (a, b).
Proof.
  induction a as [|x a IH]; intros H; rewrite split_first_eq.
  - cbn [app]. change (c :: sub ++ b) with ((c :: sub) ++ b).
    rewrite startswith_app. f_equal. f_equal.
    now rewrite skipn_app, skipn_all, Nat.sub_diag.
  - cbn [has_char existsb] in H. apply orb_false_iff in H. destruct H as [X H].
    cbn [app startswith]. rewrite X. cbn [andb].
    fold (has_char c a) in H. change (a ++ c :: sub ++ b) with (a ++ (c :: sub) ++ b).
    now rewrite (IH H).
Qed.

(** X18. A payload sent in a fence tagged json comes back trimmed, whatever stands
    before the fence and after it, as long as neither the text before nor the
    payload holds a backtick; what follows the closing fence is never looked at. *)
Theorem fenced_payload_round_trip :
  forall pre body post : text,
  has_char "`" pre = false ->
  has_char "`" body = false ->
  _extract_json_from_response (pre ++ fence_json ++ body ++ fence ++ post)
  = Some (strip body).
Proof.
  intros pre body post P B. rewrite ladder_refines. cbn [first_match spec_ladder].
  unfold spec_tagged_fence, fence_interior.
  change fence_json with ("`"%char :: text_of_string "``json").
  rewrite (split_first_fresh _ _ pre _ P).
  change fence with ("`"%char :: text_of_string "``").
  now rewrite (split_first_fresh _ _ body _ B).
Qed.

(** The object with the nested braces, fenced, between a greeting and a second fence. *)
Lemma fenced_payload_round_trip_witness :
  _extract_json_from_response
    (text_of_string "Sure: " ++ fence_json ++ (" "%char :: nested_payload) ++ fence
     ++ text_of_string " or ```{}```")
  = Some nested_payload.
Proof.
  apply (fenced_payload_round_trip (text_of_string "Sure: ") (" "%char :: nested_payload)
           (text_of_string " or ```{}```")); reflexivity.
Defined.

Lemma closes_close_span (p : text) :
  forall (extra : nat) (rest : text),
  closes_at_end p (Z.of_nat extra + 1) = true -> close_span (p ++ rest) extra = Some p.
Proof.
  induction p as [|c p IH]; intros extra rest H; cbn [closes_at_end] in H; [discriminate|].
  cbn [app close_span]. destruct (Ascii.eqb c "{").
  - destruct (Z.eqb_spec (Z.of_nat extra + 1 + 1) 0); [lia|].
    replace (Z.of_nat extra + 1 + 1) with (Z.of_nat (S extra) + 1) in H by lia.
    now rewrite (IH _ rest H).
  - destruct (Ascii.eqb c "}").
    + destruct extra as [|e].
      * cbn in H. destruct p; [reflexivity | discriminate].
      * destruct (Z.eqb_spec (Z.of_nat (S e) + 1 + -1) 0); [lia|].
        replace (Z.of_nat (S e) + 1 + -1) with (Z.of_nat e + 1) in H by lia.
        now rewrite (IH _ rest H).
    + destruct (Z.eqb_spec (Z.of_nat extra + 1 + 0) 0); [lia|].
      replace (Z.of_nat extra + 1 + 0) with (Z.of_nat extra + 1) in H by lia.
      now rewrite (IH _ rest H).
Qed.

Lemma no_fence_no_tag (s : text) :
  contains fence s = false -> contains fence_json s = false.
Proof.
  intros H. destruct (contains fence_json s) eqn:E; [|reflexivity].
  apply VerdictFacts.contains_infix in E. destruct E as (a & b & ->).
  assert (C : contains fence (a ++ fence_json ++ b) = true).
  { apply VerdictFacts.contains_infix. exists a, (text_of_string "json" ++ b). reflexivity. }
  congruence.
Qed.

(** X19. A payload sent bare comes back as it is: in a reply without any fence, an
    object that opens with the reply's first opening brace and whose last character
    closes that brace is extracted whole, braces nested inside it included, and
    the text around it is dropped. *)
Theorem bare_payload_round_trip :
  forall pre payload post : text,
  contains fence (pre ++ payload ++ post) = false ->
  has_char "{" pre = false ->
  balanced_object payload = true ->
  _extract_json_from_response (pre ++ payload ++ post) = Some payload.
Proof.
  intros pre payload post F P B. rewrite ladder_refines. cbn [first_match spec_ladder].
  rewrite (tagged_needs_tag _ (no_fence_no_tag _ F)).
  assert (G : spec_generic_fence (pre ++ payload ++ post) = None).
  { unfold spec_generic_fence, fence_interior. rewrite contains_split in F.
    now destruct (split_first fence (pre ++ payload ++ post)) as [[a b]|]. }
  rewrite G. destruct payload as [|c p]; [discriminate|].
  cbn [balanced_object] in B. apply andb_true_iff in B. destruct B as [C B].
  apply Ascii.eqb_eq in C. subst c.
  unfold spec_balanced_span.
  change (pre ++ ("{"%char :: p) ++ post) with (pre ++ ("{"%char :: []) ++ (p ++ post)).
  unfold open_brace. change (text_of_string "{") with ("{"%char :: @nil ascii).
  rewrite (split_first_fresh _ _ pre _ P).
  now rewrite (closes_close_span p 0 post B).
Qed.

(** The reply with the nested object, which holds a second pair of braces. *)
Lemma bare_payload_round_trip_witness :
  _extract_json_from_response nested_reply = Some nested_payload.
Proof.
  apply (bare_payload_round_trip (text_of_string "Here is the question: ") nested_payload
           (text_of_string " Good luck.")); reflexivity.
Defined.

End ReplyFacts.

(** * Generation: what a question is built from *)
Module BuildFacts.
Import PyStr PyStrFacts Py QAGen GenerationFacts.
Local Open Scope Z_scope.

Lemma check_required_all (fields : list text) (data : json) :
  check_required fields data = Ok true ->
  forall f, In f fields -> py_in f data = Ok true.
Proof.
  induction fields as [|x fields IH]; intros H f I; [destruct I|].
  cbn [check_required] in H. destruct (py_in x data) as [[|]|] eqn:E; try discriminate.
  destruct I as [<- | I]; [exact E | now apply IH].
Qed.

Lemma has_key_set (kv : list (text * json)) (k f : text) (v : json) :
  has_key kv f = true -> has_key (dict_set kv k v) f = true.
Proof.
  unfold has_key. induction kv as [|[k' v'] kv IH]; cbn [dict_set existsb fst];
    [discriminate|].
  intros H. destruct (text_eqb k' k) eqn:E; cbn [existsb fst].
  - apply text_eqb_eq in E. subst k'. exact H.
  - apply orb_true_iff in H. apply orb_true_iff. destruct H as [H|H]; [now left|].
    right. now apply IH.
Qed.

Lemma has_key_set_same (kv : list (text * json)) (k : text) (v : json) :
  has_key (dict_set kv k v) k = true.
Proof.
  unfold has_key. induction kv as [|[k' v'] kv IH]; cbn [dict_set existsb fst].
  - now rewrite text_eqb_refl.
  - destruct (text_eqb k' k) eqn:E; cbn [existsb fst].
    + now rewrite text_eqb_refl.
    + now rewrite IH, orb_true_r.
Qed.

Section Oracles.

Variable json_loads : text -> result json.
Variable World : Type.
Variable Prompt : Type.
Variable llm_invoke : World -> Prompt -> result text * World.
Variable create_prompt : SlideContent -> DifficultyLevel -> result Prompt.
Variable build_question : list (text * json) -> result GeneratedQuestion.

Let single := _generate_single_question json_loads World Prompt llm_invoke create_prompt
                build_question.

Lemma parsed_is_complete (content : text) (data : json) :
  _parse_response json_loads content = Some data ->
  exists payload decoded,
    _extract_json_from_response content = Some payload /\
    payload <> [] /\
    json_loads payload = Ok decoded /\
    (forall f, In f required_fields -> py_in f decoded = Ok true) /\
    ((py_in kw_field decoded = Ok true /\ data = decoded) \/
     (exists kv0, decoded = JObj kv0 /\ has_key kv0 kw_field = false /\
                  data = JObj (dict_set kv0 kw_field (JArr [])))).
Proof.
  unfold _parse_response, _parse_response_try. intros H.
  destruct (_extract_json_from_response content) as [payload|]; [|discriminate].
  destruct (Z.eqb_spec (len payload) 0) as [Z0|Z0]; [discriminate|].
  destruct (json_loads payload) as [decoded|e] eqn:J; [|discriminate].
  destruct (check_required required_fields decoded) as [[|]|e] eqn:C; try discriminate.
  exists payload, decoded. split; [reflexivity|].
  split; [intros ->; now apply Z0|]. split; [exact J|].
  split; [now apply check_required_all|].
  destruct (py_in kw_field decoded) as [[|]|e] eqn:K; try discriminate.
  - injection H as <-. now left.
  - right. destruct decoded as [| | | | |kv0]; try discriminate.
    cbn [set_default_keywords] in H. injection H as <-.
    cbn [py_in] in K. injection K as K. now exists kv0.
Qed.

(** X20. A question is only ever built from a complete object: when generating one
    question gives a question, the prompt was rendered, the model replied, a
    non-empty payload was extracted from the reply and decoded to an object with
    the five required fields, and the question was built from that object as
    decoded, or with keywords set to the empty list if it had none; either way the
    object handed to the builder holds the five fields and keywords. *)
Theorem question_built_from_complete_object :
  forall (w : World) (s : SlideContent) (d : DifficultyLevel) (q : GeneratedQuestion)
         (w' : World),
  single w s d = (Ok (Some q), w') ->
  exists prompt content payload kv0 kv,
    create_prompt s d = Ok prompt /\
    llm_invoke w prompt = (Ok content, w') /\
    _extract_json_from_response content = Some payload /\
    payload <> [] /\
    json_loads payload = Ok (JObj kv0) /\
    (forall f, In f required_fields -> has_key kv0 f = true) /\
    kv = (if has_key kv0 kw_field then kv0 else dict_set kv0 kw_field (JArr [])) /\
    (forall f, In f (required_fields ++ [kw_field]) -> has_key kv f = true) /\
    build_question kv = Ok q.
Proof.
  intros w s d q w' H.
  unfold single, _generate_single_question, _generate_single_question_try in H.
  destruct (create_prompt s d) as [prompt|e] eqn:P; [|discriminate].
  destruct (llm_invoke w prompt) as [[content|e] w1] eqn:L; [|discriminate].
  destruct (_parse_response json_loads content) as [data|] eqn:PR; [|discriminate].
  destruct (truthy data); [|discriminate].
  destruct data as [| | | | |kv]; try discriminate.
  destruct (build_question kv) as [q'|e] eqn:B; [|discriminate].
  injection H as <- <-.
  destruct (parsed_is_complete content (JObj kv) PR)
    as (payload & decoded & X & N & J & R & [[K E] | (kv0 & E & K & D)]).
  - subst decoded. cbn [py_in] in K. injection K as K.
    assert (R' : forall f, In f required_fields -> has_key kv f = true).
    { intros f I. specialize (R f I). cbn [py_in] in R. now injection R. }
    exists prompt, content, payload, kv, kv.
    repeat (split; [assumption || reflexivity|]).
    split; [now rewrite K|]. split; [|exact B].
    intros f I. apply in_app_or in I. destruct I as [I | [<- | []]]; [now apply R' | exact K].
  - subst decoded. injection D as ->.
    assert (R' : forall f, In f required_fields -> has_key kv0 f = true).
    { intros f I. specialize (R f I). cbn [py_in] in R. now injection R. }
    exists prompt, content, payload, kv0, (dict_set kv0 kw_field (JArr [])).
    repeat (split; [assumption || reflexivity|]).
    split; [now rewrite K|]. split; [|exact B].
    intros f I. apply in_app_or in I. destruct I as [I | [<- | []]].
    + apply has_key_set. now apply R'.
    + apply has_key_set_same.
Qed.

End Oracles.

(** The scripted model sends the complete reply, which has no keywords. *)
Lemma question_built_from_complete_object_witness :
  exists kv,
    sample_build kv = Ok sample_question /\
    has_key kv kw_field = true /\
    kv = dict_set complete_object kw_field (JArr []).
Proof.
  destruct (question_built_from_complete_object sample_loads script unit scripted_invoke
              unit_prompt sample_build [Ok complete_reply] (sample_slide 1 fifty_chars)
              EASY sample_question [] ltac:(vm_compute; reflexivity))
    as (prompt & content & payload & kv0 & kv & P & L & X & N & J & R & E & F & B).
  exists kv. split; [exact B|]. split.
  - apply F. apply in_or_app. right. now left.
  - assert (Ec : content = complete_reply) by (unfold scripted_invoke in L; congruence).
    subst content.
    assert (X' : _extract_json_from_response complete_reply = Some complete_payload)
      by (vm_compute; reflexivity).
    rewrite X' in X. injection X as <-.
    assert (J' : sample_loads complete_payload = Ok (JObj complete_object))
      by (vm_compute; reflexivity).
    rewrite J' in J. injection J as <-. exact E.
Defined.

End BuildFacts.

(** * Performance metrics of one response *)
Module MetricsFacts.
Import PyStr PyStrFacts Float64 Float64Facts Py QAGen Adjuster Responses.
Local Open Scope Z_scope.

Lemma rnd_nonzero (x : Q) : ~ (x == 0)%Q -> ~ (rnd x == 0)%Q.
Proof.
  intros N E. destruct (Q_dec x 0) as [[L|G]|Z0]; [| |contradiction].
  - assert (P : (0 < - x)%Q) by lra. apply rnd_pos in P. rewrite rnd_opp in P. lra.
  - apply rnd_pos in G. lra.
Qed.

Lemma inject_nonzero (n : Z) : n <> 0 -> ~ (inject_Z n == 0)%Q.
Proof.
  intros N E. change 0%Q with (inject_Z 0) in E. rewrite inject_Z_injective in E.
  contradiction.
Qed.

Lemma confidence_fraction (cl : Z) :
  cl <> 0 -> Qeq_bool (fdiv (float_of_int cl) 5%Q) 0%Q = false.
Proof.
  intros N.
  assert (D : ~ (fdiv (float_of_int cl) 5%Q == 0)%Q).
  { unfold fdiv, float_of_int. apply rnd_nonzero. intros E.
    pose proof (rnd_nonzero _ (inject_nonzero cl N)) as R.
    set (x := rnd (inject_Z cl)) in *. clearbody x.
    apply R. unfold Qdiv in E. apply Qmult_integral in E. destruct E as [E|E]; [exact E|].
    exfalso. revert E. apply Qeq_bool_neq. reflexivity. }
  destruct (Qeq_bool (fdiv (float_of_int cl) 5%Q) 0%Q) eqn:E; [|reflexivity].
  apply Qeq_bool_iff in E. contradiction.
Qed.

Lemma zero_over (d : float) : fdiv 0%Q d = 0%Q.
Proof. unfold fdiv. apply rnd_eq0. unfold Qdiv. ring. Qed.

Lemma metrics_closed_form (self : ResponseRow) :
  calculate_performance_metrics self
  = Ok {| accuracy := if bool_truthy (is_correct self) then 1%Q else 0%Q;
          response_efficiency := spec_efficiency self;
          confidence_accuracy_ratio := spec_ratio self |}.
Proof.
  destruct self as [ic rt cl q]. unfold calculate_performance_metrics, spec_efficiency, spec_ratio.
  cbn [is_correct response_time confidence_level question].
  assert (E : match rt with
              | Some rt =>
                  if negb (rt =? 0) then
                    match q with
                    | Some q =>
                        match estimated_time q with
                        | Some et =>
                            if negb (et =? 0) then
                              match int_div et rt with
                              | Ok x => Ok (Some x)
                              | Raise e => Raise e
                              end
                            else Ok None
                        | None => Ok None
                        end
                    | None => Ok None
                    end
                  else Ok None
              | None => Ok None
              end
              = Ok match rt, q with
                   | Some rt, Some q =>
                       match estimated_time q with
                       | Some et =>
                           if (rt =? 0) || (et =? 0) then None else Some (int_truediv et rt)
                       | None => None
                       end
                   | _, _ => None
                   end).
  { destruct rt as [rt|]; [|reflexivity]. destruct q as [[[et|]]|];
      cbn [estimated_time]; unfold int_div;
      destruct (rt =? 0); cbn [negb orb]; try reflexivity.
    destruct (et =? 0); reflexivity. }
  rewrite E. clear E.
  destruct cl as [cl|]; [|reflexivity].
  destruct (Z.eqb_spec cl 0) as [Z0|Z0]; cbn [negb]; [now destruct ic|].
  destruct ic as [v|]; [|reflexivity].
  unfold float_truediv.
  replace (Qeq_bool 5%Q 0%Q) with false by reflexivity. cbv beta iota.
  rewrite (confidence_fraction cl Z0).
  destruct v; cbn [bool_truthy]; [reflexivity|]. now rewrite zero_over.
Qed.

Lemma ratio_table :
  fdiv 1%Q (fdiv (float_of_int 1) 5%Q) = 5%Q /\
  fdiv 1%Q (fdiv (float_of_int 2) 5%Q) = (5 # 2)%Q /\
  fdiv 1%Q (fdiv (float_of_int 3) 5%Q) = rnd (5 # 3) /\
  fdiv 1%Q (fdiv (float_of_int 4) 5%Q) = (5 # 4)%Q /\
  fdiv 1%Q (fdiv (float_of_int 5) 5%Q) = 1%Q.
Proof. repeat split; vm_compute; reflexivity. Qed.

(** X21. Computing the metrics of a response whose integer columns hold 64-bit
    numbers never raises: each division is made only after its divisor was found
    not to be zero. The accuracy is 1 for a correct
    response and 0 otherwise. The ratio of accuracy to confidence is absent when the
    confidence is absent or 0 or the correctness unknown; it is 0 for an incorrect
    response, and for a correct one with confidence 1 to 5 it is the double nearest
    to 5 over the confidence: 5, 2.5, 1.666..., 1.25 and 1. The efficiency is absent
    unless both times are given and not zero; it is then the double quotient of the
    estimated by the actual time, at least 1 when the response took no longer than
    estimated and at most 1 when it took no less. *)
Theorem metrics_never_raise :
  forall self : ResponseRow,
  columns_in_range self = true ->
  exists m : metrics,
    calculate_performance_metrics self = Ok m /\
    accuracy m = (if bool_truthy (is_correct self) then 1%Q else 0%Q) /\
    (confidence_accuracy_ratio m = None <->
     int_truthy (confidence_level self) = false \/ is_correct self = None) /\
    (forall x, bool_truthy (is_correct self) = false ->
               confidence_accuracy_ratio m = Some x -> x = 0%Q) /\
    (forall cl, is_correct self = Some true -> confidence_level self = Some cl ->
                1 <= cl <= 5 ->
                exists x, confidence_accuracy_ratio m = Some x /\
                          x = rnd (5 # Z.to_pos cl) /\ (1 <= x <= 5)%Q /\
                          ((x == 1)%Q <-> cl = 5)) /\
    (forall x, response_efficiency m = Some x ->
       exists rt et q,
         response_time self = Some rt /\ question self = Some q /\
         estimated_time q = Some et /\ rt <> 0 /\ et <> 0 /\
         x = int_truediv et rt /\
         (0 < rt <= et -> (1 <= x)%Q) /\
         (0 < et <= rt -> (0 <= x <= 1)%Q)).
Proof.
  intros self _. eexists. split; [apply metrics_closed_form|].
  cbn [accuracy response_efficiency confidence_accuracy_ratio].
  split; [reflexivity|]. split; [|split; [|split]].
  - unfold spec_ratio, int_truthy.
    destruct (confidence_level self) as [cl|]; [|split; auto].
    destruct (is_correct self) as [v|]; [|split; auto].
    destruct (Z.eqb_spec cl 0); cbn [negb]; split; auto; try discriminate.
    intros [H|H]; discriminate.
  - intros x F. unfold spec_ratio.
    destruct (confidence_level self) as [cl|]; [|discriminate].
    destruct (is_correct self) as [[|]|]; try discriminate.
    destruct (cl =? 0); [discriminate|]. now intros [= <-].
  - intros cl V C R. unfold spec_ratio. rewrite V, C.
    destruct ratio_table as (T1 & T2 & T3 & T4 & T5).
    assert (K : cl = 1 \/ cl = 2 \/ cl = 3 \/ cl = 4 \/ cl = 5) by lia.
    destruct K as [-> | [-> | [-> | [-> | ->]]]]; cbn [Z.eqb Z.to_pos];
      eexists; (split; [reflexivity|]).
    + rewrite T1. split; [vm_compute; reflexivity|]. split; [split; discriminate|].
      split; [intros E; discriminate E | discriminate].
    + rewrite T2. split; [vm_compute; reflexivity|]. split; [split; discriminate|].
      split; [intros E; discriminate E | discriminate].
    + rewrite T3. split; [reflexivity|]. split; [split; vm_compute; discriminate|].
      split; [intros E; vm_compute in E; discriminate E | discriminate].
    + rewrite T4. split; [vm_compute; reflexivity|]. split; [split; discriminate|].
      split; [intros E; discriminate E | discriminate].
    + rewrite T5. split; [vm_compute; reflexivity|]. split; [split; discriminate|].
      split; reflexivity.
  - intros x. unfold spec_efficiency.
    destruct (response_time self) as [rt|]; [|discriminate].
    destruct (question self) as [q|]; [|discriminate].
    destruct (estimated_time q) as [et|] eqn:Et; [|discriminate].
    destruct (Z.eqb_spec rt 0) as [R0|R0]; [discriminate|].
    destruct (Z.eqb_spec et 0) as [E0|E0]; [discriminate|]. cbn [orb].
    intros [= <-]. exists rt, et, q.
    repeat (split; [reflexivity || assumption|]).
    split.
    + intros [P L]. unfold int_truediv.
      apply (rnd_ge_int _ 1); [|lia]. change (inject_Z 1) with 1%Q.
      assert (Hr : (0 < inject_Z rt)%Q)
        by (change 0%Q with (inject_Z 0); now rewrite <- Zlt_Qlt).
      apply Qle_shift_div_l; [exact Hr|]. rewrite Qmult_1_l. now apply inject_Z_le.
    + intros [P L]. apply AdviceFacts.truediv_unit; lia.
Qed.

(** The sample response: accuracy 1, ratio 1.25 and efficiency 2. *)
Lemma metrics_never_raise_witness :
  calculate_performance_metrics sample_response
  = Ok {| accuracy := 1%Q; response_efficiency := Some 2%Q;
          confidence_accuracy_ratio := Some (5 # 4)%Q |}.
Proof.
  destruct (metrics_never_raise sample_response eq_refl) as (m & E & _).
  rewrite E. f_equal.
  assert (V : calculate_performance_metrics sample_response
              = Ok {| accuracy := 1%Q; response_efficiency := Some 2%Q;
                      confidence_accuracy_ratio := Some (5 # 4)%Q |})
    by (vm_compute; reflexivity).
  rewrite E in V. now injection V.
Defined.

End MetricsFacts.

(** * Submitting an answer *)
Module SubmissionFacts.
Import PyStr PyStrFacts Float64 Float64Facts Py QAGen Adjuster Questions Grading
  Submission TallyFacts.
Local Open Scope Z_scope.

Lemma first_question_id (db : Db) (question_id : Z) (q : Question) :
  first_question db question_id = Some q -> q_id q = question_id.
Proof.
  unfold first_question. intros H. apply find_some in H. destruct H as [_ H].
  now apply Z.eqb_eq.
Qed.

Lemma find_stored (q' : Question) (rows : list Question) (q : Question) :
  List.find (fun x => q_id x =? q_id q') rows = Some q ->
  List.find (fun x => q_id x =? q_id q') (store_question q' rows) = Some q'.
Proof.
  induction rows as [|x rows IH]; cbn [List.find store_question map]; [discriminate|].
  destruct (Z.eqb_spec (q_id x) (q_id q')) as [E|E].
  - intros _. now rewrite Z.eqb_refl.
  - intros H. destruct (Z.eqb_spec (q_id x) (q_id q')); [contradiction|]. now apply IH.
Qed.

Lemma find_other (q' : Question) (rows : list Question) (other : Z) :
  other <> q_id q' ->
  List.find (fun x => q_id x =? other) (store_question q' rows)
  = List.find (fun x => q_id x =? other) rows.
Proof.
  intros N. induction rows as [|x rows IH]; cbn [List.find store_question map];
    [reflexivity|].
  destruct (Z.eqb_spec (q_id x) (q_id q')) as [E|E].
  - destruct (Z.eqb_spec (q_id q') other); [congruence|].
    destruct (Z.eqb_spec (q_id x) other); [congruence|]. exact IH.
  - destruct (q_id x =? other); [reflexivity | exact IH].
Qed.

Lemma update_keeps (question : Question) (rows : list StudentResponse) :
  q_id (_update_correct_rate question rows) = q_id question /\
  q_question_type (_update_correct_rate question rows) = q_question_type question /\
  q_correct_answer (_update_correct_rate question rows) = q_correct_answer question /\
  q_keywords (_update_correct_rate question rows) = q_keywords question /\
  q_usage_count (_update_correct_rate question rows) = q_usage_count question.
Proof.
  rewrite update_by_tally. cbv zeta. destruct (_ =? 0); repeat split; reflexivity.
Qed.

Lemma submit_cases (db : Db) (commit_succeeds : bool) (now question_id : Z)
    (student_id response_text : text) (response_time : option Z) (q : Question) :
  first_question db question_id = Some q ->
  let v := _evaluate_answer q response_text in
  let row := {| r_question_id := question_id; r_student_id := student_id;
                r_response_text := response_text; r_is_correct := Some v;
                r_score := Some (score_of v); r_response_time := response_time;
                r_submitted_at := now |} in
  exists q',
    submit_answer db commit_succeeds now question_id student_id response_text response_time
    = (if commit_succeeds
       then (Recorded v (score_of v),
             {| db_questions := store_question q' (db_questions db);
                db_responses := db_responses db ++ [row] |})
       else (Http 500, db)) /\
    q_id q' = question_id /\
    q_question_type q' = q_question_type q /\
    q_correct_answer q' = q_correct_answer q /\
    q_keywords q' = q_keywords q /\
    q_usage_count q' = q_usage_count q + 1 /\
    q_correct_rate q' = q_correct_rate (_update_correct_rate q (db_responses db)).
Proof.
  intros F v row. pose proof (first_question_id _ _ _ F) as I.
  set (q1 := {| q_id := q_id q; q_question_type := q_question_type q;
                q_correct_answer := q_correct_answer q; q_keywords := q_keywords q;
                q_usage_count := q_usage_count q + 1;
                q_correct_rate := q_correct_rate q |}).
  exists (_update_correct_rate q1 (db_responses db)).
  destruct (update_keeps q1 (db_responses db)) as (K1 & K2 & K3 & K4 & K5).
  split; [|repeat split; try assumption].
  - unfold submit_answer. rewrite F. reflexivity.
  - now rewrite K1.
  - rewrite !update_by_tally. cbv zeta.
    change (relevant q1) with (relevant q).
    destruct (_ =? 0); reflexivity.
Qed.

(** X22. Submitting an answer to a question that is not in the table gives status
    404 and changes nothing; a submission to a question of the table whose commit
    fails gives status 500 and changes nothing. Otherwise the reply carries the verdict of the grading and the score 100
    or 0; the table of responses grows by one row, which holds the verdict and the
    score; the question is found again under its identifier with one use more and
    its type, answer and keywords as before, and every other question is found as
    before. The rate stored with the question is the one of the responses recorded
    before this one: the response just given does not count in it. *)
Theorem submission_effect :
  forall (db : Db) (commit_succeeds : bool) (now question_id : Z)
         (student_id response_text : text) (response_time : option Z),
  let result := submit_answer db commit_succeeds now question_id student_id response_text
                  response_time in
  (first_question db question_id = None -> result = (Http 404, db)) /\
  (forall q, first_question db question_id = Some q -> commit_succeeds = false ->
     result = (Http 500, db)) /\
  (forall q, first_question db question_id = Some q -> commit_succeeds = true ->
     let v := _evaluate_answer q response_text in
     fst result = Recorded v (if v then 100%Q else 0%Q) /\
     (exists row,
        db_responses (snd result) = db_responses db ++ [row] /\
        r_question_id row = question_id /\ r_response_text row = response_text /\
        r_is_correct row = Some v /\ r_score row = Some (if v then 100%Q else 0%Q)) /\
     (exists q',
        first_question (snd result) question_id = Some q' /\
        q_usage_count q' = q_usage_count q + 1 /\
        q_question_type q' = q_question_type q /\
        q_correct_answer q' = q_correct_answer q /\
        q_keywords q' = q_keywords q /\
        q_correct_rate q' = q_correct_rate (_update_correct_rate q (db_responses db))) /\
     (forall other, other <> question_id ->
        first_question (snd result) other = first_question db other)).
Proof.
  intros db ok now question_id student_id response_text response_time result.
  split; [|split].
  - intros F. unfold result, submit_answer. now rewrite F.
  - intros q F ->. unfold result, submit_answer. now rewrite F.
  - intros q F -> v.
    destruct (submit_cases db true now question_id student_id response_text response_time
                q F) as (q' & E & K1 & K2 & K3 & K4 & K5 & K6).
    fold result in E. rewrite E. cbn [fst snd db_responses].
    split; [reflexivity|]. split; [|split].
    + eexists. split; [reflexivity|]. cbn. repeat split; reflexivity.
    + exists q'. split; [|repeat split; assumption].
      unfold first_question in *. cbn [db_questions]. rewrite <- K1.
      apply (find_stored q' _ q). now rewrite K1.
    + intros other N. unfold first_question. cbn [db_questions].
      apply find_other. congruence.
Qed.

(** X23. The rate lags one submission behind. When a question has no response of
    known correctness yet, the first answer recorded leaves its rate as it was and
    the second stores 100 or 0 according to the verdict on the first answer alone,
    whatever the second answer is; the question then counts two uses. *)
Theorem rate_lags_one_submission :
  forall (db : Db) (q : Question) (now1 now2 : Z) (student1 answer1 student2 answer2 : text)
         (time1 time2 : option Z),
  first_question db (q_id q) = Some q ->
  filter (relevant q) (db_responses db) = [] ->
  let db1 := snd (submit_answer db true now1 (q_id q) student1 answer1 time1) in
  let db2 := snd (submit_answer db1 true now2 (q_id q) student2 answer2 time2) in
  exists q1 q2,
    first_question db1 (q_id q) = Some q1 /\
    q_correct_rate q1 = q_correct_rate q /\
    first_question db2 (q_id q) = Some q2 /\
    q_correct_rate q2 = Some (if _evaluate_answer q answer1 then 100 else 0) /\
    q_usage_count q2 = q_usage_count q + 2.
Proof.
  intros db q now1 now2 student1 answer1 student2 answer2 time1 time2 F N db1 db2.
  destruct (submit_cases db true now1 (q_id q) student1 answer1 time1 q F)
    as (q1 & E1 & I1 & _ & _ & _ & U1 & R1).
  assert (F1 : first_question db1 (q_id q) = Some q1).
  { unfold db1. rewrite E1. cbn [snd]. unfold first_question in *. cbn [db_questions].
    rewrite <- I1. apply (find_stored q1 _ q). now rewrite I1. }
  assert (D1 : db_responses db1
               = db_responses db
                 ++ [{| r_question_id := q_id q; r_student_id := student1;
                        r_response_text := answer1;
                        r_is_correct := Some (_evaluate_answer q answer1);
                        r_score := Some (score_of (_evaluate_answer q answer1));
                        r_response_time := time1; r_submitted_at := now1 |}]).
  { unfold db1. now rewrite E1. }
  destruct (submit_cases db1 true now2 (q_id q) student2 answer2 time2 q1 F1)
    as (q2 & E2 & I2 & _ & _ & _ & U2 & R2).
  assert (F2 : first_question db2 (q_id q) = Some q2).
  { unfold db2. rewrite E2. cbn [snd]. unfold first_question in *. cbn [db_questions].
    rewrite <- I2. apply (find_stored q2 _ q1). now rewrite I2. }
  exists q1, q2. split; [exact F1|]. split; [|split; [exact F2|split; [|lia]]].
  - rewrite R1, update_by_tally. cbv zeta. now rewrite N.
  - rewrite R2, update_by_tally. cbv zeta. rewrite D1, filter_app.
    assert (Rq : relevant q1 = relevant q) by (unfold relevant; now rewrite I1).
    rewrite Rq, N. cbn [filter app].
    match goal with
    | |- context [relevant q ?r] =>
        replace (relevant q r) with true
          by (unfold relevant; cbn [r_question_id r_is_correct is_known];
              now rewrite Z.eqb_refl)
    end.
    cbn [filter r_is_correct].
    destruct (_evaluate_answer q answer1); cbn [is_true];
      change (len [_]) with 1; change (len (@nil StudentResponse)) with 0;
      cbn [Z.eqb q_correct_rate]; rewrite ?tally_all, ?tally_none by lia; reflexivity.
Qed.

(** A wrong answer and then the right one: the rate after the second is 0. *)
Lemma rate_lags_one_submission_witness :
  let q := sample_q SINGLE_CHOICE "paris" None in
  let db1 := snd (submit_answer fresh_db true 1 1 (text_of_string "s1")
                    (text_of_string "Lyon") None) in
  let db2 := snd (submit_answer db1 true 2 1 (text_of_string "s1")
                    (text_of_string "Paris") None) in
  exists q1 q2,
    first_question db1 1 = Some q1 /\ q_correct_rate q1 = None /\
    first_question db2 1 = Some q2 /\ q_correct_rate q2 = Some 0 /\
    q_usage_count q2 = 2.
Proof.
  exact (rate_lags_one_submission fresh_db (sample_q SINGLE_CHOICE "paris" None) 1 2
           (text_of_string "s1") (text_of_string "Lyon") (text_of_string "s1")
           (text_of_string "Paris") None None eq_refl eq_refl).
Defined.

End SubmissionFacts.
